(** * Segmentation_Gym: inference-time post-processing of [seg_images_in_folder.py]

    A shallow embedding of the numeric core of the prediction script:
    [rescale] and [standardize], the test-time-augmentation ensemble of the
    binary path, threshold selection, the confidence map, mask binarisation,
    the multiclass decision, and the per-file loop with the files it writes.

    Array elements are numpy floats.  They are modelled as real numbers
    extended with the three IEEE special values; arithmetic on finite values
    is exact (no rounding), and the sign of zero is not tracked.  The offsets
    of the shift schedule are exact rationals, so that the shifts can be
    computed. *)

From Stdlib Require Import String Ascii.
From Stdlib Require Import Reals Lra Lia ZArith QArith Qreals Qround.
From Stdlib Require Import List Bool.
From Stdlib Require Import ZifyNat.
Import ListNotations.

Open Scope R_scope.

(** ** numpy floats *)

Inductive fl : Type :=
| Fin (r : R)
| NaN
| PInf
| NInf.

Definition Rltb (a b : R) : bool := if Rlt_dec a b then true else false.
Definition Reqb (a b : R) : bool := if Req_dec_T a b then true else false.

Definition fneg (a : fl) : fl :=
  match a with
  | Fin r => Fin (- r)
  | NaN => NaN
  | PInf => NInf
  | NInf => PInf
  end.

Definition fadd (a b : fl) : fl :=
  match a, b with
  | NaN, _ | _, NaN => NaN
  | Fin x, Fin y => Fin (x + y)
  | PInf, NInf | NInf, PInf => NaN
  | PInf, _ | _, PInf => PInf
  | NInf, _ | _, NInf => NInf
  end.

Definition fsub (a b : fl) : fl := fadd a (fneg b).

(** An infinity with the sign of [r]; [inf * 0] is NaN. *)
Definition signed_inf (r : R) (pos : bool) : fl :=
  if Reqb r 0 then NaN
  else if Bool.eqb (Rltb 0 r) pos then PInf else NInf.

Definition fmul (a b : fl) : fl :=
  match a, b with
  | NaN, _ | _, NaN => NaN
  | Fin x, Fin y => Fin (x * y)
  | Fin x, PInf | PInf, Fin x => signed_inf x true
  | Fin x, NInf | NInf, Fin x => signed_inf x false
  | PInf, PInf | NInf, NInf => PInf
  | PInf, NInf | NInf, PInf => NInf
  end.

(** Division as numpy does it on float arrays: no exception, [0/0] is NaN and
    [x/0] is an infinity. *)
Definition fdiv (a b : fl) : fl :=
  match a, b with
  | NaN, _ | _, NaN => NaN
  | Fin x, Fin y =>
      if Reqb y 0 then
        (if Reqb x 0 then NaN else if Rltb 0 x then PInf else NInf)
      else Fin (x / y)
  | Fin _, PInf | Fin _, NInf => Fin 0
  | PInf, Fin y => if Rltb y 0 then NInf else PInf
  | NInf, Fin y => if Rltb y 0 then PInf else NInf
  | PInf, PInf | PInf, NInf | NInf, PInf | NInf, NInf => NaN
  end.

(** [a < b]; every comparison with NaN is false. *)
Definition flt (a b : fl) : bool :=
  match a, b with
  | NaN, _ | _, NaN => false
  | Fin x, Fin y => Rltb x y
  | NInf, Fin _ | NInf, PInf | Fin _, PInf => true
  | _, _ => false
  end.

Definition fgt (a b : fl) : bool := flt b a.

Definition isnan (a : fl) : bool :=
  match a with NaN => true | _ => false end.

Definition isinf (a : fl) : bool :=
  match a with PInf | NInf => true | _ => false end.

Definition isfinite (a : fl) : bool :=
  match a with Fin _ => true | _ => false end.

(** [np.sqrt] *)
Definition np_sqrt (a : fl) : fl :=
  match a with
  | Fin r => if Rltb r 0 then NaN else Fin (sqrt r)
  | PInf => PInf
  | NaN | NInf => NaN
  end.

(** [np.abs] *)
Definition np_abs (a : fl) : fl :=
  match a with
  | Fin r => Fin (Rabs r)
  | NaN => NaN
  | PInf | NInf => PInf
  end.

(** [np.maximum] / [np.minimum] of two scalars: NaN propagates. *)
Definition np_maximum (a b : fl) : fl :=
  match a, b with
  | NaN, _ | _, NaN => NaN
  | _, _ => if flt a b then b else a
  end.

Definition np_minimum (a b : fl) : fl :=
  match a, b with
  | NaN, _ | _, NaN => NaN
  | _, _ => if flt b a then b else a
  end.

(** ** Reductions over a flattened array *)

(** [np.sum] *)
Definition np_sum (l : list fl) : fl := fold_left fadd l (Fin 0).

(** [np.mean]: the sum over the element count ([0/0], NaN, when empty). *)
Definition np_mean (l : list fl) : fl :=
  fdiv (np_sum l) (Fin (INR (length l))).

(** [np.std]: [sqrt(mean(abs(x - mean(x))**2))]. *)
Definition np_std (l : list fl) : fl :=
  let m := np_mean l in
  np_sqrt (np_mean (map (fun x => let d := np_abs (fsub x m) in fmul d d) l)).

(** [np.max] / [np.min] of a whole array; [None] is the ValueError raised on
    an empty array. *)
Definition np_max (l : list fl) : option fl :=
  match l with
  | [] => None
  | x :: t => Some (fold_left np_maximum t x)
  end.

Definition np_min (l : list fl) : option fl :=
  match l with
  | [] => None
  | x :: t => Some (fold_left np_minimum t x)
  end.

(** Python's builtin [min] and [max] on a sequence: the running value is
    replaced when the next item compares strictly below (above) it. *)
Definition py_min (l : list fl) : option fl :=
  match l with
  | [] => None
  | x :: t => Some (fold_left (fun cur y => if flt y cur then y else cur) t x)
  end.

Definition py_max (l : list fl) : option fl :=
  match l with
  | [] => None
  | x :: t => Some (fold_left (fun cur y => if fgt y cur then y else cur) t x)
  end.

(** ** Arrays *)

(** An n-dimensional array: its shape and its elements in row-major order. *)
Record array (A : Type) : Type := mk_array {
  shape : list nat;
  data : list A
}.

Arguments mk_array {A} _ _.
Arguments shape {A} _.
Arguments data {A} _.

(** Float arrays. *)
Definition ndarray : Type := array fl.

Definition mk_ndarray (sh : list nat) (d : list fl) : ndarray := mk_array sh d.

Definition ndim {A : Type} (a : array A) : nat := length (shape a).

Definition size_of (sh : list nat) : nat := fold_right Nat.mul 1%nat sh.

Definition well_shaped {A : Type} (a : array A) : Prop :=
  length (data a) = size_of (shape a).

(** Consecutive chunks of [n] elements. *)
Fixpoint chunks_fuel {A : Type} (fuel n : nat) (l : list A) : list (list A) :=
  match fuel with
  | O => []
  | S f =>
      match l with
      | [] => []
      | _ => firstn n l :: chunks_fuel f n (skipn n l)
      end
  end.

Definition chunks {A : Type} (n : nat) (l : list A) : list (list A) :=
  chunks_fuel (length l) n l.

(** [np.dstack((a, a, a))] for an array of at least two dimensions: the three
    copies are joined along the third axis (a 2-D array is first given a
    third axis of length one). *)
Definition dstack3 (a : ndarray) : ndarray :=
  match shape a with
  | d0 :: d1 :: rest =>
      let blk := size_of rest in
      let sh := match rest with
                | [] => [d0; d1; 3%nat]
                | c :: r => d0 :: d1 :: (3 * c)%nat :: r
                end in
      mk_ndarray sh (flat_map (fun b => b ++ b ++ b) (chunks blk (data a)))
  | _ => a
  end.

(** ** rescale and standardize *)

(** [rescale(dat, mn, mx)]: [(mx-mn)*(dat-m)/(M-m)+mn] with [m], [M] the
    builtin [min], [max] of the flattened data. *)
Definition rescale (dat : list fl) (mn mx : fl) : option (list fl) :=
  match py_min dat, py_max dat with
  | Some m, Some M =>
      Some (map (fun x =>
                   fadd (fdiv (fmul (fsub mx mn) (fsub x m)) (fsub M m)) mn)
                dat)
  | _, _ => None
  end.

(** The first lines of [standardize]: [N], [s], [m] and [(img - m) / s],
    for an image whose first two dimensions are [d0] and [d1]. *)
Definition zscore (d0 d1 : nat) (dat : list fl) : list fl :=
  let N := (d0 * d1)%nat in
  let s := np_maximum (np_std dat) (fdiv (Fin 1) (np_sqrt (Fin (INR N)))) in
  let m := np_mean dat in
  map (fun x => fdiv (fsub x m) s) dat.

(** [standardize(img)].  [None] stands for the exception raised when the
    image has fewer than two dimensions or no element. *)
Definition standardize (img : ndarray) : option ndarray :=
  match shape img with
  | d0 :: d1 :: _ =>
      match rescale (zscore d0 d1 (data img)) (Fin 0) (Fin 1) with
      | Some img2 =>
          let out := mk_ndarray (shape img) img2 in
          Some (if Nat.eqb (ndim out) 3 then out else dstack3 out)
      | None => None
      end
  | _ => None
  end.

(** A float that is a number of the unit interval. *)
Definition in_unit (x : fl) : Prop := exists r, x = Fin r /\ 0 <= r <= 1.

(** ** External collaborators

    The trained network and the image-library routines the script calls.
    Their code is not part of the repository; the pipeline is parametric in
    them. *)

Class Collaborators : Type := {
  (** [model.predict(tf.expand_dims(x, 0), batch_size=1).squeeze()] *)
  predict : ndarray -> ndarray;
  (** [skimage.transform.resize(e, (w, h))] *)
  resize : ndarray -> nat -> nat -> ndarray;
  (** [skimage.filters.threshold_otsu] *)
  threshold_otsu : ndarray -> fl;
  (** [scipy.ndimage.maximum_filter(a, size)] *)
  maximum_filter : ndarray -> Z -> ndarray;
  (** [skimage.morphology.remove_small_holes(a, area)]; the script passes it
      a uint8 array and gets a boolean one *)
  remove_small_holes : array Z -> Z -> array bool;
  (** [skimage.morphology.remove_small_objects(a, size)]; the script passes
      it a uint8 array *)
  remove_small_objects : array Z -> Z -> array Z
}.

(** ** The shift schedule of the binary path *)

(** Python [int(x)] of a float: truncation toward zero. *)
Definition py_int (q : Q) : Z := Z.quot (Qnum q) (Zpos (Qden q)).

(** [np.linspace(start, stop, num)]: [start + i * (stop - start)/(num - 1)]. *)
Definition linspace (start stop : Q) (num : nat) : list Q :=
  let step := ((stop - start) / inject_Z (Z.of_nat (num - 1)))%Q in
  map (fun i => Qred (start + inject_Z (Z.of_nat i) * step)%Q) (seq 0 num).

(** [np.roll(a, shift)] without an axis: the flattened array is rotated by
    [shift] places, elements leaving at the end coming back at the start. *)
Definition roll {A : Type} (l : list A) (shift : Z) : list A :=
  let n := length l in
  match n with
  | O => l
  | _ =>
      let r := Z.to_nat (shift mod Z.of_nat n) in
      skipn (n - r) l ++ firstn (n - r) l
  end.

Definition np_roll (a : ndarray) (shift : Z) : ndarray :=
  mk_ndarray (shape a) (roll (data a) shift).

(** [2*(1/np.sqrt(k))] *)
Definition shift_weight (k : Q) : fl :=
  fmul (Fin 2) (fdiv (Fin 1) (np_sqrt (Fin (Q2R k)))).

(** The two loops over [np.linspace(100, int(TARGET_SIZE[0]), 10)] that extend
    the lists [E] and [W]; [sign] is [1] for the first loop and [-1] for the
    second. *)
Definition shift_loop `{Collaborators} (image : ndarray) (sign : Z)
  (ks : list Q) (EW : list ndarray * list fl) : list ndarray * list fl :=
  fold_left
    (fun (acc : list ndarray * list fl) (k : Q) =>
       (fst acc ++ [predict (np_roll image (sign * py_int k))],
        snd acc ++ [shift_weight k]))
    ks EW.

Definition shift_schedule (T : Z) : list Q := linspace 100 (inject_Z T) 10.

(** The ensemble [E] and the weights [W] built for one image. *)
Definition tta_ensemble `{Collaborators} (T : Z) (image : ndarray)
  : list ndarray * list fl :=
  let EW0 := ([predict image], [Fin 1]) in
  let EW1 := shift_loop image 1 (shift_schedule T) EW0 in
  shift_loop image (-1) (shift_schedule T) EW1.

(** ** Combination of the ensemble *)

Fixpoint shape_eqb (a b : list nat) : bool :=
  match a, b with
  | [], [] => true
  | x :: a', y :: b' => Nat.eqb x y && shape_eqb a' b'
  | _, _ => false
  end.

(** The values the arrays of [E] hold at flat position [p]. *)
Definition pixel_vector (E : list ndarray) (p : nat) : list fl :=
  map (fun e => nth p (data e) NaN) E.

(** [np.dstack(E)] of 2-D arrays of one shape: a 3-D array whose last axis
    runs over the members.  [None] is the ValueError on mismatched shapes. *)
Definition dstack (E : list ndarray) : option ndarray :=
  match E with
  | [] => None
  | e0 :: _ =>
      if (Nat.eqb (ndim e0) 2 && forallb (fun e => shape_eqb (shape e) (shape e0)) E)%bool
      then Some (mk_ndarray (shape e0 ++ [length E])
                   (flat_map (pixel_vector E) (seq 0 (length (data e0)))))
      else None
  end.

(** The shape without its last axis. *)
Definition drop_last_axis (sh : list nat) : list nat := removelast sh.

(** The vectors along the last axis, one per position of the other axes. *)
Definition last_axis (a : ndarray) : list (list fl) :=
  chunks (last (shape a) 1%nat) (data a).

Fixpoint zip_with {A B C : Type} (f : A -> B -> C) (l : list A) (m : list B)
  : list C :=
  match l, m with
  | x :: l', y :: m' => f x y :: zip_with f l' m'
  | _, _ => []
  end.

(** [np.average(v, weights=W)] of one vector: [sum(v*W)/sum(W)].  [None] is
    the exception raised on a length mismatch or on weights summing to 0. *)
Definition weighted_mean (W v : list fl) : option fl :=
  if negb (Nat.eqb (length v) (length W)) then None
  else
    let scl := np_sum W in
    match scl with
    | Fin r => if Reqb r 0 then None
               else Some (fdiv (np_sum (zip_with fmul v W)) scl)
    | _ => Some (fdiv (np_sum (zip_with fmul v W)) scl)
    end.

Fixpoint sequence {A : Type} (l : list (option A)) : option (list A) :=
  match l with
  | [] => Some []
  | None :: _ => None
  | Some x :: t =>
      match sequence t with
      | Some r => Some (x :: r)
      | None => None
      end
  end.

(** [np.average(a, axis=-1, weights=W)] *)
Definition np_average (a : ndarray) (W : list fl) : option ndarray :=
  match sequence (map (weighted_mean W) (last_axis a)) with
  | Some d => Some (mk_ndarray (drop_last_axis (shape a)) d)
  | None => None
  end.

(** [np.std(a, axis=-1)] *)
Definition np_std_last (a : ndarray) : ndarray :=
  mk_ndarray (drop_last_axis (shape a)) (map np_std (last_axis a)).

(** [E = [resize(e,(w,h)) for e in E]] followed by the weighted average and
    the spread over the members. *)
Definition combine `{Collaborators} (E : list ndarray) (W : list fl)
  (w h : nat) : option (ndarray * ndarray) :=
  let E' := map (fun e => resize e w h) E in
  match dstack E' with
  | Some st =>
      match np_average st W with
      | Some est_label => Some (est_label, np_std_last st)
      | None => None
      end
  | None => None
  end.

(** ** Boolean-mask indexing *)

(** [a[mask]]: the elements at the true positions, in order. *)
Fixpoint take_where {A : Type} (mask : list bool) (a : list A) : list A :=
  match mask, a with
  | true :: m, x :: a' => x :: take_where m a'
  | false :: m, _ :: a' => take_where m a'
  | _, _ => []
  end.

(** [a[mask] = vals]: the true positions receive the values in order. *)
Fixpoint put_where {A : Type} (mask : list bool) (a vals : list A) : list A :=
  match mask, a with
  | true :: m, x :: a' =>
      match vals with
      | v :: vs => v :: put_where m a' vs
      | [] => x :: a'
      end
  | false :: m, x :: a' => x :: put_where m a' vals
  | _, _ => a
  end.

(** [a[mask] = c] for a scalar [c]. *)
Fixpoint fill_where {A : Type} (mask : list bool) (a : list A) (c : A)
  : list A :=
  match mask, a with
  | true :: m, _ :: a' => c :: fill_where m a' c
  | false :: m, x :: a' => x :: fill_where m a' c
  | _, _ => a
  end.

(** ** Threshold selection (binary path) *)

Definition select_threshold `{Collaborators} (est_label : ndarray)
  : option fl :=
  match np_max (data est_label), np_min (data est_label) with
  | Some M, Some m =>
      if fgt (fsub M m) (Fin 0.5) then
        let thres := threshold_otsu est_label in
        Some (if fgt thres (Fin 0.75) then Fin 0.75 else thres)
      else Some (Fin 0.75)
  | _, _ => None
  end.

(** ** Confidence map (binary path) *)

(** [conf[np.isnan(conf)] = 0; conf[np.isinf(conf)] = 0] *)
Definition zero_nonfinite (conf : list fl) : list fl :=
  let conf := fill_where (map isnan conf) conf (Fin 0) in
  fill_where (map isinf conf) conf (Fin 0).

(** [conf = 1-est_label; conf[est_label<thres] = est_label[est_label<thres];
    conf = 1-conf], then the two clean-up assignments. *)
Definition confidence (est_label : list fl) (thres : fl) : list fl :=
  let conf := map (fun p => fsub (Fin 1) p) est_label in
  let below := map (fun p => flt p thres) est_label in
  let conf := put_where below conf (take_where below est_label) in
  let conf := map (fun c => fsub (Fin 1) c) conf in
  zero_nonfinite conf.

(** [np.sum(conf)/np.prod(conf.shape)] *)
Definition model_conf (conf : ndarray) : fl :=
  fdiv (np_sum (data conf)) (Fin (INR (size_of (shape conf)))).

(** ** Mask binarisation and cleaning (binary path) *)

(** The two in-place assignments [a[a<thres] = 0; a[a>thres] = 1]; the second
    mask is computed on the array as the first assignment left it. *)
Definition binarize (thres : fl) (a : list fl) : list fl :=
  let a := fill_where (map (fun x => flt x thres) a) a (Fin 0) in
  fill_where (map (fun x => fgt x thres) a) a (Fin 1).

(** The same two assignments on an integer array. *)
Definition binarize_int (thres : fl) (a : list Z) : list Z :=
  let a := fill_where (map (fun x => flt (Fin (IZR x)) thres) a) a 0%Z in
  fill_where (map (fun x => fgt (Fin (IZR x)) thres) a) a 1%Z.

(** Truncation of a real toward zero. *)
Definition Rtrunc (r : R) : Z :=
  if Rltb r 0 then (- Int_part (- r))%Z else Int_part r.

(** [astype('uint8')] of a float: the fraction is dropped and the result
    wraps into [0, 256).  The value numpy gives for NaN and the infinities
    depends on the platform; it is taken to be 0. *)
Definition astype_uint8 (x : fl) : Z :=
  match x with
  | Fin r => (Rtrunc r mod 256)%Z
  | _ => 0%Z
  end.

(** [astype('uint8')] of a boolean. *)
Definition bool_uint8 (b : bool) : Z := if b then 1%Z else 0%Z.

(** Multiplication of a uint8 array by the scalar 2. *)
Definition uint8_double (v : Z) : Z := ((v * 2) mod 256)%Z.

(** [np.squeeze]: axes of length one are dropped. *)
Definition squeeze {A : Type} (a : array A) : array A :=
  mk_array (filter (fun d => negb (Nat.eqb d 1)) (shape a)) (data a).

(** [a[:w, :h]] of a 2-D array. *)
Definition crop {A : Type} (a : array A) (w h : nat) : array A :=
  match shape a with
  | [d0; d1] =>
      let rows := firstn w (chunks d1 (data a)) in
      mk_array [Nat.min w d0; Nat.min h d1] (flat_map (firstn h) rows)
  | _ => a
  end.

(** [est_label.astype('uint8')*2] after the first binarisation: the array
    handed to [remove_small_holes]. *)
Definition holes_input (thres : fl) (est_label : list fl) : list Z :=
  map (fun x => uint8_double (astype_uint8 x)) (binarize thres est_label).

(** The mask computed from the combined probability map: binarise, cast and
    double, fill small holes, cast and double, drop small objects, binarise
    again, crop and squeeze. *)
Definition clean_mask `{Collaborators} (est_label : ndarray) (thres : fl)
  (w h : nat) : array Z :=
  let holes_in := mk_array (shape est_label)
                           (holes_input thres (data est_label)) in
  let filled := remove_small_holes holes_in (2 * Z.of_nat w) in
  let objs_in :=
    mk_array (shape filled)
             (map (fun b => uint8_double (bool_uint8 b)) (data filled)) in
  let kept := remove_small_objects objs_in (2 * Z.of_nat w) in
  let final := mk_array (shape kept) (binarize_int thres (data kept)) in
  squeeze (crop final w h).

(** ** The multiclass decision *)

(** [est_label[:,:,k]] of an array whose last axis has length [K]. *)
Definition channel (K k : nat) (a : ndarray) : ndarray :=
  mk_ndarray (drop_last_axis (shape a))
             (map (fun v => nth k v NaN) (chunks K (data a))).

(** [int(w/2/NCLASSES)] *)
Definition filter_size (w NCLASSES : Z) : Z :=
  py_int (inject_Z w / 2 / inject_Z NCLASSES)%Q.

(** [np.argmax] of one vector: the first position holding the maximum, a NaN
    counting as the maximum. *)
Fixpoint argmax_from (best : fl) (bi i : nat) (l : list fl) : nat :=
  match l with
  | [] => bi
  | x :: t =>
      if isnan best then bi
      else if (isnan x || fgt x best)%bool then argmax_from x i (S i) t
      else argmax_from best bi (S i) t
  end.

Definition np_argmax (l : list fl) : option nat :=
  match l with
  | [] => None
  | x :: t => Some (argmax_from x 0 1 t)
  end.

(** The multiclass path after the forward pass: per-class maximum filter,
    [dstack], [resize], per-pixel [max] with NaN and Inf zeroed, per-pixel
    [argmax], and the final crop and squeeze of the label map.  The result is
    the resized stack, the label map and the confidence map. *)
Definition multiclass_decision `{Collaborators} (est_label : ndarray)
  (NCLASSES w h : nat) : option (ndarray * array nat * ndarray) :=
  let size := filter_size (Z.of_nat w) (Z.of_nat NCLASSES) in
  let E := map (fun k => maximum_filter (channel NCLASSES k est_label) size)
               (seq 0 NCLASSES) in
  match dstack E with
  | Some st =>
      let st := resize st w h in
      let sh := drop_last_axis (shape st) in
      match sequence (map np_max (last_axis st)),
            sequence (map np_argmax (last_axis st)) with
      | Some conf, Some labels =>
          Some (st,
                squeeze (crop (mk_array sh labels) w h),
                mk_ndarray sh (zero_nonfinite conf))
      | _, _ => None
      end
  | None => None
  end.

(** ** The per-file loop and the files it writes *)

Open Scope string_scope.

(** Python [sub in s]. *)
Definition contains (sub s : string) : bool :=
  match index 0 sub s with
  | Some _ => true
  | None => false
  end.

(** Python [s.replace(old, new)] for a non-empty [old]: every occurrence,
    left to right, without overlap.  [skip] counts the characters of a
    matched occurrence still to be dropped. *)
Fixpoint replace_from (skip : nat) (old new s : string) : string :=
  match s with
  | EmptyString => EmptyString
  | String c s' =>
      match skip with
      | S k => replace_from k old new s'
      | O =>
          if prefix old s
          then new ++ replace_from (String.length old - 1) old new s'
          else String c (replace_from 0 old new s')
      end
  end.

Definition replace (old new s : string) : string := replace_from 0 old new s.

(** [os.sep] *)
Definition sep : string := "/".

Record config : Type := mk_config {
  NCLASSES : Z;
  N_DATA_BANDS : Z;
  sample_direc : string
}.

Inductive dtype : Type := Float16 | UInt8.

(** What the script does to the outside world, in order.  A [Savez] event
    records the element type of the saved array and whether the archive is
    compressed. *)
Inductive event : Type :=
| Printed (msg arg : string)
| Savez (path : string) (d : dtype) (compressed : bool)
| Imsave (path : string).

Inductive exn : Type :=
| NotFoundError (path : string)
| InvalidArgumentError (path : string)
| NameError (var : string)
| RuntimeError (path : string).

(** The files on disk with, for each, whether its content decodes as an
    image; the events so far. *)
Record world : Type := mk_world {
  disk : list (string * bool);
  trace : list event
}.

Inductive outcome (A : Type) : Type :=
| Ok (a : A)
| Raised (e : exn).

Arguments Ok {A} _.
Arguments Raised {A} _.

(** State and exception: a raised exception keeps the world as it was when
    it was raised. *)
Definition M (A : Type) : Type := world -> outcome A * world.

Definition ret {A : Type} (a : A) : M A := fun w => (Ok a, w).

Definition bind {A B : Type} (m : M A) (k : A -> M B) : M B :=
  fun w =>
    match m w with
    | (Ok a, w') => k a w'
    | (Raised e, w') => (Raised e, w')
    end.

Definition raise {A : Type} (e : exn) : M A := fun w => (Raised e, w).

Notation "x <- m ;; k" := (bind m (fun x => k))
  (at level 61, m at next level, right associativity).
Notation "m ;;; k" := (bind m (fun _ => k))
  (at level 61, right associativity).

Definition lookup (path : string) (d : list (string * bool)) : option bool :=
  match find (fun e => String.eqb (fst e) path) d with
  | Some e => Some (snd e)
  | None => None
  end.

(** [os.path.exists] *)
Definition exists_ (path : string) : M bool :=
  fun w => (Ok (match lookup path (disk w) with Some _ => true | None => false end), w).

Definition emit (e : event) : M unit :=
  fun w => (Ok tt, mk_world (disk w) (trace w ++ [e])).

(** Writing a file: it exists afterwards (as an image or array file that is
    not an input of the script), and the write is recorded. *)
Definition write (e : event) (path : string) : M unit :=
  fun w => (Ok tt, mk_world ((path, true) :: disk w) (trace w ++ [e])).

(** [np.savez(path, a.astype(np.float16))]; [np.savez] stores the arrays
    without compression ([np.savez_compressed] is the compressing call). *)
Definition savez_float16 (path : string) : M unit :=
  write (Savez path Float16 false) path.

(** [imsave(path, ...)] *)
Definition imsave (path : string) : M unit := write (Imsave path) path.

(** [tf.io.read_file] *)
Definition read_file (path : string) : M bool :=
  fun w =>
    match lookup path (disk w) with
    | Some ok => (Ok ok, w)
    | None => (Raised (NotFoundError path), w)
    end.

(** The decoder chosen by the substring test of the file name; [var] is the
    variable that stays unbound when neither test succeeds. *)
Definition decode (is_jpg is_png : bool) (path var : string) (bits : bool)
  : M unit :=
  if (is_jpg || is_png)%bool then
    (if bits then ret tt else raise (InvalidArgumentError path))
  else raise (NameError var).

(** [seg_file2tensor_3band(f, resize)] and [seg_file2tensor_4band(f, fir,
    resize)]: the files read and the decoders applied.  The tensors they
    return are not represented here; what matters to the loop is whether the
    call returns or raises. *)
Definition seg_file2tensor_3band (f : string) : M unit :=
  bits <- read_file f ;;
  decode (contains "jpg" f) (contains "png" f) f "bigimage" bits.

Definition seg_file2tensor_4band (f fir : string) : M unit :=
  bits <- read_file f ;;
  decode (contains "jpg" f) (contains "png" f) f "bigimage" bits ;;;
  bits <- read_file fir ;;
  decode (contains "jpg" fir) (contains "png" f) fir "nir" bits.

(** The name of an output file: the extension is replaced by [suffix] and the
    sample directory by its subdirectory [sub] (paths are taken to be
    normalised already, so [os.path.normpath] changes nothing). *)
Definition out_name (cfg : config) (f suffix sub : string) : string :=
  let g := if contains "jpg" f then replace ".jpg" suffix f
           else replace ".png" suffix f in
  replace (sample_direc cfg) (sample_direc cfg ++ sep ++ sub) g.

(** [segfile]; the name is unbound when [f] contains neither extension. *)
Definition segfile_of (cfg : config) (f : string) : M string :=
  if (contains "jpg" f || contains "png" f)%bool
  then ret (out_name cfg f "_predseg.png" "masks")
  else raise (NameError "segfile").

(** The choice of the loader by [N_DATA_BANDS]. *)
Definition load (cfg : config) (f : string) : M unit :=
  if (N_DATA_BANDS cfg <=? 3)%Z then seg_file2tensor_3band f
  else seg_file2tensor_4band f (replace "aug_images" "aug_nir" f).

Section Loop.

(** Whether the numeric stage (standardize, the forward passes, the filters)
    raises on the image of a file. *)
Variable numeric_raises : string -> bool.

Definition numeric_stage (f : string) : M unit :=
  if numeric_raises f then raise (RuntimeError f) else ret tt.

(** The body of the loop when [NCLASSES == 1].  Of the messages printed,
    those about skipping, creating and completing a file are recorded. *)
Definition process_binary (cfg : config) (f : string) : M unit :=
  segfile <- segfile_of cfg f ;;
  present <- exists_ segfile ;;
  if present then emit (Printed "exists ... skipping" segfile)
  else
    emit (Printed "does not exist ... creating" segfile) ;;;
    load cfg f ;;;
    numeric_stage f ;;;
    savez_float16 (out_name cfg f "_prob.npz" "probs") ;;;
    imsave (out_name cfg f "_prob.tif" "probs") ;;;
    imsave segfile ;;;
    savez_float16 (out_name cfg f "_conf.npz" "conf_var") ;;;
    savez_float16 (out_name cfg f "_var.npz" "conf_var") ;;;
    imsave (out_name cfg f "_segoverlay.tif" "masked") ;;;
    emit (Printed "done" f).

(** The body of the loop when [NCLASSES > 1]. *)
Definition process_multiclass (cfg : config) (f : string) : M unit :=
  segfile <- segfile_of cfg f ;;
  present <- exists_ segfile ;;
  if present then emit (Printed "exists ... skipping" segfile)
  else
    emit (Printed "does not exist ... creating" segfile) ;;;
    load cfg f ;;;
    numeric_stage f ;;;
    imsave segfile ;;;
    savez_float16 (out_name cfg f "_conf.npz" "conf_var") ;;;
    (if (contains "jpg" f || contains "png" f)%bool
     then imsave (replace (sample_direc cfg)
                          (sample_direc cfg ++ sep ++ "masked")
                          (if contains "jpg" f
                           then replace ".jpg" "_predseg_col.png" f
                           else replace ".png" "_predseg_col.png" f))
     else ret tt) ;;;
    emit (Printed "done" f).

Definition process_file (cfg : config) (f : string) : M unit :=
  if (NCLASSES cfg =? 1)%Z then process_binary cfg f
  else process_multiclass cfg f.

(** [for counter, f in enumerate(sample_filenames): ...]: the bodies run in
    order; nothing in the loop catches an exception of a body. *)
Fixpoint for_each (body : string -> M unit) (files : list string) : M unit :=
  match files with
  | [] => ret tt
  | f :: rest => body f ;;; for_each body rest
  end.

Definition run (cfg : config) (sample_filenames : list string) : M unit :=
  for_each (process_file cfg) sample_filenames.

End Loop.

Close Scope string_scope.

(** ** Auxiliary definitions for the statements below *)

(** The sum of a list of reals. *)
Definition Rsum (l : list R) : R := fold_right Rplus 0 l.


(** A directory of three four-band samples in which the companion
    near-infrared file of the second one is missing. *)
Definition example_config : config :=
  mk_config 1 4 "data/aug_images".

Definition example_files : list string :=
  ["data/aug_images/a.jpg"; "data/aug_images/b.jpg"; "data/aug_images/c.jpg"]%string.

Definition example_world : world :=
  mk_world [("data/aug_images/a.jpg", true); ("data/aug_images/b.jpg", true);
            ("data/aug_images/c.jpg", true); ("data/aug_nir/a.jpg", true);
            ("data/aug_nir/c.jpg", true)]%string
           [].

(** The same directory for a three-band model with four classes. *)
Definition example_multiclass_config : config :=
  mk_config 4 3 "data/aug_images".

(** Stand-ins for the external collaborators, used where a statement is
    instantiated on concrete data: the network is the identity, [resize]
    pads or cuts the data to the requested shape (keeping the axes after the
    second), the Otsu threshold is the constant one half, and the filters
    change nothing. *)
Definition stand_in_resize (a : ndarray) (w h : nat) : ndarray :=
  let sh := w :: h :: skipn 2 (shape a) in
  mk_ndarray sh (firstn (size_of sh) (data a ++ repeat (Fin 0) (size_of sh))).

Definition stand_in : Collaborators := {|
  predict := fun a => a;
  resize := stand_in_resize;
  threshold_otsu := fun _ => Fin 0.5;
  maximum_filter := fun a _ => a;
  remove_small_holes := fun a _ =>
    mk_array (shape a) (map (fun v => negb (Z.eqb v 0)) (data a));
  remove_small_objects := fun a _ => a
|}.

(** * Further functions of the script

    The metrics, the colour lookup, the loader geometry, the network shapes
    and the set-up of the output directories. *)

(** ** Metrics *)

(** [==] on floats: false on NaN. *)
Definition feq (a b : fl) : bool :=
  match a, b with
  | Fin x, Fin y => Reqb x y
  | PInf, PInf | NInf, NInf => true
  | _, _ => false
  end.

(** [.sum()] of a boolean array, [count_nonzero] of a boolean tensor. *)
Definition count_true (l : list bool) : nat := length (filter (fun b => b) l).

(** One turn of the loop of [iou], for class [n]: the overlap and the union
    of the two class masks, their quotient, its addition unless it is NaN,
    and the division of a running value above 1 by [n]. *)
Definition iou_step (obs est : list Z) (IOU : fl) (n : Z) : fl :=
  let component1 := map (fun v => Z.eqb v n) obs in
  let component2 := map (fun v => Z.eqb v n) est in
  let overlap := zip_with andb component1 component2 in
  let union := zip_with orb component1 component2 in
  let calc := fdiv (Fin (INR (count_true overlap))) (Fin (INR (count_true union))) in
  let IOU := if negb (isnan calc) then fadd IOU calc else IOU in
  if fgt IOU (Fin 1) then fdiv IOU (Fin (IZR n)) else IOU.

(** [iou(obs, est, nclasses)] on two label arrays of one shape, flattened:
    the loop runs over the classes [1 .. nclasses]. *)
Definition iou (obs est : list Z) (nclasses : nat) : fl :=
  fold_left (iou_step obs est) (map Z.of_nat (seq 1 nclasses)) (Fin 0).

(** [dice_coef(y_true, y_pred)] on the flattened tensors, with
    [smooth = 1]. *)
Definition dice_coef (y_true_f y_pred_f : list fl) : fl :=
  let smooth := Fin 1 in
  let intersection := np_sum (zip_with fmul y_true_f y_pred_f) in
  fdiv (fadd (fmul (Fin 2) intersection) smooth)
       (fadd (fadd (np_sum y_true_f) (np_sum y_pred_f)) smooth).

(** [mean_iou(y_true, y_pred)] on tensors whose last axis has [N] entries:
    only channel 0 is read, and the prediction is cut at 0.5. *)
Definition mean_iou (N : nat) (y_true y_pred : ndarray) : fl :=
  let yt0 := data (channel N 0 y_true) in
  let yp0 := map (fun p => if fgt p (Fin 0.5) then Fin 1 else Fin 0)
                 (data (channel N 0 y_pred)) in
  let inter :=
    count_true (zip_with andb (map (fun x => feq x (Fin 1)) yt0)
                              (map (fun x => feq x (Fin 1)) yp0)) in
  let union :=
    count_true (map (fun x => negb (feq x (Fin 0))) (zip_with fadd yt0 yp0)) in
  if Nat.eqb union 0 then Fin 1
  else fdiv (Fin (INR inter)) (Fin (INR union)).

(** ** The colour lookup *)

Definition hex_digit (c : ascii) : option Z :=
  let n := Z.of_nat (nat_of_ascii c) in
  if ((48 <=? n) && (n <=? 57))%Z%bool then Some (n - 48)%Z
  else if ((65 <=? n) && (n <=? 70))%Z%bool then Some (n - 55)%Z
  else if ((97 <=? n) && (n <=? 102))%Z%bool then Some (n - 87)%Z
  else None.

Fixpoint hex_value (acc : Z) (s : string) : option Z :=
  match s with
  | EmptyString => Some acc
  | String c s' =>
      match hex_digit c with
      | Some d => hex_value (16 * acc + d) s'
      | None => None
      end
  end.

(** [fromhex(n)], that is [int(n, base=16)], on a string of hexadecimal
    digits.  [None] is the ValueError; it is also returned for the signs,
    blanks and prefixes Python's [int] would accept, which no colour string
    contains. *)
Definition fromhex (n : string) : option Z :=
  match n with
  | EmptyString => None
  | _ => hex_value 0 n
  end.

(** [[h[s : s + 2] for s in range(0, len(h), 2)]] *)
Fixpoint pairs (h : string) : list string :=
  match h with
  | EmptyString => []
  | String a EmptyString => [String a EmptyString]
  | String a (String b r) => String a (String b EmptyString) :: pairs r
  end.

(** One entry of the colormap: the [#] removed, the rest read two characters
    at a time. *)
Definition parse_color (c : string) : option (list Z) :=
  sequence (map fromhex (pairs (replace "#" "" c))).

(** The value assigned to the selected rows of the three-channel image: a
    tuple of three entries as it is, a tuple of one entry on all channels;
    any other length cannot be broadcast. *)
Definition broadcast_rgb (col : list Z) : option (list Z) :=
  match col with
  | [_; _; _] => Some col
  | [a] => Some [a; a; a]
  | _ => None
  end.

Definition int_min (l : list Z) : option Z :=
  match l with
  | [] => None
  | x :: t => Some (fold_left Z.min t x)
  end.

Definition int_max (l : list Z) : option Z :=
  match l with
  | [] => None
  | x :: t => Some (fold_left Z.max t x)
  end.

(** [range(a, b)] *)
Definition py_range (a b : Z) : list Z :=
  map (fun i => (a + Z.of_nat i)%Z) (seq 0 (Z.to_nat (b - a))).

(** One turn of the loop over the classes:
    [cimg[img == c] = colormap[(c + color_class_offset) % len(colormap)]];
    the modulo by an empty colormap raises. *)
Definition color_step (img : list Z) (cmap : list (list Z)) (offset : Z)
  (acc : option (list (list Z))) (c : Z) : option (list (list Z)) :=
  match acc with
  | None => None
  | Some cimg =>
      match cmap with
      | [] => None
      | _ =>
          let k := Z.to_nat ((c + offset) mod Z.of_nat (length cmap)) in
          match broadcast_rgb (nth k cmap []) with
          | Some rgb => Some (fill_where (map (fun v => Z.eqb v c) img) cimg rgb)
          | None => None
          end
      end
  end.

(** [label_to_colors(img, mask, alpha, colormap, color_class_offset,
    do_alpha)] on a flattened label image and a boolean mask of its shape;
    the result lists the channels of each pixel.  [None] stands for any of
    the exceptions: a colour that is not hexadecimal, an empty image, an
    empty colormap, a colour that cannot be broadcast. *)
Definition label_to_colors (img : list Z) (mask : list bool) (alpha : Z)
  (colormap : list string) (color_class_offset : Z) (do_alpha : bool)
  : option (list (list Z)) :=
  match sequence (map parse_color colormap) with
  | None => None
  | Some cmap =>
      match int_min img, int_max img with
      | Some minc, Some maxc =>
          let cimg := map (fun _ => [0; 0; 0]%Z) img in
          match fold_left (color_step img cmap color_class_offset)
                          (py_range minc (maxc + 1)) (Some cimg) with
          | Some cimg =>
              let cimg := fill_where mask cimg [0; 0; 0]%Z in
              Some (if do_alpha then map (fun px => px ++ [alpha]) cimg else cimg)
          | None => None
          end
      | _, _ => None
      end
  end.

(** The palette of the script and the call made in the multiclass path:
    the palette cut to [NCLASSES] entries, no offset, no alpha channel. *)
Definition class_label_colormap : list string :=
  ["#3366CC"; "#DC3912"; "#FF9900"; "#109618"; "#990099"; "#0099C6";
   "#DD4477"; "#66AA00"; "#B82E2E"; "#316395"]%string.

Definition color_label (NCLASSES : nat) (est_label : list Z) (mask : list bool)
  : option (list (list Z)) :=
  label_to_colors est_label mask 128
                  (firstn NCLASSES (firstn NCLASSES class_label_colormap)) 0 false.

(** The colour of class [v]: the entry [(v + offset) mod len] of the parsed
    colormap. *)
Definition class_color (cmap : list (list Z)) (offset v : Z) : list Z :=
  nth (Z.to_nat ((v + offset) mod Z.of_nat (length cmap))) cmap [].

(** The palette as red, green and blue values. *)
Definition palette_rgb : list (list Z) :=
  [[51; 102; 204]; [220; 57; 18]; [255; 153; 0]; [16; 150; 24]; [153; 0; 153];
   [0; 153; 198]; [221; 68; 119]; [102; 170; 0]; [184; 46; 46]; [49; 99; 149]]%Z.

(** ** The output directories *)

(** The [try] block of four [os.mkdir] calls under a bare [except: pass]:
    a call whose path exists raises and ends the block, so the calls after it
    are not made.  A directory is entered on the disk as a path that does not
    decode as an image.  The sample directory itself is taken to exist. *)
Fixpoint mkdirs (paths : list string) (d : list (string * bool))
  : list (string * bool) :=
  match paths with
  | [] => d
  | p :: rest =>
      match lookup p d with
      | Some _ => d
      | None => mkdirs rest ((p, false) :: d)
      end
  end.

Definition make_output_dirs (sample_direc : string) (d : list (string * bool))
  : list (string * bool) :=
  mkdirs [sample_direc ++ sep ++ "masks"; sample_direc ++ sep ++ "masked";
          sample_direc ++ sep ++ "conf_var"; sample_direc ++ sep ++ "probs"]%string
         d.

(** ** The probability map of the binary path *)

(** The ensemble built for an image and its combination: the combined
    probability map and the variance map of the binary path. *)
Definition binary_probability `{Collaborators} (T : Z) (image : ndarray)
  (w h : nat) : option (ndarray * ndarray) :=
  let EW := tta_ensemble T image in
  combine (fst EW) (snd EW) w h.

(** ** The geometry of the loader *)

(** [resize_crit = (w * th) / (h * tw)], for a source image of [w] by [h]
    and the target size [tw] by [th]. *)
Definition resize_crit (w h tw th : Z) : Q :=
  (inject_Z (w * th) / inject_Z (h * tw))%Q.

(** The size handed to [tf.image.resize]: [[w*tw/w, h*tw/w]] when
    [resize_crit < 1], [[w*th/h, h*th/h]] otherwise, the quotients being cut
    to integers when the list is converted to a tensor of sizes. *)
Definition resized_dims (w h tw th : Z) : Z * Z :=
  if Qlt_le_dec (resize_crit w h tw th) 1
  then (py_int (inject_Z (w * tw) / inject_Z w), py_int (inject_Z (h * tw) / inject_Z w))
  else (py_int (inject_Z (w * th) / inject_Z h), py_int (inject_Z (h * th) / inject_Z h)).

(** The checks of [tf.image.crop_to_bounding_box] on an image of [nw] by
    [nh]: offsets that are not negative, a positive target, and a box inside
    the image. *)
Definition crop_box_ok (nw nh off0 off1 tw th : Z) : bool :=
  ((0 <=? off0) && (0 <=? off1) && (0 <? tw) && (0 <? th)
   && (off0 + tw <=? nw) && (off1 + th <=? nh))%Z%bool.

(** The resize and the centred crop of [seg_file2tensor_3band] and
    [seg_file2tensor_4band]: the offsets of the crop and the size of the
    result, or [None] when the crop is refused. *)
Definition loader_geometry (w h tw th : Z) : option ((Z * Z) * (Z * Z)) :=
  let nw := fst (resized_dims w h tw th) in
  let nh := snd (resized_dims w h tw th) in
  let off0 := ((nw - tw) / 2)%Z in
  let off1 := ((nh - th) / 2)%Z in
  if crop_box_ok nw nh off0 off1 tw th then Some ((off0, off1), (tw, th))
  else None.

(** ** The shapes inside the network *)

(** The shape of a feature map: height, width and channels (the batch axis
    is left out).  The layers of [res_unet] are followed on shapes only;
    [None] is the error Keras raises when the inputs of a merge layer do not
    fit. *)
Definition shape3 : Type := (nat * nat * nat)%type.

Definition ceil_div (a s : nat) : nat := ((a + s - 1) / s)%nat.

(** [Conv2D(filters, kernel_size, padding="same", strides=strides)]: each
    spatial side becomes its quotient by the stride, rounded up. *)
Definition conv2d (filters strides : nat) (x : shape3) : shape3 :=
  let '(h, w, _) := x in (ceil_div h strides, ceil_div w strides, filters).

(** [batchnorm_act(x)]: batch normalisation and ReLU keep the shape. *)
Definition batchnorm_act (x : shape3) : shape3 := x.

(** [conv_block(x, filters, strides=strides)] *)
Definition conv_block (x : shape3) (filters strides : nat) : shape3 :=
  let conv := batchnorm_act x in
  conv2d filters strides conv.

(** One axis of an element-wise merge: equal sides, or one of them 1. *)
Definition merge_dim (a b : nat) : option nat :=
  if Nat.eqb a b then Some a
  else if Nat.eqb a 1 then Some b
  else if Nat.eqb b 1 then Some a
  else None.

(** [Add()([a, b])] *)
Definition add_layer (a b : shape3) : option shape3 :=
  let '(h1, w1, c1) := a in
  let '(h2, w2, c2) := b in
  match merge_dim h1 h2, merge_dim w1 w2, merge_dim c1 c2 with
  | Some h, Some w, Some c => Some (h, w, c)
  | _, _, _ => None
  end.

(** [Concatenate()([u, xskip])]: the channels add up, the other axes must
    be equal. *)
Definition concatenate (u xskip : shape3) : option shape3 :=
  let '(h1, w1, c1) := u in
  let '(h2, w2, c2) := xskip in
  if (Nat.eqb h1 h2 && Nat.eqb w1 w2)%bool then Some (h1, w1, (c1 + c2)%nat)
  else None.

(** [bottleneck_block(x, filters, strides=strides)] *)
Definition bottleneck_block (x : shape3) (filters strides : nat) : option shape3 :=
  let conv := conv2d filters strides x in
  let conv := conv_block conv filters strides in
  let bottleneck := conv2d filters strides x in
  let bottleneck := batchnorm_act bottleneck in
  add_layer conv bottleneck.

(** [res_block(x, filters, strides=strides)] *)
Definition res_block (x : shape3) (filters strides : nat) : option shape3 :=
  let res := conv_block x filters strides in
  let res := conv_block res filters 1 in
  let bottleneck := conv2d filters strides x in
  let bottleneck := batchnorm_act bottleneck in
  add_layer bottleneck res.

(** [upsamp_concat_block(x, xskip)]: [UpSampling2D((2, 2))], then the
    concatenation with the skip connection. *)
Definition upsamp_concat_block (x xskip : shape3) : option shape3 :=
  let '(h, w, c) := x in
  let u := ((2 * h)%nat, (2 * w)%nat, c) in
  concatenate u xskip.

Definition and_then {A B : Type} (o : option A) (k : A -> option B) : option B :=
  match o with
  | Some a => k a
  | None => None
  end.

(** [res_unet(sz, f, nclasses)]: the shape of the output of the model; the
    filter count doubles on the way down ([f = int(f*2)]) and halves on the
    way up ([f = int(f/2)]). *)
Definition res_unet (sz : shape3) (f nclasses : nat) : option shape3 :=
  and_then (bottleneck_block sz f 1) (fun e1 =>
  let f := (f * 2)%nat in
  and_then (res_block e1 f 2) (fun e2 =>
  let f := (f * 2)%nat in
  and_then (res_block e2 f 2) (fun e3 =>
  let f := (f * 2)%nat in
  and_then (res_block e3 f 2) (fun e4 =>
  let f := (f * 2)%nat in
  and_then (res_block e4 f 2) (fun x =>
  let b0 := conv_block x f 1 in
  let x := conv_block b0 f 1 in
  and_then (upsamp_concat_block x e4) (fun x =>
  and_then (res_block x f 1) (fun x =>
  let f := (f / 2)%nat in
  and_then (upsamp_concat_block x e3) (fun x =>
  and_then (res_block x f 1) (fun x =>
  let f := (f / 2)%nat in
  and_then (upsamp_concat_block x e2) (fun x =>
  and_then (res_block x f 1) (fun x =>
  let f := (f / 2)%nat in
  and_then (upsamp_concat_block x e1) (fun x =>
  and_then (res_block x f 1) (fun x =>
  Some (conv2d nclasses 1 x)))))))))))))).

(** * The dataset script: the encoding of the label images *)

(** What the label code of the augmentation loop can raise. *)
Inductive py_error : Type := IndexError | ValueError.

Inductive result (A : Type) : Type :=
| Value (a : A)
| Raises (e : py_error).

Arguments Value {A} _.
Arguments Raises {A} _.

(** The value of an unsigned 8-bit element after an arithmetic step. *)
Definition u8 (z : Z) : Z := (z mod 256)%Z.

(** [np.min(l)] and [l.max()]: an empty array raises. *)
Definition min_label (l : list Z) : result Z :=
  match l with
  | [] => Raises ValueError
  | v :: r => Value (fold_left Z.min r v)
  end.

Definition max_label (l : list Z) : result Z :=
  match l with
  | [] => Raises ValueError
  | v :: r => Value (fold_left Z.max r v)
  end.

(** [np.unique(l)]: the values of [l] in rising order, each once. *)
Fixpoint insert_unique (v : Z) (s : list Z) : list Z :=
  match s with
  | [] => [v]
  | x :: r =>
      if (v <? x)%Z then v :: s
      else if (v =? x)%Z then s
      else x :: insert_unique v r
  end.

Definition np_unique (l : list Z) : list Z := fold_right insert_unique [] l.

(** [l[p(l)] = c] *)
Definition assign_where (p : Z -> bool) (c : Z) (l : list Z) : list Z :=
  map (fun v => if p v then c else v) l.

(** [for k in REMAP_CLASSES.items(): l[l==int(k[0])] = int(k[1])], the items
    in the order of the dictionary.  The image holds unsigned 8-bit values:
    the labels and the values written are taken between 0 and 255, as the
    statements about the remapping require; a key outside that range matches
    no pixel. *)
Definition remap_classes (items : list (Z * Z)) (l : list Z) : list Z :=
  fold_left (fun l k => assign_where (fun v => (v =? fst k)%Z) (snd k) l) items l.

(** The label image [l] (8-bit, after rounding and the optional median
    filter) up to [l[l>NCLASSES]=NCLASSES].  [REMAP_CLASSES] is [None] when
    the configuration does not define it. *)
Definition prepare_labels (REMAP_CLASSES : option (list (Z * Z))) (NCLASSES : Z)
  (l : list Z) : result (list Z) :=
  match REMAP_CLASSES with
  | None =>
      match min_label l with
      | Raises e => Raises e
      | Value m =>
          let l := if (m =? 1)%Z then map (fun v => u8 (v - 1)) l else l in
          let l := if (NCLASSES =? 1)%Z
                   then assign_where (fun v => (0 <? v)%Z) 1 l else l in
          Value (assign_where (fun v => (NCLASSES <? v)%Z) NCLASSES l)
      end
  | Some items =>
      let l := remap_classes items l in
      Value (assign_where (fun v => (NCLASSES <? v)%Z) NCLASSES l)
  end.

(** [(np.arange(n) == x).astype(int)] for one pixel. *)
Definition arange_eq (n : nat) (x : Z) : list Z :=
  map (fun c => if (Z.of_nat c =? x)%Z then 1%Z else 0%Z) (seq 0 n).

(** [row[c] = 1] *)
Definition set_channel (c : nat) (row : list Z) : list Z :=
  firstn c row ++ 1%Z :: skipn (S c) row.

(** The one-hot stack of the branch for at most three bands, one row of
    [NCLASSES] channels per pixel.  An image with a single label value [v]
    gets [lstack[:,:,v] = ones], an index error when [v] is no channel; any
    other image is compared with [np.arange(NCLASSES)]. *)
Definition encode_3band (NCLASSES : Z) (l : list Z) : result (list (list Z)) :=
  match np_unique l with
  | [v] =>
      if (v <? NCLASSES)%Z
      then Value (map (fun _ => set_channel (Z.to_nat v)
                                  (repeat 0%Z (Z.to_nat NCLASSES))) l)
      else Raises IndexError
  | _ =>
      Value (map (fun v => arange_eq (Z.to_nat NCLASSES) (u8 (u8 (1 + v) - 1))) l)
  end.

(** The stack of the four-band branch:
    [(np.arange(l.max()) == l[...,None]-1)], and one more channel of zeros
    when the number of channels is not [NCLASSES]. *)
Definition encode_4band (NCLASSES : Z) (l : list Z) : result (list (list Z)) :=
  match max_label l with
  | Raises e => Raises e
  | Value M =>
      let lstack := map (fun v => arange_eq (Z.to_nat M) (u8 (v - 1))) l in
      Value (if negb (M =? NCLASSES)%Z
             then map (fun row => row ++ [0%Z]) lstack
             else lstack)
  end.

(** The label array saved for one augmented image, in the branch
    [N_DATA_BANDS<=3] and in the branch [N_DATA_BANDS==4]. *)
Definition label_stack_3band (REMAP_CLASSES : option (list (Z * Z)))
  (NCLASSES : Z) (l : list Z) : result (list (list Z)) :=
  match prepare_labels REMAP_CLASSES NCLASSES l with
  | Raises e => Raises e
  | Value p => encode_3band NCLASSES p
  end.

Definition label_stack_4band (REMAP_CLASSES : option (list (Z * Z)))
  (NCLASSES : Z) (l : list Z) : result (list (list Z)) :=
  match prepare_labels REMAP_CLASSES NCLASSES l with
  | Raises e => Raises e
  | Value p => encode_4band NCLASSES p
  end.

(** [np.argmax(lab, -1)] for one pixel of the saved stack: the first channel
    holding the largest value. *)
Fixpoint first_max_from (best_i : nat) (best : Z) (i : nat) (row : list Z) : nat :=
  match row with
  | [] => best_i
  | x :: r =>
      if (best <? x)%Z then first_max_from i x (S i) r
      else first_max_from best_i best (S i) r
  end.

Definition argmax_row (row : list Z) : nat :=
  match row with
  | [] => 0%nat
  | x :: r => first_max_from 0 x 1 r
  end.

(** No item of the remapping writes a value that a later item reads. *)
Fixpoint no_chain (items : list (Z * Z)) : bool :=
  match items with
  | [] => true
  | k :: rest =>
      (forallb (fun k' => negb (snd k =? fst k')%Z) rest && no_chain rest)%bool
  end.

(** * The dataset script: the folders *)

(** The folders that exist below the selected directories, and the files as
    pairs of a directory and a file name. *)
Record tree : Type := mk_tree {
  folders : list string;
  entries : list (string * string)
}.

Definition ends_with (ext name : string) : bool :=
  String.eqb (substring (String.length name - String.length ext)
                        (String.length ext) name) ext.

(** A file name matched by the pattern [*] followed by [ext]: the star does
    not match a leading dot. *)
Definition star_match (ext name : string) : bool :=
  (negb (prefix "." name) && ends_with ext name)%bool.

Definition matches (d ext : string) (f : string * string) : bool :=
  (String.eqb (fst f) d && star_match ext (snd f))%bool.

(** [glob(d+os.sep+'*'+ext)] *)
Definition glob (d ext : string) (t : tree) : list (string * string) :=
  filter (matches d ext) (entries t).

Definition path_exists (path : string) (t : tree) : bool :=
  (existsb (String.eqb path) (folders t)
   || existsb (fun f => String.eqb path (fst f ++ sep ++ snd f)) (entries t))%bool.

(** [try: os.mkdir(path)] with [except: imdir2 = True]: whether the call
    raised, and the tree afterwards.  The call raises when the path exists. *)
Definition try_mkdir (path : string) (t : tree) : bool * tree :=
  if path_exists path t then (true, t)
  else (false, mk_tree (path :: folders t) (entries t)).

Definition entry_eqb (f g : string * string) : bool :=
  (String.eqb (fst f) (fst g) && String.eqb (snd f) (snd g))%bool.

(** [for file in batch: shutil.move(file, dst)], into a folder made by the
    call just before, which holds no file yet. *)
Definition move_files (batch : list (string * string)) (dst : string) (t : tree)
  : tree :=
  mk_tree (folders t)
          (map (fun f => if existsb (entry_eqb f) batch then (dst, snd f) else f)
               (entries t)).

(** The block of the images: the count [n_im], the flag [imdir2] and the
    tree afterwards. *)
Definition organise_images (imdir : string) (t : tree) : (nat * bool) * tree :=
  let n_im := length (glob imdir ".png" t) in
  let r := try_mkdir (imdir ++ sep ++ "images") t in
  let imdir2 := fst r in
  let t := snd r in
  if (n_im =? 0)%nat then
    if imdir2
    then ((length (glob (imdir ++ sep ++ "images") ".jpg" t), imdir2), t)
    else ((length (glob imdir ".jpg" t), imdir2),
          move_files (glob imdir ".jpg" t) (imdir ++ sep ++ "images") t)
  else
    if imdir2 then ((n_im, imdir2), t)
    else ((n_im, imdir2),
          move_files (glob imdir ".png" t) (imdir ++ sep ++ "images") t).

(** The block of the labels and the block of the fourth band: the flag is
    the one the blocks before have left, and is never set back. *)
Definition organise_folder (d name : string) (imdir2 : bool) (t : tree)
  : bool * tree :=
  let r := try_mkdir (d ++ sep ++ name) t in
  let imdir2 := (imdir2 || fst r)%bool in
  let t := snd r in
  if imdir2 then (imdir2, t)
  else
    let t := move_files (glob d ".png" t) (d ++ sep ++ name) t in
    let t := move_files (glob d ".jpg" t) (d ++ sep ++ name) t in
    (imdir2, t).

(** Lines 152 to 229: the count of the images and the tree afterwards. *)
Definition organise (imdir lab_path nimdir : string) (USEMASK : bool)
  (N_DATA_BANDS : Z) (t : tree) : nat * tree :=
  let r := organise_images imdir t in
  let n_im := fst (fst r) in
  let r := organise_folder lab_path (if USEMASK then "masks" else "labels")
                           (snd (fst r)) (snd r) in
  let t := if (N_DATA_BANDS =? 4)%Z
           then snd (organise_folder nimdir "nir" (fst r) (snd r))
           else snd r in
  (n_im, t).

(** What a first run over png images leaves: no png file directly in the
    image directory and no jpg file in its folder images. *)
Definition counted_nowhere (imdir : string) (t : tree) : Prop :=
  forall f, In f (entries t) ->
    matches imdir ".png" f = false
    /\ matches (imdir ++ sep ++ "images") ".jpg" f = false.

(** Two image files and a label file, before any run, and a tree in which
    the folder images exists. *)
Definition fresh_tree : tree :=
  mk_tree [] [("/d/im"%string, "a.png"%string); ("/d/im"%string, "b.png"%string);
              ("/d/lab"%string, "a.png"%string)].

Definition used_tree : tree :=
  mk_tree ["/d/im/images"%string]
          [("/d/im/images"%string, "a.png"%string); ("/d/lab"%string, "a.png"%string)].

(** * Properties *)

(** ** The definitions on small inputs *)

(** [np.roll([0,1,2,3,4], 2)] is [[3,4,0,1,2]], and a negative shift goes
    the other way. *)
Example roll_forward : roll [0; 1; 2; 3; 4]%nat 2 = [3; 4; 0; 1; 2]%nat.
Proof. reflexivity. Qed.

Example roll_backward : roll [0; 1; 2; 3; 4]%nat (-2) = [2; 3; 4; 0; 1]%nat.
Proof. reflexivity. Qed.

Example roll_wraps : roll [0; 1; 2; 3; 4]%nat 7 = [3; 4; 0; 1; 2]%nat.
Proof. reflexivity. Qed.

(** [np.linspace(100, 190, 10)] steps by ten. *)
Example linspace_100_190 :
  linspace 100 190 10 = [100; 110; 120; 130; 140; 150; 160; 170; 180; 190]%Q.
Proof. vm_compute. reflexivity. Qed.

(** [int] truncates toward zero. *)
Example py_int_truncates : py_int (1568 # 9) = 174%Z /\ py_int (- (7 # 2)) = (-3)%Z.
Proof. split; reflexivity. Qed.

(** A 2-D array stacked three times along a new last axis. *)
Example dstack3_2d :
  dstack3 (mk_ndarray [1; 2]%nat [Fin 1; Fin 2])
  = mk_ndarray [1; 2; 3]%nat [Fin 1; Fin 1; Fin 1; Fin 2; Fin 2; Fin 2].
Proof. reflexivity. Qed.

(** The names of the output files of a sample. *)
Example out_names :
  out_name example_config "data/aug_images/a.jpg" "_predseg.png" "masks"
  = "data/aug_images/masks/a_predseg.png"%string
  /\ out_name example_config "data/aug_images/a.jpg" "_var.npz" "conf_var"
     = "data/aug_images/conf_var/a_var.npz"%string
  /\ replace "aug_images" "aug_nir" "data/aug_images/a.jpg"
     = "data/aug_nir/a.jpg"%string
  /\ contains "jpg" "data/aug_images/a.jpg" = true
  /\ contains "png" "data/aug_images/a.jpg" = false.
Proof. repeat split; reflexivity. Qed.

(** Boolean-mask assignment. *)
Example put_where_example :
  put_where [true; false; true] [1; 2; 3]%nat (take_where [true; false; true] [7; 8; 9]%nat)
  = [7; 2; 9]%nat.
Proof. reflexivity. Qed.

(** [np.argmax] returns the first maximum, and the first NaN if there is
    one. *)
Example argmax_nan : np_argmax [NInf; NaN; PInf] = Some 1%nat.
Proof. reflexivity. Qed.

(** ** Real comparisons *)

Lemma Rltb_true (a b : R) : a < b -> Rltb a b = true.
Proof. intro H. unfold Rltb. destruct (Rlt_dec a b); [reflexivity | contradiction]. Qed.

Lemma Rltb_false (a b : R) : b <= a -> Rltb a b = false.
Proof. intro H. unfold Rltb. destruct (Rlt_dec a b); [lra | reflexivity]. Qed.

Lemma Rltb_spec (a b : R) : Rltb a b = true <-> a < b.
Proof.
  unfold Rltb. destruct (Rlt_dec a b); split; intro; try assumption;
    try reflexivity; try discriminate; contradiction.
Qed.

Lemma Reqb_true (a b : R) : a = b -> Reqb a b = true.
Proof. intro H. unfold Reqb. destruct (Req_dec_T a b); [reflexivity | contradiction]. Qed.

Lemma Reqb_false (a b : R) : a <> b -> Reqb a b = false.
Proof. intro H. unfold Reqb. destruct (Req_dec_T a b); [contradiction | reflexivity]. Qed.

Lemma Fin_eq (a b : R) : a = b -> Fin a = Fin b.
Proof. intro H. now rewrite H. Qed.

(** Decide the real comparisons met in a goal from the hypotheses. *)
Ltac rcmp :=
  repeat match goal with
  | |- context [Rltb ?a ?b] =>
      first [ rewrite (Rltb_true a b) by lra | rewrite (Rltb_false a b) by lra ]
  | |- context [Reqb ?a ?b] =>
      first [ rewrite (Reqb_true a b) by lra | rewrite (Reqb_false a b) by lra ]
  end.

(** ** Sums and means of constant arrays *)

Lemma fold_fadd_repeat (c a : R) (n : nat) :
  fold_left fadd (repeat (Fin c) n) (Fin a) = Fin (a + INR n * c).
Proof.
  revert a. induction n as [|n IH]; intro a.
  - simpl. apply Fin_eq. lra.
  - cbn [repeat fold_left fadd]. rewrite IH. apply Fin_eq.
    rewrite S_INR. lra.
Qed.

Lemma INR_pos_neq (n : nat) : (0 < n)%nat -> INR n <> 0.
Proof. intro H. apply not_0_INR. lia. Qed.

Lemma np_mean_repeat (c : R) (n : nat) :
  (0 < n)%nat -> np_mean (repeat (Fin c) n) = Fin c.
Proof.
  intro Hn. unfold np_mean, np_sum. rewrite fold_fadd_repeat, repeat_length.
  pose proof (INR_pos_neq n Hn) as Hne.
  unfold fdiv. rewrite (Reqb_false _ _ Hne). apply Fin_eq. field. exact Hne.
Qed.

Lemma np_std_repeat (c : R) (n : nat) :
  (0 < n)%nat -> np_std (repeat (Fin c) n) = Fin 0.
Proof.
  intro Hn. unfold np_std. rewrite (np_mean_repeat c n Hn), map_repeat.
  cbn [fsub fneg fadd np_abs fmul].
  rewrite (np_mean_repeat _ n Hn). unfold np_sqrt.
  replace (c + - c) with 0 by lra. rewrite Rabs_R0, Rmult_0_l.
  rcmp. apply Fin_eq. apply sqrt_0.
Qed.

(** The guard [1/sqrt(N)] is a positive finite number. *)
Lemma inv_sqrt_guard (N : nat) :
  (0 < N)%nat ->
  fdiv (Fin 1) (np_sqrt (Fin (INR N))) = Fin (1 / sqrt (INR N))
  /\ 0 < 1 / sqrt (INR N).
Proof.
  intro HN. assert (HR : 0 < INR N) by (apply lt_0_INR; lia).
  pose proof (sqrt_lt_R0 _ HR) as Hs.
  unfold np_sqrt. rcmp. unfold fdiv. rcmp. split; [reflexivity|].
  apply Rdiv_lt_0_compat; lra.
Qed.

(** ** Builtin min and max of a constant sequence *)

Lemma fold_min_repeat (c : R) (n : nat) :
  fold_left (fun cur y => if flt y cur then y else cur) (repeat (Fin c) n) (Fin c)
  = Fin c.
Proof.
  induction n as [|n IH]; [reflexivity|].
  cbn [repeat fold_left flt]. rcmp. exact IH.
Qed.

Lemma fold_max_repeat (c : R) (n : nat) :
  fold_left (fun cur y => if fgt y cur then y else cur) (repeat (Fin c) n) (Fin c)
  = Fin c.
Proof.
  induction n as [|n IH]; [reflexivity|].
  cbn [repeat fold_left fgt flt]. rcmp. exact IH.
Qed.

Lemma py_min_repeat (c : R) (n : nat) :
  (0 < n)%nat -> py_min (repeat (Fin c) n) = Some (Fin c).
Proof.
  destruct n as [|n]; [lia|]. intros _. cbn [repeat py_min].
  now rewrite fold_min_repeat.
Qed.

Lemma py_max_repeat (c : R) (n : nat) :
  (0 < n)%nat -> py_max (repeat (Fin c) n) = Some (Fin c).
Proof.
  destruct n as [|n]; [lia|]. intros _. cbn [repeat py_max].
  now rewrite fold_max_repeat.
Qed.

(** [rescale] of a constant array divides [0] by [0] at every element. *)
Lemma rescale_repeat (c : R) (n : nat) :
  (0 < n)%nat ->
  rescale (repeat (Fin c) n) (Fin 0) (Fin 1) = Some (repeat NaN n).
Proof.
  intro Hn. unfold rescale.
  rewrite (py_min_repeat c n Hn), (py_max_repeat c n Hn), map_repeat.
  cbn [fsub fneg fadd fmul]. unfold fdiv. rcmp. reflexivity.
Qed.

Lemma constant_list (c : R) (l : list fl) :
  (forall x, In x l -> x = Fin c) -> l = repeat (Fin c) (length l).
Proof.
  induction l as [|x l IH]; intro H; [reflexivity|].
  cbn [length repeat]. rewrite (H x (or_introl eq_refl)). f_equal.
  apply IH. intros y Hy. apply H. now right.
Qed.

(** The normalisation of a constant image is identically zero. *)
Lemma zscore_constant (c : R) (d0 d1 n : nat) :
  (0 < n)%nat -> (0 < d0 * d1)%nat ->
  zscore d0 d1 (repeat (Fin c) n) = repeat (Fin 0) n.
Proof.
  intros Hn HN. unfold zscore.
  rewrite (np_std_repeat c n Hn), (np_mean_repeat c n Hn).
  destruct (inv_sqrt_guard _ HN) as [Hg Hpos]. rewrite Hg.
  cbn [np_maximum flt]. rcmp.
  rewrite map_repeat. cbn [fsub fneg fadd]. unfold fdiv. rcmp.
  f_equal. apply Fin_eq. unfold Rdiv. replace (c + - c) with 0 by lra.
  apply Rmult_0_l.
Qed.

Lemma constant_dims (img : ndarray) (d0 d1 : nat) (rest : list nat) :
  shape img = d0 :: d1 :: rest -> well_shaped img -> data img <> [] ->
  (0 < length (data img))%nat /\ (0 < d0 * d1)%nat /\ (0 < size_of rest)%nat.
Proof.
  intros Hsh Hws Hne.
  assert (Hn : (0 < length (data img))%nat).
  { destruct (data img); [congruence | simpl; lia]. }
  unfold well_shaped in Hws. rewrite Hsh in Hws. cbn [size_of fold_right] in Hws.
  fold (size_of rest) in Hws.
  split; [exact Hn|]. destruct d0; [lia|]. destruct d1; [lia|].
  destruct (size_of rest); [lia|]. lia.
Qed.

(** The array handed to the final [dstack] step when the image is constant. *)
Lemma standardize_constant_pre (img : ndarray) (c : R) (d0 d1 : nat) (rest : list nat) :
  shape img = d0 :: d1 :: rest ->
  well_shaped img ->
  data img <> [] ->
  (forall x, In x (data img) -> x = Fin c) ->
  standardize img =
    let out := mk_ndarray (shape img) (repeat NaN (length (data img))) in
    Some (if Nat.eqb (ndim out) 3 then out else dstack3 out).
Proof.
  intros Hsh Hws Hne Hc.
  destruct (constant_dims img d0 d1 rest Hsh Hws Hne) as (Hn & HN & _).
  unfold standardize. rewrite Hsh.
  rewrite (constant_list c _ Hc) at 1.
  rewrite (zscore_constant c d0 d1 _ Hn HN).
  rewrite (rescale_repeat 0 _ Hn). reflexivity.
Qed.

(** ** Chunks and the three-fold stack *)

Lemma chunks_fuel_concat {A : Type} (n : nat) :
  (0 < n)%nat ->
  forall (fuel : nat) (l : list A),
    (length l <= fuel)%nat -> concat (chunks_fuel fuel n l) = l.
Proof.
  intros Hn fuel. induction fuel as [|f IH]; intros l Hl.
  - destruct l; [reflexivity | simpl in Hl; lia].
  - destruct l as [|x l]; [reflexivity|].
    cbn [chunks_fuel concat]. rewrite IH.
    + apply firstn_skipn.
    + rewrite length_skipn. simpl length in *. lia.
Qed.

Lemma chunks_concat {A : Type} (n : nat) (l : list A) :
  (0 < n)%nat -> concat (chunks n l) = l.
Proof. intro Hn. unfold chunks. now apply chunks_fuel_concat. Qed.

Lemma triple_In {A : Type} (y : A) (L : list (list A)) :
  In y (flat_map (fun b => b ++ b ++ b) L) <-> In y (concat L).
Proof.
  induction L as [|b L IH]; [reflexivity|].
  cbn [flat_map concat]. rewrite !in_app_iff, IH. tauto.
Qed.

Lemma triple_length {A : Type} (L : list (list A)) :
  length (flat_map (fun b => b ++ b ++ b) L) = (3 * length (concat L))%nat.
Proof.
  induction L as [|b L IH]; [reflexivity|].
  cbn [flat_map concat]. rewrite !length_app, IH. lia.
Qed.

Lemma dstack3_In (a : ndarray) (d0 d1 : nat) (rest : list nat) (y : fl) :
  shape a = d0 :: d1 :: rest -> (0 < size_of rest)%nat ->
  In y (data (dstack3 a)) <-> In y (data a).
Proof.
  intros Hsh Hblk. unfold dstack3. rewrite Hsh. cbn [data mk_ndarray].
  now rewrite triple_In, chunks_concat.
Qed.

Lemma dstack3_length (a : ndarray) (d0 d1 : nat) (rest : list nat) :
  shape a = d0 :: d1 :: rest -> (0 < size_of rest)%nat ->
  length (data (dstack3 a)) = (3 * length (data a))%nat.
Proof.
  intros Hsh Hblk. unfold dstack3. rewrite Hsh. cbn [data mk_ndarray].
  now rewrite triple_length, chunks_concat.
Qed.

Lemma dstack3_shape_2d (a : ndarray) (d0 d1 : nat) :
  shape a = [d0; d1] -> shape (dstack3 a) = [d0; d1; 3%nat].
Proof. intro Hsh. unfold dstack3. now rewrite Hsh. Qed.

Lemma nan_not_in_unit : ~ in_unit NaN.
Proof. intros [r [H _]]. discriminate H. Qed.

(** ** Constant images *)

(** C10.  A constant image (every pixel the same finite value, for instance
    all zeros) does not come out of [standardize] with values in [0,1]: the
    guarded mean/std normalisation yields the identically zero array, the
    builtin [max] and [min] of that array coincide, so [rescale] divides by
    [M - m = 0], and every pixel of the result is NaN. *)
Theorem standardize_constant_all_nan (img : ndarray) (c : R) :
  well_shaped img ->
  (2 <= ndim img)%nat ->
  data img <> [] ->
  (forall x, In x (data img) -> x = Fin c) ->
  exists (d0 d1 : nat) (rest : list nat) (out : ndarray),
    shape img = d0 :: d1 :: rest
    /\ zscore d0 d1 (data img) = repeat (Fin 0) (length (data img))
    /\ py_max (zscore d0 d1 (data img)) = py_min (zscore d0 d1 (data img))
    /\ standardize img = Some out
    /\ data out <> []
    /\ (forall y, In y (data out) -> y = NaN /\ ~ in_unit y).
Proof.
  intros Hws Hnd Hne Hc.
  destruct (shape img) as [|d0 [|d1 rest]] eqn:Hsh;
    try (unfold ndim in Hnd; rewrite Hsh in Hnd; simpl in Hnd; lia).
  destruct (constant_dims img d0 d1 rest Hsh Hws Hne) as (Hn & HN & Hblk).
  pose proof (standardize_constant_pre img c d0 d1 rest Hsh Hws Hne Hc) as Hst.
  cbv zeta in Hst.
  assert (Hz : zscore d0 d1 (data img) = repeat (Fin 0) (length (data img))).
  { rewrite (constant_list c _ Hc) at 1. now apply zscore_constant. }
  set (pre := mk_ndarray (shape img) (repeat NaN (length (data img)))) in *.
  assert (Hpre : forall y, In y (data pre) -> y = NaN).
  { intros y Hy. unfold pre in Hy. cbn [data mk_ndarray] in Hy.
    now apply repeat_spec in Hy. }
  assert (Hlen : length (data pre) = length (data img)).
  { unfold pre. cbn [data mk_ndarray]. apply repeat_length. }
  assert (Hpsh : shape pre = d0 :: d1 :: rest).
  { unfold pre. cbn [shape mk_ndarray]. exact Hsh. }
  exists d0, d1, rest.
  exists (if Nat.eqb (ndim pre) 3 then pre else dstack3 pre).
  split; [reflexivity|]. split; [exact Hz|]. split.
  { rewrite Hz. now rewrite py_max_repeat, py_min_repeat. }
  split; [exact Hst|].
  destruct (Nat.eqb (ndim pre) 3).
  - split.
    + intro He. rewrite He in Hlen. cbn [length] in Hlen. lia.
    + intros y Hy. rewrite (Hpre y Hy). split; [reflexivity | apply nan_not_in_unit].
  - split.
    + intro He. pose proof (dstack3_length pre d0 d1 rest Hpsh Hblk) as HL.
      rewrite Hlen, He in HL. cbn [length] in HL. lia.
    + intros y Hy. apply (dstack3_In pre d0 d1 rest y Hpsh Hblk) in Hy.
      rewrite (Hpre y Hy). split; [reflexivity | apply nan_not_in_unit].
Qed.

Lemma standardize_constant_witness :
  exists (d0 d1 : nat) (rest : list nat) (out : ndarray),
    shape (mk_ndarray [2; 2]%nat (repeat (Fin 0) 4)) = d0 :: d1 :: rest
    /\ zscore d0 d1 (repeat (Fin 0) 4) = repeat (Fin 0) 4
    /\ py_max (zscore d0 d1 (repeat (Fin 0) 4))
       = py_min (zscore d0 d1 (repeat (Fin 0) 4))
    /\ standardize (mk_ndarray [2; 2]%nat (repeat (Fin 0) 4)) = Some out
    /\ data out <> []
    /\ (forall y, In y (data out) -> y = NaN /\ ~ in_unit y).
Proof.
  apply (standardize_constant_all_nan (mk_ndarray [2; 2]%nat (repeat (Fin 0) 4)) 0).
  - reflexivity.
  - unfold ndim. simpl. lia.
  - discriminate.
  - intros x Hx. simpl in Hx. intuition (subst; reflexivity).
Defined.

(** ** Finite arrays *)

Lemma fold_fadd_finite (l : list R) (a : R) :
  fold_left fadd (map Fin l) (Fin a) = Fin (a + Rsum l).
Proof.
  revert a. induction l as [|x l IH]; intro a; cbn [map fold_left Rsum fold_right fadd].
  - apply Fin_eq. lra.
  - rewrite IH. apply Fin_eq. unfold Rsum. lra.
Qed.

Lemma np_mean_finite (l : list R) :
  l <> [] -> np_mean (map Fin l) = Fin (Rsum l / INR (length l)).
Proof.
  intro Hne. unfold np_mean, np_sum. rewrite fold_fadd_finite, length_map.
  assert (Hn : INR (length l) <> 0).
  { apply INR_pos_neq. destruct l; [congruence | simpl; lia]. }
  unfold fdiv. rewrite (Reqb_false _ _ Hn). apply Fin_eq. lra.
Qed.

Lemma Rsum_nonneg (l : list R) : (forall x, In x l -> 0 <= x) -> 0 <= Rsum l.
Proof.
  induction l as [|x l IH]; intro H; cbn [Rsum fold_right]; [lra|].
  assert (0 <= x) by (apply H; now left).
  assert (0 <= Rsum l) by (apply IH; intros y Hy; apply H; now right).
  unfold Rsum in *. lra.
Qed.

(** The standard deviation of a finite array is a non-negative number. *)
Lemma np_std_finite (l : list R) :
  l <> [] -> exists sd, np_std (map Fin l) = Fin sd /\ 0 <= sd.
Proof.
  intro Hne. unfold np_std. rewrite (np_mean_finite l Hne), map_map.
  set (m := Rsum l / INR (length l)).
  cbn [fsub fneg fadd np_abs fmul].
  rewrite <- (map_map (fun x => Rabs (x + - m) * Rabs (x + - m)) Fin).
  assert (Hne' : map (fun x => Rabs (x + - m) * Rabs (x + - m)) l <> []).
  { destruct l; [congruence | discriminate]. }
  rewrite (np_mean_finite _ Hne'). rewrite length_map.
  set (v := Rsum _ / _).
  assert (Hv : 0 <= v).
  { unfold v. apply Rmult_le_pos.
    - apply Rsum_nonneg. intros x Hx. apply in_map_iff in Hx.
      destruct Hx as [y [<- _]]. apply Rmult_le_pos; apply Rabs_pos.
    - left. apply Rinv_0_lt_compat. apply lt_0_INR.
      destruct l; [congruence | simpl; lia]. }
  exists (sqrt v). unfold np_sqrt. rcmp. split; [reflexivity | apply sqrt_pos].
Qed.

(** On a finite image the divisor [s] is a positive number and the
    normalisation is the affine map [(x - m) / s]. *)
Lemma zscore_finite (d0 d1 : nat) (l : list R) :
  l <> [] -> (0 < d0 * d1)%nat ->
  exists m s, 0 < s /\ zscore d0 d1 (map Fin l) = map (fun x => Fin ((x + - m) / s)) l.
Proof.
  intros Hne HN. unfold zscore.
  destruct (np_std_finite l Hne) as (sd & Hsd & Hsd0).
  destruct (inv_sqrt_guard _ HN) as [Hg Hpos].
  rewrite Hsd, Hg, (np_mean_finite l Hne).
  set (g := 1 / sqrt (INR (d0 * d1))) in *.
  set (m := Rsum l / INR (length l)).
  exists m. cbn [np_maximum flt].
  destruct (Rlt_dec sd g) as [Hlt|Hge].
  - exists g. rewrite (Rltb_true _ _ Hlt). split; [exact Hpos|].
    rewrite map_map. apply map_ext. intro x. cbn [fsub fneg fadd]. unfold fdiv. now rcmp.
  - exists sd. assert (Hs : 0 < sd) by lra.
    rewrite (Rltb_false sd g) by lra. split; [exact Hs|].
    rewrite map_map. apply map_ext. intro x. cbn [fsub fneg fadd]. unfold fdiv. now rcmp.
Qed.

(** Builtin [min] and [max] of finite sequences. *)
Lemma fold_min_finite (l : list R) (a : R) :
  exists m,
    fold_left (fun cur y => if flt y cur then y else cur) (map Fin l) (Fin a) = Fin m
    /\ (m = a \/ In m l) /\ m <= a /\ (forall x, In x l -> m <= x).
Proof.
  revert a. induction l as [|x l IH]; intro a; cbn [map fold_left].
  - exists a. repeat split; [now left | lra | intros ? []].
  - cbn [flt]. destruct (Rlt_dec x a) as [Hlt|Hge].
    + rewrite (Rltb_true _ _ Hlt). destruct (IH x) as (m & E & Hin & Hle & Hall).
      exists m. repeat split; [exact E | | lra |].
      * right. destruct Hin as [->|Hin]; [now left | now right].
      * intros y [<-|Hy]; [exact Hle | now apply Hall].
    + rewrite (Rltb_false x a) by lra. destruct (IH a) as (m & E & Hin & Hle & Hall).
      exists m. repeat split; [exact E | | exact Hle |].
      * destruct Hin as [->|Hin]; [now left | right; now right].
      * intros y [<-|Hy]; [lra | now apply Hall].
Qed.

Lemma fold_max_finite (l : list R) (a : R) :
  exists m,
    fold_left (fun cur y => if fgt y cur then y else cur) (map Fin l) (Fin a) = Fin m
    /\ (m = a \/ In m l) /\ a <= m /\ (forall x, In x l -> x <= m).
Proof.
  revert a. induction l as [|x l IH]; intro a; cbn [map fold_left].
  - exists a. repeat split; [now left | lra | intros ? []].
  - cbn [fgt flt]. destruct (Rlt_dec a x) as [Hlt|Hge].
    + rewrite (Rltb_true _ _ Hlt). destruct (IH x) as (m & E & Hin & Hle & Hall).
      exists m. repeat split; [exact E | | lra |].
      * right. destruct Hin as [->|Hin]; [now left | now right].
      * intros y [<-|Hy]; [exact Hle | now apply Hall].
    + rewrite (Rltb_false a x) by lra. destruct (IH a) as (m & E & Hin & Hle & Hall).
      exists m. repeat split; [exact E | | exact Hle |].
      * destruct Hin as [->|Hin]; [now left | right; now right].
      * intros y [<-|Hy]; [lra | now apply Hall].
Qed.

Lemma py_min_finite (l : list R) :
  l <> [] ->
  exists m, py_min (map Fin l) = Some (Fin m) /\ In m l /\ (forall x, In x l -> m <= x).
Proof.
  destruct l as [|a l]; [congruence|]. intros _. cbn [map py_min].
  destruct (fold_min_finite l a) as (m & E & Hin & Hle & Hall).
  exists m. rewrite E. repeat split.
  - destruct Hin as [->|Hin]; [now left | now right].
  - intros x [<-|Hx]; [exact Hle | now apply Hall].
Qed.

Lemma py_max_finite (l : list R) :
  l <> [] ->
  exists m, py_max (map Fin l) = Some (Fin m) /\ In m l /\ (forall x, In x l -> x <= m).
Proof.
  destruct l as [|a l]; [congruence|]. intros _. cbn [map py_max].
  destruct (fold_max_finite l a) as (m & E & Hin & Hle & Hall).
  exists m. rewrite E. repeat split.
  - destruct Hin as [->|Hin]; [now left | now right].
  - intros x [<-|Hx]; [exact Hle | now apply Hall].
Qed.

(** [rescale] to [0, 1] of a finite array holding two different values: all
    results are in the unit interval, and 0 and 1 are both attained. *)
Lemma rescale_unit (l : list R) :
  (exists x y, In x l /\ In y l /\ x <> y) ->
  exists out,
    rescale (map Fin l) (Fin 0) (Fin 1) = Some out
    /\ length out = length l
    /\ (forall v, In v out -> in_unit v)
    /\ In (Fin 0) out /\ In (Fin 1) out.
Proof.
  intros (x & y & Hx & Hy & Hxy).
  assert (Hne : l <> []) by (destruct l; [destruct Hx | discriminate]).
  destruct (py_min_finite l Hne) as (m & Em & Hmin & Hml).
  destruct (py_max_finite l Hne) as (M & EM & HMin & HMl).
  assert (HmM : m < M).
  { pose proof (Hml x Hx). pose proof (Hml y Hy).
    pose proof (HMl x Hx). pose proof (HMl y Hy).
    destruct (Rlt_dec m M); [assumption|]. exfalso. apply Hxy. lra. }
  unfold rescale. rewrite Em, EM. eexists. split; [reflexivity|].
  rewrite map_map.
  assert (Hf : forall v, fadd (fdiv (fmul (fsub (Fin 1) (Fin 0)) (fsub (Fin v) (Fin m)))
                                     (fsub (Fin M) (Fin m))) (Fin 0)
                         = Fin ((v - m) / (M - m))).
  { intro v. cbn [fsub fneg fadd fmul]. unfold fdiv. rcmp. cbn [fadd].
    apply Fin_eq. field. lra. }
  split; [now rewrite length_map|]. split; [|split].
  - intros v Hv. apply in_map_iff in Hv. destruct Hv as (r & <- & Hr).
    rewrite Hf. exists ((r - m) / (M - m)). split; [reflexivity|].
    pose proof (Hml r Hr). pose proof (HMl r Hr). split.
    + apply Rmult_le_pos; [lra|]. left. apply Rinv_0_lt_compat. lra.
    + apply (Rmult_le_reg_r (M - m)); [lra|]. unfold Rdiv.
      rewrite Rmult_assoc, Rinv_l by lra. lra.
  - apply in_map_iff. exists m. split; [|exact Hmin]. rewrite Hf.
    apply Fin_eq. unfold Rdiv. replace (m - m) with 0 by lra. apply Rmult_0_l.
  - apply in_map_iff. exists M. split; [|exact HMin]. rewrite Hf.
    apply Fin_eq. field. lra.
Qed.

(** ** standardize on images that are not constant *)

Lemma zscore_two_values (l : list R) (m s : R) :
  0 < s ->
  (exists x y, In x l /\ In y l /\ x <> y) ->
  exists x y, In x (map (fun v => (v + - m) / s) l)
              /\ In y (map (fun v => (v + - m) / s) l) /\ x <> y.
Proof.
  intros Hs (x & y & Hx & Hy & Hxy).
  exists ((x + - m) / s), ((y + - m) / s). repeat split.
  - apply in_map_iff. now exists x.
  - apply in_map_iff. now exists y.
  - intro E. apply Hxy. unfold Rdiv in E.
    apply Rmult_eq_reg_r in E; [lra|]. apply Rinv_neq_0_compat. lra.
Qed.

(** The shape [standardize] returns: three channels for a 2-D image, the
    shape of the input for a 3-D one. *)
Lemma standardize_shape (img out : ndarray) :
  standardize img = Some out ->
  (forall d0 d1, shape img = [d0; d1] -> shape out = [d0; d1; 3%nat])
  /\ (ndim img = 3%nat -> shape out = shape img).
Proof.
  unfold standardize, ndim. intro H.
  destruct (shape img) as [|d0 [|d1 rest]] eqn:Hsh; try discriminate.
  destruct (rescale _ _ _) as [img2|]; [|discriminate].
  injection H as <-. cbn [shape mk_ndarray].
  split.
  - intros e0 e1 E. injection E as -> -> ->. reflexivity.
  - intro E. cbn [length] in E.
    destruct rest as [|c [|c' rest']]; cbn [length] in E; try lia. reflexivity.
Qed.

(** For a finite image holding at least two different values the output of
    [standardize] lies in the unit interval and attains both 0 and 1. *)
Lemma standardize_nonconstant (img : ndarray) (l : list R) :
  data img = map Fin l ->
  well_shaped img ->
  (2 <= ndim img)%nat ->
  (exists x y, In x l /\ In y l /\ x <> y) ->
  exists out,
    standardize img = Some out
    /\ (forall v, In v (data out) -> in_unit v)
    /\ In (Fin 0) (data out) /\ In (Fin 1) (data out).
Proof.
  intros Hd Hws Hnd Hxy.
  destruct (shape img) as [|d0 [|d1 rest]] eqn:Hsh;
    try (unfold ndim in Hnd; rewrite Hsh in Hnd; simpl in Hnd; lia).
  assert (Hne : l <> []).
  { destruct Hxy as (x & _ & Hx & _). destruct l; [destruct Hx | discriminate]. }
  assert (Hne' : data img <> []).
  { rewrite Hd. destruct l; [congruence | discriminate]. }
  destruct (constant_dims img d0 d1 rest Hsh Hws Hne') as (Hn & HN & Hblk).
  destruct (zscore_finite d0 d1 l Hne HN) as (m & s & Hs & Hz).
  destruct (rescale_unit _ (zscore_two_values l m s Hs Hxy))
    as (o & Ho & Hlen & Hunit & H0 & H1).
  unfold standardize. rewrite Hsh, Hd, Hz.
  rewrite <- (map_map (fun v => (v + - m) / s) Fin), Ho.
  set (pre := mk_ndarray (d0 :: d1 :: rest) o).
  assert (Hpsh : shape pre = d0 :: d1 :: rest) by reflexivity.
  eexists. split; [reflexivity|].
  destruct (Nat.eqb (ndim pre) 3).
  - cbn [data pre mk_ndarray]. auto.
  - repeat split.
    + intros v Hv. apply (dstack3_In pre d0 d1 rest v Hpsh Hblk) in Hv. now apply Hunit.
    + now apply (dstack3_In pre d0 d1 rest _ Hpsh Hblk).
    + now apply (dstack3_In pre d0 d1 rest _ Hpsh Hblk).
Qed.

(** C6.  [standardize] on the 2x2 image of zeros, a well-formed input: the
    result has three channels, and every one of its twelve values is NaN, so
    its minimum is not 0 and its maximum is not 1. *)
Theorem standardize_zero_image :
  standardize (mk_ndarray [2; 2]%nat (repeat (Fin 0) 4))
  = Some (mk_ndarray [2; 2; 3]%nat (repeat NaN 12)).
Proof.
  rewrite (standardize_constant_pre _ 0 2 2 []).
  - reflexivity.
  - reflexivity.
  - reflexivity.
  - discriminate.
  - intros x Hx. simpl in Hx. intuition (subst; reflexivity).
Qed.

(** ** Masked assignment *)

Lemma fill_where_map {A : Type} (f : A -> bool) (c : A) (a : list A) :
  fill_where (map f a) a c = map (fun x => if f x then c else x) a.
Proof.
  induction a as [|x a IH]; [reflexivity|].
  cbn [map fill_where]. destruct (f x); now rewrite IH.
Qed.

Lemma put_take_where_map {A : Type} (f : A -> bool) (g : A -> A) (b : list A) :
  put_where (map f b) (map g b) (take_where (map f b) b)
  = map (fun y => if f y then y else g y) b.
Proof.
  induction b as [|y b IH]; [reflexivity|].
  cbn [map put_where take_where]. destruct (f y); cbn [put_where]; now rewrite IH.
Qed.

Lemma nth_map_lt {A B : Type} (f : A -> B) (l : list A) (i : nat) (d : A) (e : B) :
  (i < length l)%nat -> nth i (map f l) e = f (nth i l d).
Proof.
  intro H. rewrite (nth_indep _ e (f d)) by now rewrite length_map.
  apply map_nth.
Qed.

Lemma zero_nonfinite_map (l : list fl) :
  zero_nonfinite l = map (fun c => if isfinite c then c else Fin 0) l.
Proof.
  unfold zero_nonfinite. rewrite fill_where_map, fill_where_map, map_map.
  apply map_ext. intros [r| | |]; reflexivity.
Qed.

(** ** The confidence map *)

(** The confidence map, pixel by pixel. *)
Lemma confidence_map (est : list fl) (thres : fl) :
  confidence est thres =
  map (fun p =>
         let c := fsub (Fin 1) (if flt p thres then p else fsub (Fin 1) p) in
         if isfinite c then c else Fin 0)
      est.
Proof.
  unfold confidence. rewrite put_take_where_map, zero_nonfinite_map, !map_map.
  reflexivity.
Qed.

(** C3, as amended.  At every pixel of the binary-path confidence map: where
    the probability is a number at or above the threshold the confidence is
    the probability; where it is a number below the threshold the confidence
    is one minus the probability; where it is NaN or an infinity the
    confidence is 0; and a probability in [0,1] gives a confidence in
    [0,1]. *)
Theorem confidence_pixel (est : list fl) (t : R) (i : nat) :
  (i < length est)%nat ->
  let p := nth i est NaN in
  let c := nth i (confidence est (Fin t)) NaN in
  (forall r, p = Fin r -> t <= r -> c = Fin r)
  /\ (forall r, p = Fin r -> r < t -> c = Fin (1 - r))
  /\ (isfinite p = false -> c = Fin 0)
  /\ (in_unit p -> in_unit c).
Proof.
  intros Hi p c. unfold c. rewrite confidence_map.
  rewrite (nth_map_lt _ est i NaN NaN Hi). fold p. cbv zeta.
  repeat split.
  - intros r -> Hr. cbn [flt]. rewrite (Rltb_false r t Hr).
    cbn [fsub fneg fadd isfinite]. apply Fin_eq. lra.
  - intros r -> Hr. cbn [flt]. rewrite (Rltb_true r t Hr).
    cbn [fsub fneg fadd isfinite]. apply Fin_eq. lra.
  - destruct p as [r| | |]; intro H; try discriminate H; reflexivity.
  - intros (r & -> & Hr). cbn [flt]. destruct (Rlt_dec r t) as [Hlt|Hge].
    + rewrite (Rltb_true r t Hlt). cbn [fsub fneg fadd isfinite].
      exists (1 + - r). split; [reflexivity | lra].
    + rewrite (Rltb_false r t) by lra. cbn [fsub fneg fadd isfinite].
      exists (1 + - (1 + - r)). split; [reflexivity | lra].
Qed.

Lemma confidence_pixel_witness :
  let p := nth 0 [Fin 0.25] NaN in
  let c := nth 0 (confidence [Fin 0.25] (Fin 0.75)) NaN in
  (forall r, p = Fin r -> 0.75 <= r -> c = Fin r)
  /\ (forall r, p = Fin r -> r < 0.75 -> c = Fin (1 - r))
  /\ (isfinite p = false -> c = Fin 0)
  /\ (in_unit p -> in_unit c).
Proof.
  apply (confidence_pixel [Fin 0.25] 0.75 0). simpl. lia.
Defined.

(** C3 as stated fails below the threshold: the probability 0.25 under the
    threshold 0.75 gets the confidence 0.75, not 0.25. *)
Lemma confidence_below_threshold_counterexample :
  flt (Fin 0.25) (Fin 0.75) = true
  /\ confidence [Fin 0.25] (Fin 0.75) = [Fin 0.75]
  /\ Fin 0.75 <> Fin 0.25.
Proof.
  split; [|split].
  - cbn [flt]. now rcmp.
  - rewrite confidence_map. cbn [map flt]. rcmp. cbn [fsub fneg fadd isfinite].
    f_equal. apply Fin_eq. lra.
  - intro H. injection H as H. lra.
Qed.

(** ** Threshold selection *)

Lemma fold_np_minimum_finite (l : list R) (a : R) :
  fold_left np_minimum (map Fin l) (Fin a)
  = fold_left (fun cur y => if flt y cur then y else cur) (map Fin l) (Fin a).
Proof.
  revert a. induction l as [|x l IH]; intro a; [reflexivity|].
  cbn [map fold_left np_minimum flt]. destruct (Rltb x a); apply IH.
Qed.

Lemma fold_np_maximum_finite (l : list R) (a : R) :
  fold_left np_maximum (map Fin l) (Fin a)
  = fold_left (fun cur y => if fgt y cur then y else cur) (map Fin l) (Fin a).
Proof.
  revert a. induction l as [|x l IH]; intro a; [reflexivity|].
  cbn [map fold_left np_maximum fgt flt]. destruct (Rltb a x); apply IH.
Qed.

Lemma np_min_finite (l : list R) :
  l <> [] ->
  exists m, np_min (map Fin l) = Some (Fin m) /\ In m l /\ (forall x, In x l -> m <= x).
Proof.
  intro Hne. destruct (py_min_finite l Hne) as (m & E & H1 & H2).
  exists m. split; [|now split].
  destruct l as [|a l]; [congruence|]. cbn [map np_min py_min] in *.
  now rewrite fold_np_minimum_finite.
Qed.

Lemma np_max_finite (l : list R) :
  l <> [] ->
  exists m, np_max (map Fin l) = Some (Fin m) /\ In m l /\ (forall x, In x l -> x <= m).
Proof.
  intro Hne. destruct (py_max_finite l Hne) as (m & E & H1 & H2).
  exists m. split; [|now split].
  destruct l as [|a l]; [congruence|]. cbn [map np_max py_max] in *.
  now rewrite fold_np_maximum_finite.
Qed.

Section Threshold.

Context `{Collaborators}.

(** C2.  For a probability map (every value a number of [0,1]) with minimum
    [m] and maximum [M], and an Otsu routine that returns a value strictly
    inside the range of the map: if [M - m > 0.5] the selected threshold is
    the Otsu threshold, replaced by 0.75 when it exceeds 0.75; otherwise it
    is 0.75; in both cases it lies in (0, 0.75]. *)
Theorem select_threshold_range (est_label : ndarray) (l : list R) :
  data est_label = map Fin l ->
  l <> [] ->
  (forall x, In x l -> 0 <= x <= 1) ->
  (forall m M, np_min (data est_label) = Some (Fin m) ->
               np_max (data est_label) = Some (Fin M) ->
               M - m > 0.5 ->
               exists o, threshold_otsu est_label = Fin o /\ m < o < M) ->
  exists t m M,
    np_min (data est_label) = Some (Fin m)
    /\ np_max (data est_label) = Some (Fin M)
    /\ select_threshold est_label = Some (Fin t)
    /\ 0 < t <= 0.75
    /\ (M - m > 0.5 ->
        exists o, threshold_otsu est_label = Fin o
                  /\ t = if Rltb 0.75 o then 0.75 else o)
    /\ (M - m <= 0.5 -> t = 0.75).
Proof.
  intros Hd Hne Hunit Hotsu.
  destruct (np_min_finite l Hne) as (m & Em & Hm & _).
  destruct (np_max_finite l Hne) as (M & EM & HM & _).
  rewrite <- Hd in Em, EM.
  unfold select_threshold. rewrite Em, EM. cbn [fsub fneg fadd fgt flt].
  destruct (Rlt_dec 0.5 (M + - m)) as [Hgt|Hle].
  - rewrite (Rltb_true _ _ Hgt).
    destruct (Hotsu m M Em EM) as (o & Eo & Ho); [lra|].
    rewrite Eo. cbn [flt]. pose proof (Hunit m Hm) as Hm01.
    destruct (Rlt_dec 0.75 o) as [Hc|Hc].
    + rewrite (Rltb_true _ _ Hc). exists 0.75, m, M.
      repeat split; try lra.
      intros _. exists o. rewrite (Rltb_true _ _ Hc). now split.
    + rewrite (Rltb_false 0.75 o) by lra. exists o, m, M.
      repeat split; try lra.
      intros _. exists o. rewrite (Rltb_false 0.75 o) by lra. now split.
  - rewrite (Rltb_false 0.5 (M + - m)) by lra. exists 0.75, m, M.
    repeat split; try lra.
Qed.

End Threshold.

Lemma select_threshold_range_witness :
  exists t m M,
    np_min [Fin 0; Fin 1] = Some (Fin m)
    /\ np_max [Fin 0; Fin 1] = Some (Fin M)
    /\ @select_threshold stand_in (mk_ndarray [1; 2]%nat [Fin 0; Fin 1]) = Some (Fin t)
    /\ 0 < t <= 0.75
    /\ (M - m > 0.5 ->
        exists o, @threshold_otsu stand_in (mk_ndarray [1; 2]%nat [Fin 0; Fin 1]) = Fin o
                  /\ t = if Rltb 0.75 o then 0.75 else o)
    /\ (M - m <= 0.5 -> t = 0.75).
Proof.
  apply (@select_threshold_range stand_in (mk_ndarray [1; 2]%nat [Fin 0; Fin 1]) [0; 1]).
  - reflexivity.
  - discriminate.
  - intros x Hx. simpl in Hx. destruct Hx as [<-|[<-|[]]]; lra.
  - intros m M Hm HM _. cbn [data mk_ndarray np_min np_max fold_left] in Hm, HM.
    cbn [np_minimum np_maximum flt] in Hm, HM.
    rewrite (Rltb_false 1 0) in Hm by lra. rewrite (Rltb_true 0 1) in HM by lra.
    injection Hm as <-. injection HM as <-.
    exists 0.5. split; [reflexivity | lra].
Defined.

(** ** Combination of the ensemble *)

Lemma chunks_fuel_flat_map {A B : Type} (n : nat) (f : A -> list B) :
  (0 < n)%nat -> (forall x, length (f x) = n) ->
  forall (L : list A) (fuel : nat),
    (length L <= fuel)%nat -> chunks_fuel fuel n (flat_map f L) = map f L.
Proof.
  intros Hn Hf L. induction L as [|x L IH]; intros fuel Hfuel.
  - destruct fuel; reflexivity.
  - destruct fuel as [|fuel]; [simpl in Hfuel; lia|].
    cbn [flat_map map chunks_fuel].
    destruct (f x ++ flat_map f L) as [|b l] eqn:E.
    + apply (f_equal (@length B)) in E. rewrite length_app, Hf in E.
      simpl in E. lia.
    + rewrite <- E. rewrite <- (Hf x) at 1 3.
      rewrite firstn_app, firstn_all, Nat.sub_diag, firstn_O, app_nil_r.
      rewrite skipn_app, skipn_all, Nat.sub_diag, skipn_O. cbn [app].
      f_equal. apply IH. simpl in Hfuel. lia.
Qed.

Lemma chunks_flat_map {A B : Type} (n : nat) (f : A -> list B) (L : list A) :
  (0 < n)%nat -> (forall x, length (f x) = n) ->
  chunks n (flat_map f L) = map f L.
Proof.
  intros Hn Hf. unfold chunks. apply chunks_fuel_flat_map; try assumption.
  induction L as [|x L IH]; [simpl; lia|].
  cbn [flat_map length]. rewrite length_app, Hf. lia.
Qed.

Lemma sequence_map_some {A B : Type} (g : A -> B) (L : list A) :
  sequence (map (fun x => Some (g x)) L) = Some (map g L).
Proof.
  induction L as [|x L IH]; [reflexivity|]. cbn [map sequence]. now rewrite IH.
Qed.

Lemma shape_eqb_refl (sh : list nat) : shape_eqb sh sh = true.
Proof.
  induction sh as [|d sh IH]; [reflexivity|].
  cbn [shape_eqb]. now rewrite Nat.eqb_refl, IH.
Qed.

Lemma dstack_same_shape (E : list ndarray) (e0 : ndarray) (w h : nat) :
  (forall e, In e (e0 :: E) -> shape e = [w; h]) ->
  dstack (e0 :: E) =
  Some (mk_ndarray [w; h; length (e0 :: E)]
          (flat_map (pixel_vector (e0 :: E)) (seq 0 (length (data e0))))).
Proof.
  intro Hsh. unfold dstack, ndim.
  rewrite (Hsh e0 (or_introl eq_refl)). cbn [length Nat.eqb andb].
  replace (forallb _ (e0 :: E)) with true; [reflexivity|].
  symmetry. apply forallb_forall. intros e He. rewrite (Hsh e He).
  apply shape_eqb_refl.
Qed.

Lemma last_axis_dstack (E : list ndarray) (sh : list nat) (n : nat) :
  E <> [] ->
  last_axis (mk_ndarray (sh ++ [length E]) (flat_map (pixel_vector E) (seq 0 n)))
  = map (pixel_vector E) (seq 0 n).
Proof.
  intro Hne. unfold last_axis. cbn [shape data mk_ndarray].
  rewrite last_last. apply chunks_flat_map.
  - destruct E; [congruence | simpl; lia].
  - intro p. unfold pixel_vector. apply length_map.
Qed.

Lemma weighted_mean_defined (W v : list fl) (s : R) :
  length v = length W -> np_sum W = Fin s -> s <> 0 ->
  weighted_mean W v = Some (fdiv (np_sum (zip_with fmul v W)) (Fin s)).
Proof.
  intros Hl Hs Hne. unfold weighted_mean.
  rewrite Hl, Nat.eqb_refl. cbn [negb]. rewrite Hs.
  now rewrite (Reqb_false _ _ Hne).
Qed.


Section Combine.

Context `{Collaborators}.


End Combine.


(** ** The ensemble of the binary path *)

Lemma roll_length {A : Type} (l : list A) (s : Z) : length (roll l s) = length l.
Proof.
  unfold roll. destruct (length l) eqn:E; [exact E|].
  rewrite <- E, length_app, length_skipn, length_firstn. lia.
Qed.

(** [roll] is a cyclic shift: position [i] of the result holds the element
    that was [shift] places before it, counting modulo the length. *)
Lemma roll_cyclic {A : Type} (l : list A) (s : Z) (i : nat) (d : A) :
  (i < length l)%nat ->
  nth i (roll l s) d
  = nth (Z.to_nat ((Z.of_nat i - s) mod Z.of_nat (length l))) l d.
Proof.
  intro Hi. unfold roll. destruct (length l) as [|n'] eqn:E; [lia|].
  rewrite <- E in *. set (n := length l) in *.
  assert (Hn : (0 < Z.of_nat n)%Z) by lia.
  pose proof (Z.mod_pos_bound s (Z.of_nat n) Hn) as Hr.
  set (r := (s mod Z.of_nat n)%Z) in *.
  rewrite <- (Zminus_mod_idemp_r (Z.of_nat i) s). fold r.
  destruct (Z_lt_dec (Z.of_nat i) r) as [Hlt|Hge].
  - rewrite app_nth1 by (rewrite length_skipn; fold n; lia).
    rewrite nth_skipn. f_equal.
    replace ((Z.of_nat i - r) mod Z.of_nat n)%Z with (Z.of_nat i - r + Z.of_nat n)%Z.
    + lia.
    + symmetry. rewrite <- (Z_mod_plus_full _ 1 (Z.of_nat n)).
      rewrite Z.mul_1_l. apply Z.mod_small. lia.
  - rewrite app_nth2 by (rewrite length_skipn; fold n; lia).
    rewrite length_skipn. fold n. rewrite nth_firstn.
    replace (i - (n - (n - Z.to_nat r)) <? n - Z.to_nat r)%nat with true
      by (symmetry; apply Nat.ltb_lt; lia).
    f_equal. rewrite Z.mod_small by lia. lia.
Qed.

Lemma shift_loop_spec `{Collaborators} (image : ndarray) (sign : Z) (ks : list Q)
  (E : list ndarray) (W : list fl) :
  shift_loop image sign ks (E, W)
  = (E ++ map (fun k => predict (np_roll image (sign * py_int k))) ks,
     W ++ map shift_weight ks).
Proof.
  unfold shift_loop. revert E W. induction ks as [|k ks IH]; intros E W.
  - cbn [fold_left map]. now rewrite !app_nil_r.
  - cbn [fold_left map fst snd]. rewrite IH, <- !app_assoc. reflexivity.
Qed.

Lemma tta_ensemble_spec `{Collaborators} (T : Z) (image : ndarray) :
  tta_ensemble T image
  = ([predict image]
       ++ map (fun k => predict (np_roll image (py_int k))) (shift_schedule T)
       ++ map (fun k => predict (np_roll image (- py_int k))) (shift_schedule T),
     [Fin 1] ++ map shift_weight (shift_schedule T)
             ++ map shift_weight (shift_schedule T)).
Proof.
  unfold tta_ensemble. rewrite !shift_loop_spec, <- !app_assoc.
  rewrite (map_ext (fun k => predict (np_roll image (1 * py_int k)))
                   (fun k => predict (np_roll image (py_int k))))
    by (intro k; now rewrite Z.mul_1_l).
  rewrite (map_ext (fun k => predict (np_roll image (-1 * py_int k)))
                   (fun k => predict (np_roll image (- py_int k))))
    by (intro k; f_equal; f_equal; lia).
  reflexivity.
Qed.

Lemma shift_schedule_length (T : Z) : length (shift_schedule T) = 10%nat.
Proof. unfold shift_schedule, linspace. now rewrite length_map, length_seq. Qed.

Lemma Q2R_inject_Z (z : Z) : Q2R (inject_Z z) = IZR z.
Proof. unfold Q2R, inject_Z. cbn [Qnum Qden]. rewrite Rinv_1. lra. Qed.

(** The offsets are evenly spaced from 100 to the target size. *)
Lemma shift_schedule_nth (T : Z) (i : nat) :
  (i < 10)%nat ->
  Q2R (nth i (shift_schedule T) 0%Q) = 100 + INR i * ((IZR T - 100) / 9).
Proof.
  intro Hi. unfold shift_schedule, linspace.
  rewrite (nth_map_lt _ _ i 0%nat 0%Q) by now rewrite length_seq.
  rewrite seq_nth by exact Hi. cbn [Nat.add].
  rewrite (Qeq_eqR _ _ (Qred_correct _)).
  rewrite Q2R_plus, Q2R_mult, Q2R_div by discriminate.
  rewrite Q2R_minus, !Q2R_inject_Z.
  replace (Q2R 100) with 100 by (unfold Q2R; cbn [Qnum Qden]; lra).
  rewrite <- INR_IZR_INZ. cbn [Nat.sub Z.of_nat]. reflexivity.
Qed.

Lemma shift_schedule_bound (T : Z) (i : nat) :
  (4 < T)%Z -> (i < 10)%nat -> 4 < Q2R (nth i (shift_schedule T) 0%Q).
Proof.
  intros HT Hi. rewrite (shift_schedule_nth T i Hi).
  assert (HT' : 4 < IZR T) by (apply (IZR_lt 4); exact HT).
  assert (H0 : 0 <= INR i) by apply pos_INR.
  assert (H9 : INR i <= 9).
  { replace 9 with (INR 9) by (simpl; lra). apply le_INR. lia. }
  set (x := (IZR T - 100) / 9).
  assert (Hx : 9 * x = IZR T - 100) by (unfold x; field).
  destruct (Rle_dec 0 x) as [Hpos|Hneg].
  - assert (0 <= INR i * x) by now apply Rmult_le_pos.
    lra.
  - assert (0 <= (9 - INR i) * (- x)) by (apply Rmult_le_pos; lra).
    lra.
Qed.

Lemma sqrt_4 : sqrt 4 = 2.
Proof. replace 4 with (2 * 2) by lra. apply sqrt_square. lra. Qed.

Lemma shift_weight_pos (k : Q) :
  0 < Q2R k -> shift_weight k = Fin (2 * (1 / sqrt (Q2R k))).
Proof.
  intro Hk. pose proof (sqrt_lt_R0 _ Hk) as Hs.
  unfold shift_weight, np_sqrt. rcmp. unfold fdiv. rcmp. reflexivity.
Qed.

(** The weight falls strictly as the offset grows. *)
Lemma weight_decreasing (x y : R) :
  0 < x -> x < y -> 2 * (1 / sqrt y) < 2 * (1 / sqrt x).
Proof.
  intros Hx Hxy.
  assert (Hsx : 0 < sqrt x) by (apply sqrt_lt_R0; lra).
  assert (Hs : sqrt x < sqrt y) by (apply sqrt_lt_1; lra).
  assert (/ sqrt y < / sqrt x).
  { apply Rinv_lt_contravar; [|exact Hs]. apply Rmult_lt_0_compat; lra. }
  lra.
Qed.

Lemma weight_below_one (x : R) : 4 < x -> 0 < 2 * (1 / sqrt x) < 1.
Proof.
  intro Hx.
  assert (Hs : 2 < sqrt x) by (rewrite <- sqrt_4; apply sqrt_lt_1; lra).
  assert (H0 : 0 < / sqrt x) by (apply Rinv_0_lt_compat; lra).
  assert (H1 : / sqrt x < / 2).
  { apply Rinv_lt_contravar; [|exact Hs]. lra. }
  lra.
Qed.

(** The shifts applied for the usual target size 768. *)
Example shift_schedule_768 :
  map py_int (shift_schedule 768)
  = [100; 174; 248; 322; 396; 471; 545; 619; 693; 768]%Z.
Proof. vm_compute. reflexivity. Qed.

(** [int] of a positive offset is its whole part. *)
Lemma py_int_whole_part (q : Q) :
  0 < Q2R q -> IZR (py_int q) <= Q2R q < IZR (py_int q) + 1.
Proof.
  destruct q as [n d]. unfold Q2R, py_int. cbn [Qnum Qden]. intro Hq.
  assert (Hd : 0 < IZR (Zpos d)) by (apply (IZR_lt 0); lia).
  assert (Hi : 0 < / IZR (Zpos d)) by now apply Rinv_0_lt_compat.
  assert (Hn : (0 <= n)%Z).
  { destruct (Z_lt_le_dec n 0) as [Hneg|Hpos]; [|exact Hpos]. exfalso.
    assert (IZR n < 0) by (apply (IZR_lt n 0); exact Hneg).
    assert (IZR n * / IZR (Zpos d) < 0); [|lra].
    replace 0 with (0 * / IZR (Zpos d)) by lra.
    now apply Rmult_lt_compat_r. }
  rewrite Z.quot_div_nonneg by lia.
  pose proof (Z.div_mod n (Zpos d) ltac:(lia)) as Hdm.
  pose proof (Z.mod_pos_bound n (Zpos d) ltac:(lia)) as Hm.
  set (c := (n / Zpos d)%Z) in *. set (r := (n mod Zpos d)%Z) in *.
  assert (En : IZR n = IZR (Zpos d) * IZR c + IZR r)
    by (rewrite Hdm, plus_IZR, mult_IZR; reflexivity).
  assert (Hr0 : 0 <= IZR r) by (apply (IZR_le 0); lia).
  assert (Hr1 : IZR r < IZR (Zpos d)) by (apply IZR_lt; lia).
  assert (Eq : IZR n * / IZR (Zpos d) = IZR c + IZR r * / IZR (Zpos d))
    by (rewrite En; field; lra).
  assert (H0 : 0 <= IZR r * / IZR (Zpos d)).
  { apply Rmult_le_pos; lra. }
  assert (H1 : IZR r * / IZR (Zpos d) < 1).
  { replace 1 with (IZR (Zpos d) * / IZR (Zpos d)) by (field; lra).
    apply Rmult_lt_compat_r; assumption. }
  lra.
Qed.

(** [np.roll] keeps the shape and shifts the flattened image cyclically:
    position [p] of the result holds what was [s] places before it, counting
    modulo the number of elements. *)
Lemma np_roll_cyclic (image : ndarray) (s : Z) :
  shape (np_roll image s) = shape image
  /\ length (data (np_roll image s)) = length (data image)
  /\ forall p d, (p < length (data image))%nat ->
       nth p (data (np_roll image s)) d
       = nth (Z.to_nat ((Z.of_nat p - s) mod Z.of_nat (length (data image))))
             (data image) d.
Proof.
  unfold np_roll. cbn [shape data mk_ndarray].
  split; [reflexivity|]. split; [apply roll_length|].
  intros p d Hp. now apply roll_cyclic.
Qed.

Section Ensemble.

Context `{Collaborators}.

(** C1.  For a target size above 4, the ensemble of the binary path has 21
    ordered members with 21 weights.  Member 0 is the prediction on the
    unshifted image, with weight 1.  The ten offsets are evenly spaced from
    100 to [TARGET_SIZE[0]], both included.  Member [1+i] is the prediction on
    the image rolled by the whole part of offset [i], member [11+i] the
    prediction on the image rolled as far the other way, both with weight
    [2/sqrt(offset)].  The whole part [s] of an offset [k] is the integer
    with [s <= k < s + 1], and the image rolled by [s] is the cyclic shift of
    the flattened image: it has the shape of the image, and its position [p]
    holds the value the image has [s] places before [p], counting modulo the
    number of values; rolled by [-s], the value [s] places after [p].  Over
    the offsets of the schedule the weight falls strictly as the offset
    grows, and every such weight is below the weight 1 of the unshifted
    member. *)
Theorem tta_ensemble_members (T : Z) (image : ndarray) :
  (4 < T)%Z ->
  let ks := shift_schedule T in
  let E := fst (tta_ensemble T image) in
  let W := snd (tta_ensemble T image) in
  length E = 21%nat /\ length W = 21%nat
  /\ nth 0 E image = predict image /\ nth 0 W NaN = Fin 1
  /\ length ks = 10%nat
  /\ Q2R (nth 0 ks 0%Q) = 100 /\ Q2R (nth 9 ks 0%Q) = IZR T
  /\ (forall i, (i < 10)%nat ->
        let k := nth i ks 0%Q in
        Q2R k = 100 + INR i * ((IZR T - 100) / 9)
        /\ nth (1 + i) E image = predict (np_roll image (py_int k))
        /\ nth (11 + i) E image = predict (np_roll image (- py_int k))
        /\ nth (1 + i) W NaN = Fin (2 / sqrt (Q2R k))
        /\ nth (11 + i) W NaN = Fin (2 / sqrt (Q2R k))
        /\ 2 / sqrt (Q2R k) < 1
        /\ IZR (py_int k) <= Q2R k < IZR (py_int k) + 1
        /\ shape (np_roll image (py_int k)) = shape image
        /\ shape (np_roll image (- py_int k)) = shape image
        /\ (forall p d, (p < length (data image))%nat ->
              nth p (data (np_roll image (py_int k))) d
              = nth (Z.to_nat ((Z.of_nat p - py_int k)
                               mod Z.of_nat (length (data image))))
                    (data image) d
              /\ nth p (data (np_roll image (- py_int k))) d
                 = nth (Z.to_nat ((Z.of_nat p + py_int k)
                                  mod Z.of_nat (length (data image))))
                       (data image) d))
  /\ (forall i j, (i < 10)%nat -> (j < 10)%nat ->
        Q2R (nth i ks 0%Q) < Q2R (nth j ks 0%Q) ->
        2 / sqrt (Q2R (nth j ks 0%Q)) < 2 / sqrt (Q2R (nth i ks 0%Q))).
Proof.
  intros HT ks E W. unfold E, W. rewrite tta_ensemble_spec. cbn [fst snd].
  fold ks. pose proof (shift_schedule_length T) as Hlen. fold ks in Hlen.
  assert (Hdiv : forall x, 2 / x = 2 * (1 / x)) by (intro x; unfold Rdiv; lra).
  split; [|split; [|split; [|split; [|split; [|split; [|split; [|split]]]]]]].
  - cbn [app length]. rewrite length_app, !length_map, Hlen. reflexivity.
  - cbn [app length]. rewrite length_app, !length_map, Hlen. reflexivity.
  - reflexivity.
  - reflexivity.
  - exact Hlen.
  - unfold ks. rewrite shift_schedule_nth by lia. cbn [INR]. lra.
  - unfold ks. rewrite shift_schedule_nth by lia.
    replace (INR 9) with 9 by (simpl; lra). field.
  - intros i Hi. set (k := nth i ks 0%Q).
    pose proof (shift_schedule_bound T i HT Hi) as Hk. fold ks in Hk. fold k in Hk.
    assert (Hw : shift_weight k = Fin (2 / sqrt (Q2R k))).
    { rewrite shift_weight_pos by lra. apply Fin_eq. symmetry. apply Hdiv. }
    split; [apply shift_schedule_nth; exact Hi|].
    split; [|split; [|split; [|split; [|split; [|split; [|split; [|split]]]]]]].
    + cbn [Nat.add app nth]. rewrite app_nth1 by (rewrite length_map; lia).
      apply (nth_map_lt (fun q => predict (np_roll image (py_int q))) ks i 0%Q image).
      lia.
    + replace (11 + i)%nat with (S (10 + i)) by lia. cbn [app nth].
      rewrite app_nth2 by (rewrite length_map; lia).
      rewrite length_map, Hlen. replace (10 + i - 10)%nat with i by lia.
      apply (nth_map_lt (fun q => predict (np_roll image (- py_int q))) ks i 0%Q image).
      lia.
    + cbn [Nat.add app nth]. rewrite app_nth1 by (rewrite length_map; lia).
      rewrite (nth_map_lt _ ks i 0%Q NaN) by lia. exact Hw.
    + replace (11 + i)%nat with (S (10 + i)) by lia. cbn [app nth].
      rewrite app_nth2 by (rewrite length_map; lia).
      rewrite length_map, Hlen. replace (10 + i - 10)%nat with i by lia.
      rewrite (nth_map_lt _ ks i 0%Q NaN) by lia. exact Hw.
    + rewrite Hdiv. apply weight_below_one. exact Hk.
    + apply py_int_whole_part. lra.
    + apply np_roll_cyclic.
    + apply np_roll_cyclic.
    + intros p d Hp. split; [now apply np_roll_cyclic|].
      rewrite (proj2 (proj2 (np_roll_cyclic image (- py_int k))) p d Hp).
      do 3 f_equal. lia.
  - intros i j Hi Hj Hlt.
    pose proof (shift_schedule_bound T i HT Hi) as Hk. fold ks in Hk.
    rewrite !Hdiv. apply weight_decreasing; [lra | exact Hlt].
Qed.

End Ensemble.

Lemma tta_ensemble_members_witness :
  let image := mk_ndarray [1; 2; 1]%nat [Fin 0; Fin 1] in
  let ks := shift_schedule 768 in
  let E := fst (@tta_ensemble stand_in 768 image) in
  let W := snd (@tta_ensemble stand_in 768 image) in
  length E = 21%nat /\ length W = 21%nat
  /\ nth 0 E image = @predict stand_in image /\ nth 0 W NaN = Fin 1
  /\ length ks = 10%nat
  /\ Q2R (nth 0 ks 0%Q) = 100 /\ Q2R (nth 9 ks 0%Q) = IZR 768
  /\ (forall i, (i < 10)%nat ->
        let k := nth i ks 0%Q in
        Q2R k = 100 + INR i * ((IZR 768 - 100) / 9)
        /\ nth (1 + i) E image = @predict stand_in (np_roll image (py_int k))
        /\ nth (11 + i) E image = @predict stand_in (np_roll image (- py_int k))
        /\ nth (1 + i) W NaN = Fin (2 / sqrt (Q2R k))
        /\ nth (11 + i) W NaN = Fin (2 / sqrt (Q2R k))
        /\ 2 / sqrt (Q2R k) < 1
        /\ IZR (py_int k) <= Q2R k < IZR (py_int k) + 1
        /\ shape (np_roll image (py_int k)) = shape image
        /\ shape (np_roll image (- py_int k)) = shape image
        /\ (forall p d, (p < length (data image))%nat ->
              nth p (data (np_roll image (py_int k))) d
              = nth (Z.to_nat ((Z.of_nat p - py_int k)
                               mod Z.of_nat (length (data image))))
                    (data image) d
              /\ nth p (data (np_roll image (- py_int k))) d
                 = nth (Z.to_nat ((Z.of_nat p + py_int k)
                                  mod Z.of_nat (length (data image))))
                       (data image) d))
  /\ (forall i j, (i < 10)%nat -> (j < 10)%nat ->
        Q2R (nth i ks 0%Q) < Q2R (nth j ks 0%Q) ->
        2 / sqrt (Q2R (nth j ks 0%Q)) < 2 / sqrt (Q2R (nth i ks 0%Q))).
Proof.
  apply (@tta_ensemble_members stand_in 768 (mk_ndarray [1; 2; 1]%nat [Fin 0; Fin 1])).
  lia.
Defined.

(** ** Binarisation and the cleaned mask *)

Lemma binarize_map (thres : fl) (a : list fl) :
  binarize thres a
  = map (fun x => let y := if flt x thres then Fin 0 else x in
                  if fgt y thres then Fin 1 else y) a.
Proof.
  unfold binarize. rewrite fill_where_map, fill_where_map, map_map. reflexivity.
Qed.

Lemma binarize_int_map (thres : fl) (a : list Z) :
  binarize_int thres a
  = map (fun x => let y := if flt (Fin (IZR x)) thres then 0%Z else x in
                  if fgt (Fin (IZR y)) thres then 1%Z else y) a.
Proof.
  unfold binarize_int. rewrite fill_where_map, fill_where_map, map_map. reflexivity.
Qed.

Lemma Int_part_small (r : R) : 0 <= r < 1 -> Int_part r = 0%Z.
Proof. intro H. symmetry. apply Int_part_spec. simpl. lra. Qed.

Lemma Int_part_one : Int_part 1 = 1%Z.
Proof. symmetry. apply Int_part_spec. simpl. lra. Qed.

Lemma astype_uint8_small (r : R) : 0 <= r < 1 -> astype_uint8 (Fin r) = 0%Z.
Proof.
  intro H. unfold astype_uint8, Rtrunc. rewrite (Rltb_false r 0) by lra.
  now rewrite Int_part_small.
Qed.

Lemma astype_uint8_one : astype_uint8 (Fin 1) = 1%Z.
Proof.
  unfold astype_uint8, Rtrunc. rewrite (Rltb_false 1 0) by lra.
  now rewrite Int_part_one.
Qed.

(** What [remove_small_holes] receives for one pixel, under a threshold [t]
    of (0, 1): 0 below the threshold, 2 above it, and 0 for a pixel equal to
    the threshold, which neither assignment touches and the cast truncates. *)
Lemma holes_input_pixel (t r : R) :
  0 < t < 1 ->
  (r < t -> holes_input (Fin t) [Fin r] = [0%Z])
  /\ (r = t -> holes_input (Fin t) [Fin r] = [0%Z])
  /\ (t < r -> holes_input (Fin t) [Fin r] = [2%Z]).
Proof.
  intro Ht. unfold holes_input. rewrite binarize_map. cbn [map flt fgt].
  repeat split; intro Hr.
  - rewrite (Rltb_true r t Hr). cbn [flt]. rewrite (Rltb_false t 0) by lra.
    rewrite astype_uint8_small by lra. reflexivity.
  - subst r. rewrite (Rltb_false t t) by lra. cbn [flt].
    rewrite (Rltb_false t t) by lra. rewrite astype_uint8_small by lra. reflexivity.
  - rewrite (Rltb_false r t) by lra. cbn [flt]. rewrite (Rltb_true t r Hr).
    rewrite astype_uint8_one. reflexivity.
Qed.

(** The last binarisation leaves only 0 and 1, whatever integers the filters
    return. *)
Lemma binarize_int_values (t : R) (a : list Z) (v : Z) :
  0 < t < 1 -> In v (binarize_int (Fin t) a) -> v = 0%Z \/ v = 1%Z.
Proof.
  intros Ht Hv. rewrite binarize_int_map in Hv. apply in_map_iff in Hv.
  destruct Hv as (x & <- & _). cbv zeta. cbn [flt fgt].
  destruct (Z_lt_dec x 1) as [Hx|Hx].
  - assert (IZR x <= 0) by (apply (IZR_le x 0); lia).
    rewrite (Rltb_true (IZR x) t) by lra.
    rewrite (Rltb_false t (IZR 0)) by (simpl; lra). now left.
  - assert (1 <= IZR x) by (apply (IZR_le 1 x); lia).
    rewrite (Rltb_false (IZR x) t) by lra.
    rewrite (Rltb_true t (IZR x)) by lra. now right.
Qed.

Lemma In_firstn {A : Type} (n : nat) (l : list A) (y : A) :
  In y (firstn n l) -> In y l.
Proof.
  intro Hy. rewrite <- (firstn_skipn n l). apply in_or_app. now left.
Qed.

Lemma In_skipn {A : Type} (n : nat) (l : list A) (y : A) :
  In y (skipn n l) -> In y l.
Proof.
  intro Hy. rewrite <- (firstn_skipn n l). apply in_or_app. now right.
Qed.

Lemma chunks_fuel_In {A : Type} (n fuel : nat) (l b : list A) (y : A) :
  In b (chunks_fuel fuel n l) -> In y b -> In y l.
Proof.
  revert l. induction fuel as [|f IH]; intros l Hb Hy; [destruct Hb|].
  destruct l as [|x l]; [destruct Hb|].
  cbn [chunks_fuel] in Hb. destruct Hb as [<-|Hb].
  - apply (In_firstn n). exact Hy.
  - apply (In_skipn n). now apply IH.
Qed.

Lemma crop_In {A : Type} (a : array A) (w h : nat) (y : A) :
  In y (data (crop a w h)) -> In y (data a).
Proof.
  unfold crop. destruct (shape a) as [|d0 [|d1 [|]]]; try (intro; assumption).
  cbn [data]. intro Hy. apply in_flat_map in Hy. destruct Hy as (b & Hb & Hy).
  apply In_firstn in Hb. apply In_firstn in Hy.
  unfold chunks in Hb. now apply (chunks_fuel_In _ _ _ _ _ Hb).
Qed.

Section Mask.

Context `{Collaborators}.

(** Under a threshold of (0, 1) the cleaned mask holds only 0 and 1. *)
Lemma clean_mask_values (est_label : ndarray) (t : R) (w h : nat) (v : Z) :
  0 < t < 1 ->
  In v (data (clean_mask est_label (Fin t) w h)) -> v = 0%Z \/ v = 1%Z.
Proof.
  intros Ht Hv. unfold clean_mask, squeeze in Hv. cbn [data] in Hv.
  apply crop_In in Hv. cbn [data] in Hv.
  exact (binarize_int_values t _ v Ht Hv).
Qed.

(** A map lying on the threshold everywhere is cleaned exactly as the map of
    zeros is: its pixels count as below the threshold. *)
Lemma clean_mask_on_threshold (sh : list nat) (n : nat) (t : R) (w h : nat) :
  0 < t < 1 ->
  clean_mask (mk_ndarray sh (repeat (Fin t) n)) (Fin t) w h
  = clean_mask (mk_ndarray sh (repeat (Fin 0) n)) (Fin t) w h.
Proof.
  intro Ht. unfold clean_mask. cbn [shape data mk_ndarray].
  replace (holes_input (Fin t) (repeat (Fin t) n))
    with (holes_input (Fin t) (repeat (Fin 0) n)); [reflexivity|].
  unfold holes_input. rewrite !binarize_map, !map_map, !map_repeat.
  f_equal. cbv zeta. cbn [flt fgt].
  rewrite (Rltb_true 0 t) by lra. rewrite (Rltb_false t t) by lra.
  cbn [flt]. rewrite (Rltb_false t 0) by lra. rewrite (Rltb_false t t) by lra.
  rewrite !astype_uint8_small by lra. reflexivity.
Qed.

End Mask.

(** ** A map that lies on the threshold *)

Section OnThreshold.

Context `{Collaborators}.

(** The threshold selected for a constant map is the default 0.75, whatever
    the Otsu routine is. *)
Lemma select_threshold_constant (sh : list nat) (c : R) (n : nat) :
  (0 < n)%nat ->
  select_threshold (mk_ndarray sh (repeat (Fin c) n)) = Some (Fin 0.75).
Proof.
  intro Hn. unfold select_threshold. cbn [data mk_ndarray].
  assert (Hne : repeat c n <> []) by (destruct n; [lia | discriminate]).
  rewrite <- (map_repeat c n Fin).
  destruct (np_max_finite _ Hne) as (M & EM & HM & _).
  destruct (np_min_finite _ Hne) as (m & Em & Hm & _).
  apply repeat_spec in HM, Hm. subst M m. rewrite EM, Em.
  cbn [fsub fneg fadd fgt flt]. now rcmp.
Qed.

(** So the constant map 0.75 gets the threshold 0.75 and is cleaned like the
    map of zeros. *)
Lemma constant_map_on_threshold (sh : list nat) (n w h : nat) :
  (0 < n)%nat ->
  select_threshold (mk_ndarray sh (repeat (Fin 0.75) n)) = Some (Fin 0.75)
  /\ clean_mask (mk_ndarray sh (repeat (Fin 0.75) n)) (Fin 0.75) w h
     = clean_mask (mk_ndarray sh (repeat (Fin 0) n)) (Fin 0.75) w h.
Proof.
  intro Hn. split; [now apply select_threshold_constant|].
  apply clean_mask_on_threshold. lra.
Qed.

End OnThreshold.

(** C4.  The binarisation at the threshold 0.75 of the three probabilities
    0.5, 0.75 and 0.9: the pixel below the threshold becomes 0 and the pixel
    above it 1, but the pixel equal to the threshold is left at 0.75 by both
    assignments, and reaches [remove_small_holes] as 0, not as foreground. *)
Theorem binarize_at_threshold :
  binarize (Fin 0.75) [Fin 0.5; Fin 0.75; Fin 0.9] = [Fin 0; Fin 0.75; Fin 1]
  /\ holes_input (Fin 0.75) [Fin 0.5; Fin 0.75; Fin 0.9] = [0; 0; 2]%Z.
Proof.
  assert (Hb : binarize (Fin 0.75) [Fin 0.5; Fin 0.75; Fin 0.9]
               = [Fin 0; Fin 0.75; Fin 1]).
  { rewrite binarize_map. cbn [map flt fgt]. rcmp. cbn [flt]. rcmp. reflexivity. }
  split; [exact Hb|].
  unfold holes_input. rewrite Hb. cbn [map].
  rewrite (astype_uint8_small 0) by lra.
  rewrite (astype_uint8_small 0.75) by lra.
  rewrite astype_uint8_one. reflexivity.
Qed.

(** ** Vectors along the last axis *)

Lemma chunks_fuel_length {A : Type} (n : nat) :
  (0 < n)%nat ->
  forall (c fuel : nat) (l : list A),
    length l = (c * n)%nat -> (length l <= fuel)%nat ->
    length (chunks_fuel fuel n l) = c.
Proof.
  intros Hn c. induction c as [|c IH]; intros fuel l Hl Hf.
  - destruct l; [|simpl in Hl; lia]. destruct fuel; reflexivity.
  - destruct l as [|x l]; [simpl in Hl; lia|].
    destruct fuel as [|fuel]; [simpl in Hf; lia|].
    cbn [chunks_fuel length]. f_equal. apply IH.
    + rewrite length_skipn. rewrite Hl. simpl. lia.
    + rewrite length_skipn. simpl length in *. lia.
Qed.

Lemma chunks_length {A : Type} (n c : nat) (l : list A) :
  (0 < n)%nat -> length l = (c * n)%nat -> length (chunks n l) = c.
Proof. intros Hn Hl. unfold chunks. now apply chunks_fuel_length. Qed.

Lemma chunks_fuel_nth {A : Type} (n : nat) :
  (0 < n)%nat ->
  forall (p fuel : nat) (l : list A),
    (length l <= fuel)%nat -> (p * n < length l)%nat ->
    nth p (chunks_fuel fuel n l) [] = firstn n (skipn (p * n) l).
Proof.
  intros Hn p. induction p as [|p IH]; intros fuel l Hf Hp.
  - destruct l as [|x l]; [simpl in Hp; lia|].
    destruct fuel as [|fuel]; [simpl in Hf; lia|]. reflexivity.
  - destruct l as [|x l]; [simpl in Hp; lia|].
    destruct fuel as [|fuel]; [simpl in Hf; lia|].
    cbn [chunks_fuel nth]. rewrite IH.
    + rewrite skipn_skipn. f_equal. f_equal. simpl. lia.
    + rewrite length_skipn. simpl length in *. lia.
    + rewrite length_skipn. simpl in Hp. simpl length. lia.
Qed.

Lemma chunks_nth {A : Type} (n p : nat) (l : list A) :
  (0 < n)%nat -> (p * n < length l)%nat ->
  nth p (chunks n l) [] = firstn n (skipn (p * n) l).
Proof. intros Hn Hp. unfold chunks. now apply chunks_fuel_nth. Qed.

Lemma chunks_fuel_firstn {A : Type} (n fuel : nat) (l : list A) :
  flat_map (firstn n) (chunks_fuel fuel n l) = concat (chunks_fuel fuel n l).
Proof.
  revert l. induction fuel as [|f IH]; intro l; [reflexivity|].
  destruct l as [|x l]; [reflexivity|].
  cbn [chunks_fuel flat_map concat]. rewrite IH. f_equal.
  rewrite firstn_firstn. now rewrite Nat.min_id.
Qed.

(** Cropping a [w] by [h] array to [w] by [h] changes nothing. *)
Lemma crop_full {A : Type} (a : array A) (w h : nat) :
  shape a = [w; h] -> length (data a) = (w * h)%nat ->
  crop a w h = mk_array [w; h] (data a).
Proof.
  intros Hsh Hl. unfold crop. rewrite Hsh, !Nat.min_id. f_equal.
  destruct h as [|h'].
  - rewrite Nat.mul_0_r in Hl. destruct (data a); [|discriminate].
    unfold chunks. cbn [length chunks_fuel]. now rewrite firstn_nil.
  - rewrite firstn_all2 by (rewrite (chunks_length (S h') w); [lia | lia | exact Hl]).
    unfold chunks. rewrite chunks_fuel_firstn. apply chunks_fuel_concat; lia.
Qed.

Lemma sequence_some {A : Type} (L : list (option A)) (R0 : list A) :
  sequence L = Some R0 ->
  length R0 = length L
  /\ forall (p : nat) (d : A), (p < length L)%nat -> nth p L None = Some (nth p R0 d).
Proof.
  revert R0. induction L as [|o L IH]; intros R0 H.
  - injection H as <-. split; [reflexivity|]. intros p d Hp. simpl in Hp. lia.
  - cbn [sequence] in H. destruct o as [x|]; [|discriminate].
    destruct (sequence L) as [r|] eqn:E; [|discriminate].
    injection H as <-. destruct (IH r eq_refl) as [Hl Hn].
    split; [simpl; now rewrite Hl|].
    intros [|p] d Hp; [reflexivity|]. cbn [nth]. apply Hn. simpl in Hp. lia.
Qed.

Lemma sequence_defined {A : Type} (L : list (option A)) :
  (forall o, In o L -> o <> None) -> exists R0, sequence L = Some R0.
Proof.
  induction L as [|o L IH]; intro H; [now exists []|].
  destruct o as [x|]; [|exfalso; apply (H None); [now left | reflexivity]].
  destruct IH as [r Hr]; [intros o Ho; apply H; now right|].
  exists (x :: r). cbn [sequence]. now rewrite Hr.
Qed.

(** ** argmax and max of one vector *)

Lemma argmax_from_range (best : fl) (bi i : nat) (l : list fl) :
  argmax_from best bi i l = bi
  \/ (i <= argmax_from best bi i l < i + length l)%nat.
Proof.
  revert best bi i. induction l as [|x l IH]; intros best bi i; [now left|].
  cbn [argmax_from length]. destruct (isnan best); [now left|].
  destruct (isnan x || fgt x best)%bool.
  - destruct (IH x i (S i)) as [->|Hr]; right; lia.
  - destruct (IH best bi (S i)) as [->|Hr]; [now left | right; lia].
Qed.

Lemma np_argmax_range (v : list fl) (j : nat) :
  np_argmax v = Some j -> (j < length v)%nat.
Proof.
  destruct v as [|x v]; [discriminate|]. cbn [np_argmax length].
  intro Hj. injection Hj as <-.
  destruct (argmax_from_range x 0 1 v) as [->|Hr]; lia.
Qed.

(** On numbers, [argmax] points at the value [max] returns, which bounds
    every entry. *)
Lemma argmax_max_finite (l : list R) (b : R) (bi i : nat) :
  exists m,
    fold_left np_maximum (map Fin l) (Fin b) = Fin m
    /\ b <= m /\ (forall x, In x l -> x <= m)
    /\ ((argmax_from (Fin b) bi i (map Fin l) = bi /\ m = b)
        \/ ((i <= argmax_from (Fin b) bi i (map Fin l) < i + length l)%nat
            /\ nth (argmax_from (Fin b) bi i (map Fin l) - i) l 0 = m)).
Proof.
  revert b bi i. induction l as [|x l IH]; intros b bi i.
  - exists b. cbn [map fold_left argmax_from]. repeat split; [lra | intros ? [] |].
    now left.
  - cbn [map fold_left argmax_from np_maximum isnan orb fgt flt length].
    destruct (Rlt_dec b x) as [Hlt|Hge].
    + rewrite (Rltb_true b x Hlt).
      destruct (IH x i (S i)) as (m & E & Hb & Hall & Hj).
      exists m. split; [exact E|]. split; [lra|]. split.
      * intros y [<-|Hy]; [exact Hb | now apply Hall].
      * right. destruct Hj as [[-> ->]|[Hr Hn]].
        -- split; [lia|]. now rewrite Nat.sub_diag.
        -- split; [lia|].
           replace (argmax_from (Fin x) i (S i) (map Fin l) - i)%nat
             with (S (argmax_from (Fin x) i (S i) (map Fin l) - S i)) by lia.
           exact Hn.
    + rewrite (Rltb_false b x) by lra.
      destruct (IH b bi (S i)) as (m & E & Hb & Hall & Hj).
      exists m. split; [exact E|]. split; [exact Hb|]. split.
      * intros y [<-|Hy]; [lra | now apply Hall].
      * destruct Hj as [[-> ->]|[Hr Hn]]; [now left|]. right.
        split; [lia|].
        replace (argmax_from (Fin b) bi (S i) (map Fin l) - i)%nat
          with (S (argmax_from (Fin b) bi (S i) (map Fin l) - S i)) by lia.
        exact Hn.
Qed.

Lemma np_argmax_max_finite (rs : list R) (j : nat) :
  np_argmax (map Fin rs) = Some j ->
  np_max (map Fin rs) = Some (Fin (nth j rs 0))
  /\ (forall x, In x rs -> x <= nth j rs 0).
Proof.
  destruct rs as [|a rs]; [discriminate|]. cbn [map np_argmax np_max].
  intro Hj. injection Hj as <-.
  destruct (argmax_max_finite rs a 0 1) as (m & E & Hb & Hall & Hj).
  rewrite E. destruct Hj as [[-> ->]|[Hr Hn]].
  - split; [reflexivity|]. intros x [<-|Hx]; [cbn [nth]; lra | now apply Hall].
  - set (j := argmax_from (Fin a) 0 1 (map Fin rs)) in *.
    replace j with (S (j - 1)) by lia. cbn [nth]. rewrite Hn.
    split; [reflexivity|]. intros x [<-|Hx]; [exact Hb | now apply Hall].
Qed.

(** ** The size of the maximum filter *)

Lemma filter_size_div (w K : Z) :
  (0 <= w)%Z -> (0 < K)%Z -> filter_size w K = (w / (2 * K))%Z.
Proof.
  intros Hw HK. unfold filter_size, py_int.
  destruct K as [|k|k]; try lia.
  cbn [Qdiv Qmult Qinv inject_Z Qnum Qden].
  rewrite !Z.mul_1_r, Pos.mul_1_l.
  rewrite Z.quot_div_nonneg by lia. reflexivity.
Qed.

Lemma chunks_fuel_nonempty {A : Type} (n fuel : nat) (l c : list A) :
  (0 < n)%nat -> In c (chunks_fuel fuel n l) -> c <> [].
Proof.
  intro Hn. revert l. induction fuel as [|f IH]; intros l Hc; [destruct Hc|].
  destruct l as [|x l]; [destruct Hc|].
  cbn [chunks_fuel] in Hc. destruct Hc as [<-|Hc]; [|now apply (IH _ Hc)].
  destruct n; [lia|]. discriminate.
Qed.

Lemma stand_in_resize_shape (a : ndarray) (w h : nat) :
  shape (stand_in_resize a w h) = w :: h :: skipn 2 (shape a)
  /\ well_shaped (stand_in_resize a w h).
Proof.
  split; [reflexivity|]. unfold well_shaped, stand_in_resize.
  cbn [data shape mk_ndarray]. rewrite length_firstn, length_app, repeat_length. lia.
Qed.

(** ** The multiclass decision *)

Lemma nth_map_default {A B : Type} (f : A -> B) (l : list A) (p : nat) (d : A) (e : B) :
  f d = e -> nth p (map f l) e = f (nth p l d).
Proof. intros <-. apply map_nth. Qed.

(** [est_label[:,:,k]] holds at pixel [p] the element [p * K + k] of the
    flattened array: the values of one class, and of that class only. *)
Lemma channel_element (K k p : nat) (a : ndarray) :
  (k < K)%nat -> (p * K + k < length (data a))%nat ->
  nth p (data (channel K k a)) NaN = nth (p * K + k) (data a) NaN.
Proof.
  intros Hk Hp. unfold channel. cbn [data mk_ndarray].
  rewrite (nth_map_default (fun v => nth k v NaN) _ p [] NaN)
    by (destruct k; reflexivity).
  rewrite chunks_nth by lia.
  rewrite nth_firstn. replace (k <? K)%nat with true by (symmetry; apply Nat.ltb_lt; lia).
  now rewrite nth_skipn.
Qed.

(** In a list of blocks of one length, element [k] of block [p] is at
    position [p * n + k]. *)
Lemma flat_map_block_nth {A B : Type} (f : A -> list B) (n : nat) :
  (forall x, length (f x) = n) ->
  forall (L : list A) (p k : nat) (d : B) (a0 : A),
    (p < length L)%nat -> (k < n)%nat ->
    nth (p * n + k) (flat_map f L) d = nth k (f (nth p L a0)) d.
Proof.
  intros Hf L. induction L as [|a L IH]; intros p k d a0 Hp Hk; [cbn in Hp; lia|].
  cbn [flat_map]. destruct p as [|p].
  - cbn [Nat.mul Nat.add nth]. apply app_nth1. now rewrite Hf.
  - rewrite app_nth2 by (rewrite Hf; cbn; lia). rewrite Hf.
    replace (S p * n + k - n)%nat with (p * n + k)%nat by (cbn; lia).
    cbn [nth]. apply IH; [cbn in Hp; lia | exact Hk].
Qed.

Section Multiclass.

Context `{Collaborators}.

(** C8.  In the multiclass path, for an [H0 x W0 x K] network output: each
    of the [K] class channels is passed on its own through the maximum
    filter of size [w/(2K)] (integer quotient); channel [k] is the
    [H0 x W0] array holding at pixel [p] the element [p * K + k] of the
    output, the value of class [k] and of no other class.  The filtered
    channels are stacked, pixel [p] of the stack holding at position [k] the
    value of the filtered channel [k] at [p], and the stack is resized to
    [w x h]; and then at every pixel the label is the
    argmax and the confidence the max of the [K] resized values, a NaN or
    infinite maximum being replaced by 0.  Where the [K] values are numbers,
    the confidence is the value of the labelled class and bounds the values
    of all classes.  The filter and the resize are assumed to return arrays
    of the expected shapes. *)
Theorem multiclass_decision_pixels (est_label : ndarray) (H0 W0 K w h : nat) :
  (0 < K)%nat ->
  shape est_label = [H0; W0; K] ->
  (forall a s, shape (maximum_filter a s) = shape a) ->
  (forall a, shape (resize a w h) = w :: h :: skipn 2 (shape a)
             /\ well_shaped (resize a w h)) ->
  let size := (Z.of_nat w / (2 * Z.of_nat K))%Z in
  let E := map (fun k => maximum_filter (channel K k est_label) size) (seq 0 K) in
  (forall k, (k < K)%nat ->
     shape (channel K k est_label) = [H0; W0]
     /\ forall p, (p * K + k < length (data est_label))%nat ->
          nth p (data (channel K k est_label)) NaN
          = nth (p * K + k) (data est_label) NaN)
  /\ exists st0 labels conf,
    dstack E = Some st0
    /\ shape st0 = [H0; W0; K]
    /\ (forall p k,
          (p < length (data (maximum_filter (channel K 0 est_label) size)))%nat ->
          (k < K)%nat ->
          nth (p * K + k) (data st0) NaN
          = nth p (data (maximum_filter (channel K k est_label) size)) NaN)
    /\ multiclass_decision est_label K w h = Some (resize st0 w h, labels, conf)
    /\ length (data labels) = (w * h)%nat
    /\ length (data conf) = (w * h)%nat
    /\ forall p, (p < w * h)%nat ->
         let v := firstn K (skipn (p * K) (data (resize st0 w h))) in
         let label := nth p (data labels) 0%nat in
         let c := nth p (data conf) NaN in
         np_argmax v = Some label
         /\ (label < K)%nat
         /\ (exists m, np_max v = Some m /\ c = if isfinite m then m else Fin 0)
         /\ (forall rs, v = map Fin rs ->
               c = Fin (nth label rs 0) /\ forall x, In x rs -> x <= nth label rs 0).
Proof.
  intros HK Hsh Hmf Hrs size E.
  (* the stack of the filtered channels *)
  assert (HE : forall e, In e E -> shape e = [H0; W0]).
  { intros e He. apply in_map_iff in He. destruct He as (k & <- & _).
    rewrite Hmf. unfold channel. cbn [shape mk_ndarray]. now rewrite Hsh. }
  assert (Hd : exists st0, dstack E = Some st0 /\ shape st0 = [H0; W0; K]
               /\ data st0
                  = flat_map (pixel_vector E)
                      (seq 0 (length (data (maximum_filter (channel K 0 est_label)
                                                           size))))).
  { unfold E in *. destruct K as [|K']; [lia|]. cbn [seq map] in *.
    rewrite (dstack_same_shape _ _ H0 W0 HE). eexists. split; [reflexivity|].
    cbn [shape data mk_ndarray length].
    split; [now rewrite length_map, length_seq | reflexivity]. }
  destruct Hd as (st0 & Hst0 & Hsh0 & Hdat0).
  destruct (Hrs st0) as [Hrsh Hws]. rewrite Hsh0 in Hrsh. cbn [skipn] in Hrsh.
  set (st := resize st0 w h) in *.
  assert (Hlen : length (data st) = (w * h * K)%nat).
  { unfold well_shaped in Hws. rewrite Hws, Hrsh. cbn [size_of fold_right]. lia. }
  assert (Hla : last_axis st = chunks K (data st)).
  { unfold last_axis. now rewrite Hrsh. }
  assert (Hcn : length (chunks K (data st)) = (w * h)%nat)
    by (apply chunks_length; assumption).
  assert (Hne : forall c, In c (chunks K (data st)) -> c <> []).
  { intros c Hc. unfold chunks in Hc. now apply (chunks_fuel_nonempty K _ _ c HK Hc). }
  destruct (sequence_defined (map np_max (chunks K (data st)))) as [conf0 Hconf].
  { intros o Ho. apply in_map_iff in Ho. destruct Ho as (c & <- & Hc).
    pose proof (Hne c Hc). destruct c; [congruence | discriminate]. }
  destruct (sequence_defined (map np_argmax (chunks K (data st)))) as [lab0 Hlab].
  { intros o Ho. apply in_map_iff in Ho. destruct Ho as (c & <- & Hc).
    pose proof (Hne c Hc). destruct c; [congruence | discriminate]. }
  destruct (sequence_some _ _ Hconf) as [Hcl Hcn'].
  destruct (sequence_some _ _ Hlab) as [Hll Hln].
  rewrite length_map, Hcn in Hcl, Hll.
  assert (Hcrop : crop (mk_array [w; h] lab0) w h = mk_array [w; h] lab0)
    by (apply crop_full; [reflexivity | exact Hll]).
  split.
  { intros k Hk. split.
    - unfold channel. cbn [shape mk_ndarray]. now rewrite Hsh.
    - intros p Hp. now apply channel_element. }
  exists st0, (squeeze (mk_array [w; h] lab0)), (mk_ndarray [w; h] (zero_nonfinite conf0)).
  split; [exact Hst0|]. split; [exact Hsh0|]. split.
  { intros p k Hp Hk. rewrite Hdat0.
    rewrite (flat_map_block_nth (pixel_vector E) K) with (a0 := 0%nat);
      [ | intro x; unfold pixel_vector, E; now rewrite !length_map, length_seq
        | now rewrite length_seq | exact Hk ].
    rewrite seq_nth by exact Hp. cbn [Nat.add]. unfold pixel_vector.
    rewrite (nth_map_lt _ E k (mk_ndarray [] []) NaN)
      by (unfold E; now rewrite length_map, length_seq).
    unfold E. rewrite (nth_map_lt _ (seq 0 K) k 0%nat) by now rewrite length_seq.
    now rewrite seq_nth by exact Hk. }
  split.
  { unfold multiclass_decision.
    rewrite (filter_size_div (Z.of_nat w) (Z.of_nat K)) by lia.
    fold size. fold E. rewrite Hst0. fold st. rewrite Hla, Hconf, Hlab, Hrsh.
    unfold drop_last_axis. cbn [removelast]. now rewrite Hcrop. }
  split; [exact Hll|]. split.
  { cbn [data mk_ndarray]. rewrite zero_nonfinite_map, length_map. exact Hcl. }
  intros p Hp v label c.
  assert (HpK : (p * K < length (data st))%nat) by (rewrite Hlen; nia).
  assert (Hv : nth p (chunks K (data st)) [] = v) by (now apply chunks_nth).
  assert (Hpl : (p < length (map np_argmax (chunks K (data st))))%nat)
    by (rewrite length_map; lia).
  assert (Hpc : (p < length (map np_max (chunks K (data st))))%nat)
    by (rewrite length_map; lia).
  pose proof (Hln p 0%nat Hpl) as Hlp.
  pose proof (Hcn' p NaN Hpc) as Hcp.
  change None with (np_argmax []) in Hlp. rewrite map_nth, Hv in Hlp.
  change (@None fl) with (np_max []) in Hcp. rewrite map_nth, Hv in Hcp.
  assert (Hc : c = if isfinite (nth p conf0 NaN) then nth p conf0 NaN else Fin 0).
  { unfold c. cbn [data mk_ndarray]. rewrite zero_nonfinite_map.
    now rewrite (nth_map_lt _ conf0 p NaN NaN) by lia. }
  assert (Hlabel : label = nth p lab0 0%nat) by reflexivity.
  rewrite <- Hlabel in Hlp.
  split; [exact Hlp|]. split.
  { pose proof (np_argmax_range v label Hlp) as Hr.
    assert (length v <= K)%nat by (unfold v; apply firstn_le_length). lia. }
  split.
  { exists (nth p conf0 NaN). now split. }
  intros rs Hrs'. rewrite Hrs' in Hlp, Hcp.
  destruct (np_argmax_max_finite rs label Hlp) as [Hmax Hall].
  rewrite Hmax in Hcp. injection Hcp as Hcp. split; [|exact Hall].
  rewrite Hc, <- Hcp. reflexivity.
Qed.

End Multiclass.

Lemma multiclass_decision_pixels_witness :
  exists st0 labels conf,
    @multiclass_decision stand_in
      (mk_ndarray [1; 1; 2]%nat [Fin 0.25; Fin 0.75]) 2 1 1
    = Some (@resize stand_in st0 1 1, labels, conf)
    /\ length (data labels) = 1%nat.
Proof.
  destruct (@multiclass_decision_pixels stand_in
              (mk_ndarray [1; 1; 2]%nat [Fin 0.25; Fin 0.75]) 1 1 2 1 1)
    as (_ & st0 & labels & conf & _ & _ & _ & Hm & Hl & _).
  - lia.
  - reflexivity.
  - intros a s. reflexivity.
  - intro a. apply stand_in_resize_shape.
  - exists st0, labels, conf. split; [exact Hm | exact Hl].
Defined.

(** ** The per-file loop *)

Lemma bind_ok {A B : Type} (m : M A) (k : A -> M B) (w w' : world) (b : B) :
  bind m k w = (Ok b, w') ->
  exists a w1, m w = (Ok a, w1) /\ k a w1 = (Ok b, w').
Proof.
  unfold bind. destruct (m w) as [[a|e] w1]; intro Hb; [|discriminate].
  now exists a, w1.
Qed.

Lemma read_file_ok (path : string) (w w' : world) (b : bool) :
  read_file path w = (Ok b, w') -> w' = w.
Proof.
  unfold read_file. destruct (lookup path (disk w)); intro E; [|discriminate].
  now injection E as _ <-.
Qed.

Lemma decode_ok (j p : bool) (path var : string) (bits : bool) (w w' : world) :
  decode j p path var bits w = (Ok tt, w') -> w' = w.
Proof.
  unfold decode, ret, raise. destruct (j || p)%bool; [|discriminate].
  destruct bits; [|discriminate]. intro E. now injection E as <-.
Qed.

(** Loading an image reads the disk and leaves the world as it was. *)
Lemma load_ok (cfg : config) (f : string) (w w' : world) :
  load cfg f w = (Ok tt, w') -> w' = w.
Proof.
  unfold load, seg_file2tensor_3band, seg_file2tensor_4band.
  destruct (N_DATA_BANDS cfg <=? 3)%Z; intro E.
  - apply bind_ok in E. destruct E as (b & w1 & E1 & E2).
    apply read_file_ok in E1. apply decode_ok in E2. congruence.
  - apply bind_ok in E. destruct E as (b & w1 & E1 & E2).
    apply bind_ok in E2. destruct E2 as ([] & w2 & E2 & E3).
    apply bind_ok in E3. destruct E3 as (b' & w3 & E3 & E4).
    apply read_file_ok in E1, E3. apply decode_ok in E2, E4. congruence.
Qed.

Lemma numeric_stage_ok (nr : string -> bool) (f : string) (w w' : world) :
  numeric_stage nr f w = (Ok tt, w') -> w' = w.
Proof.
  unfold numeric_stage, ret, raise. destruct (nr f); [discriminate|].
  intro E. now injection E as <-.
Qed.

Lemma segfile_of_ok (cfg : config) (f s : string) (w w' : world) :
  segfile_of cfg f w = (Ok s, w') ->
  w' = w /\ s = out_name cfg f "_predseg.png" "masks"
  /\ (contains "jpg" f || contains "png" f)%bool = true.
Proof.
  unfold segfile_of, ret, raise.
  destruct (contains "jpg" f || contains "png" f)%bool; [|discriminate].
  intro E. injection E as <- <-. auto.
Qed.

(** The loop stops at the first body that raises. *)
Lemma for_each_raises (body : string -> M unit) (pre post : list string)
  (f : string) (w w1 w2 : world) (e : exn) :
  for_each body pre w = (Ok tt, w1) ->
  body f w1 = (Raised e, w2) ->
  for_each body (pre ++ f :: post) w = (Raised e, w2).
Proof.
  revert w. induction pre as [|g pre IH]; intros w Hpre Hf.
  - cbn [for_each ret] in Hpre. injection Hpre as <-.
    cbn [app for_each]. unfold bind. now rewrite Hf.
  - cbn [app for_each] in *. unfold bind in *.
    destruct (body g w) as [[[]|e'] w']; [|discriminate].
    now apply IH.
Qed.

(** A sample whose companion near-infrared file is missing: the body raises
    [NotFoundError] for that file, having only announced the sample. *)
Lemma process_file_missing_nir (nr : string -> bool) (cfg : config) (f : string)
  (w : world) :
  (3 < N_DATA_BANDS cfg)%Z ->
  (contains "jpg" f || contains "png" f)%bool = true ->
  lookup (out_name cfg f "_predseg.png" "masks") (disk w) = None ->
  lookup f (disk w) = Some true ->
  lookup (replace "aug_images" "aug_nir" f) (disk w) = None ->
  process_file nr cfg f w
  = (Raised (NotFoundError (replace "aug_images" "aug_nir" f)),
     mk_world (disk w)
              (trace w ++ [Printed "does not exist ... creating"
                                 (out_name cfg f "_predseg.png" "masks")])).
Proof.
  intros Hb Hext Hseg Hf Hnir.
  assert (Hload : forall w0, disk w0 = disk w ->
            load cfg f w0
            = (Raised (NotFoundError (replace "aug_images" "aug_nir" f)), w0)).
  { intros w0 Hd. unfold load. rewrite (proj2 (Z.leb_gt _ _) Hb).
    unfold seg_file2tensor_4band, bind, read_file, decode, ret.
    rewrite Hd, Hf, Hext. cbv beta iota. rewrite Hd, Hnir. reflexivity. }
  unfold process_file.
  destruct (NCLASSES cfg =? 1)%Z;
    unfold process_binary, process_multiclass, bind, segfile_of, exists_, emit, ret;
    rewrite Hext; cbn [disk trace]; rewrite Hseg; cbn [disk trace];
    rewrite Hload by reflexivity; reflexivity.
Qed.

(** C5, as amended.  Nothing in the loop catches a failure of a file.  Once
    the files before [f] are processed: if the processing of [f] raises, the
    whole run ends with that exception, in the world the failing body left,
    whatever files [post] were still to come; in particular, if [f] is a
    four-band sample whose companion near-infrared file is missing, the run
    ends with [NotFoundError] for that file, and all the body of [f] has
    added to the trace is the line announcing the sample: no report of the
    failure, nothing about the files of [post]. *)
Theorem run_stops_at_first_failure (nr : string -> bool) (cfg : config)
  (pre post : list string) (f : string) (w w1 : world) :
  run nr cfg pre w = (Ok tt, w1) ->
  (forall e w2,
      process_file nr cfg f w1 = (Raised e, w2) ->
      run nr cfg (pre ++ f :: post) w = (Raised e, w2))
  /\ ((3 < N_DATA_BANDS cfg)%Z ->
      (contains "jpg" f || contains "png" f)%bool = true ->
      lookup (out_name cfg f "_predseg.png" "masks") (disk w1) = None ->
      lookup f (disk w1) = Some true ->
      lookup (replace "aug_images" "aug_nir" f) (disk w1) = None ->
      run nr cfg (pre ++ f :: post) w
      = (Raised (NotFoundError (replace "aug_images" "aug_nir" f)),
         mk_world (disk w1)
                  (trace w1 ++ [Printed "does not exist ... creating"
                                        (out_name cfg f "_predseg.png" "masks")]))).
Proof.
  intro Hpre. split.
  - intros e w2 Hf. unfold run in *. now apply (for_each_raises _ pre post f w w1 w2 e).
  - intros Hb Hext Hseg Hf Hnir. unfold run in *.
    apply (for_each_raises _ pre post f w w1 _ _ Hpre).
    now apply process_file_missing_nir.
Qed.

Lemma run_stops_at_first_failure_witness :
  exists w2,
    run (fun _ => false) example_config
        (["data/aug_images/a.jpg"%string]
           ++ "data/aug_images/b.jpg"%string :: ["data/aug_images/c.jpg"%string])%list
        example_world
    = (Raised (NotFoundError "data/aug_nir/b.jpg"), w2).
Proof.
  eexists.
  apply (proj2 (run_stops_at_first_failure (fun _ => false) example_config
                  ["data/aug_images/a.jpg"%string] ["data/aug_images/c.jpg"%string]
                  "data/aug_images/b.jpg" example_world
                  (snd (run (fun _ => false) example_config
                            ["data/aug_images/a.jpg"%string] example_world))
                  ltac:(vm_compute; reflexivity))).
  - reflexivity.
  - vm_compute. reflexivity.
  - vm_compute. reflexivity.
  - vm_compute. reflexivity.
  - vm_compute. reflexivity.
Defined.

(** C5 as stated fails: with the companion file of the second sample
    missing, the run ends with the exception; the first sample has its mask,
    the third sample has none, and the trace holds no report of the failure
    and nothing at all about the third sample. *)
Lemma run_missing_nir_counterexample :
  let r := run (fun _ => false) example_config example_files example_world in
  fst r = Raised (NotFoundError "data/aug_nir/b.jpg")
  /\ lookup "data/aug_images/masks/a_predseg.png" (disk (snd r)) = Some true
  /\ lookup "data/aug_images/masks/c_predseg.png" (disk (snd r)) = None
  /\ filter (fun e => match e with Printed _ _ => true | _ => false end) (trace (snd r))
     = [Printed "does not exist ... creating" "data/aug_images/masks/a_predseg.png";
        Printed "done" "data/aug_images/a.jpg";
        Printed "does not exist ... creating" "data/aug_images/masks/b_predseg.png"].
Proof. vm_compute. repeat split. Qed.

(** ** The arrays saved for a processed file *)

Lemma exists_false (path : string) (w : world) :
  lookup path (disk w) = None -> exists_ path w = (Ok false, w).
Proof. intro Hl. unfold exists_. now rewrite Hl. Qed.




(** * Properties of the further functions *)

(** ** The metrics *)

Lemma count_true_cons (b : bool) (l : list bool) :
  count_true (b :: l) = ((if b then 1 else 0) + count_true l)%nat.
Proof. unfold count_true. cbn [filter]. destruct b; reflexivity. Qed.

Lemma overlap_le_union (c1 c2 : list bool) :
  (count_true (zip_with andb c1 c2) <= count_true (zip_with orb c1 c2))%nat.
Proof.
  revert c2. induction c1 as [|a c1 IH]; intros [|b c2]; try (cbn; lia).
  cbn [zip_with]. rewrite !count_true_cons. specialize (IH c2).
  destruct a, b; cbn [andb orb]; lia.
Qed.

(** The quotient of overlap by union is NaN or a number of [0,1]. *)
Lemma overlap_quotient (o u : nat) :
  (o <= u)%nat ->
  fdiv (Fin (INR o)) (Fin (INR u)) = NaN
  \/ exists c, fdiv (Fin (INR o)) (Fin (INR u)) = Fin c /\ 0 <= c <= 1.
Proof.
  intro Hou. unfold fdiv. destruct u as [|u'].
  - assert (o = 0%nat) by lia. subst o. cbn [INR]. rcmp. now left.
  - assert (Hu : 0 < INR (S u')) by (apply lt_0_INR; lia).
    rewrite (Reqb_false (INR (S u')) 0) by lra. right.
    exists (INR o / INR (S u')). split; [reflexivity|].
    pose proof (pos_INR o) as Ho. pose proof (le_INR _ _ Hou) as Hle. split.
    + apply Rmult_le_pos; [lra|]. left. now apply Rinv_0_lt_compat.
    + apply (Rmult_le_reg_r (INR (S u'))); [exact Hu|].
      unfold Rdiv. rewrite Rmult_assoc, Rinv_l by lra. lra.
Qed.

Lemma iou_step_calc (obs est : list Z) (n : Z) :
  let calc :=
    fdiv (Fin (INR (count_true (zip_with andb (map (fun v => Z.eqb v n) obs)
                                              (map (fun v => Z.eqb v n) est)))))
         (Fin (INR (count_true (zip_with orb (map (fun v => Z.eqb v n) obs)
                                             (map (fun v => Z.eqb v n) est))))) in
  calc = NaN \/ exists c, calc = Fin c /\ 0 <= c <= 1.
Proof. cbv zeta. apply overlap_quotient, overlap_le_union. Qed.

(** The first turn starts from 0 and cannot exceed 1. *)
Lemma iou_step_first (obs est : list Z) :
  exists r, iou_step obs est (Fin 0) 1 = Fin r /\ 0 <= r <= 1.
Proof.
  unfold iou_step. destruct (iou_step_calc obs est 1) as [E|(c & E & Hc)];
    cbv zeta in E; rewrite E; cbn [isnan negb fadd fgt flt].
  - rewrite (Rltb_false 1 0) by lra. exists 0. split; [reflexivity | lra].
  - rewrite (Rltb_false 1 (0 + c)) by lra. exists (0 + c). split; [reflexivity | lra].
Qed.

(** From the second turn on, a value above 1 is at most 2 and is divided by
    at least 2. *)
Lemma iou_step_later (obs est : list Z) (r : R) (n : Z) :
  0 <= r <= 1 -> (2 <= n)%Z ->
  exists r', iou_step obs est (Fin r) n = Fin r' /\ 0 <= r' <= 1.
Proof.
  intros Hr Hn. assert (Hn' : 2 <= IZR n) by (apply (IZR_le 2 n); exact Hn).
  unfold iou_step. destruct (iou_step_calc obs est n) as [E|(c & E & Hc)];
    cbv zeta in E; rewrite E; cbn [isnan negb fadd fgt flt].
  - rewrite (Rltb_false 1 r) by lra. now exists r.
  - destruct (Rlt_dec 1 (r + c)) as [Hgt|Hle].
    + rewrite (Rltb_true _ _ Hgt). unfold fdiv. rewrite (Reqb_false (IZR n) 0) by lra.
      exists ((r + c) / IZR n). split; [reflexivity|]. split.
      * apply Rmult_le_pos; [lra|]. left. apply Rinv_0_lt_compat. lra.
      * apply (Rmult_le_reg_r (IZR n)); [lra|].
        unfold Rdiv. rewrite Rmult_assoc, Rinv_l by lra. lra.
    + rewrite (Rltb_false 1 (r + c)) by lra. exists (r + c). split; [reflexivity | lra].
Qed.

Lemma iou_fold_later (obs est : list Z) (k : nat) :
  forall (start : nat) (r : R),
    (2 <= start)%nat -> 0 <= r <= 1 ->
    exists r', fold_left (iou_step obs est) (map Z.of_nat (seq start k)) (Fin r) = Fin r'
               /\ 0 <= r' <= 1.
Proof.
  induction k as [|k IH]; intros start r Hs Hr.
  - now exists r.
  - cbn [seq map fold_left].
    destruct (iou_step_later obs est r (Z.of_nat start) Hr) as (r1 & E & Hr1); [lia|].
    rewrite E. apply IH; [lia | exact Hr1].
Qed.

(** X1.  Whatever the two label arrays and the number of classes, [iou]
    returns a number between 0 and 1: the running value never leaves that
    interval, and a class absent from both arrays (quotient 0/0) is left
    out. *)
Theorem iou_in_unit_interval (obs est : list Z) (nclasses : nat) :
  exists r, iou obs est nclasses = Fin r /\ 0 <= r <= 1.
Proof.
  unfold iou. destruct nclasses as [|k].
  - exists 0. split; [reflexivity | lra].
  - cbn [seq map fold_left].
    destruct (iou_step_first obs est) as (r1 & E & Hr1).
    change (Z.of_nat 1) with 1%Z. rewrite E.
    apply iou_fold_later; [lia | exact Hr1].
Qed.
Lemma zip_same_and (c : list bool) : zip_with andb c c = c.
Proof. induction c as [|b c IH]; [reflexivity|]. cbn [zip_with]. rewrite IH. now destruct b. Qed.

Lemma zip_same_or (c : list bool) : zip_with orb c c = c.
Proof. induction c as [|b c IH]; [reflexivity|]. cbn [zip_with]. rewrite IH. now destruct b. Qed.

Lemma count_true_present (l : list Z) (n : Z) :
  In n l -> (0 < count_true (map (fun v => Z.eqb v n) l))%nat.
Proof.
  induction l as [|x l IH]; intro H; [destruct H|].
  cbn [map]. rewrite count_true_cons. destruct H as [->|H].
  - rewrite Z.eqb_refl. lia.
  - specialize (IH H). lia.
Qed.

(** A turn of the loop on two identical arrays in which class [n] occurs: 1
    is added, and a sum above 1 is divided by [n]. *)
Lemma iou_step_identical (l : list Z) (r : R) (n : Z) :
  In n l -> (0 < n)%Z ->
  iou_step l l (Fin r) n
  = if Rltb 1 (r + 1) then Fin ((r + 1) / IZR n) else Fin (r + 1).
Proof.
  intros Hin Hn. unfold iou_step. rewrite zip_same_and, zip_same_or.
  pose proof (count_true_present l n Hin) as Hc.
  set (c := count_true _) in *.
  assert (HR : 0 < INR c) by (apply lt_0_INR; exact Hc).
  assert (E : fdiv (Fin (INR c)) (Fin (INR c)) = Fin 1).
  { unfold fdiv. rewrite (Reqb_false (INR c) 0) by lra. apply Fin_eq. field. lra. }
  rewrite E. cbn [isnan negb fadd fgt flt].
  destruct (Rltb 1 (r + 1)); [|reflexivity].
  unfold fdiv. assert (0 < IZR n) by (apply (IZR_lt 0 n); exact Hn).
  now rewrite (Reqb_false (IZR n) 0) by lra.
Qed.

(** X2.  Two identical label arrays in which the classes 1, 2 and 3 all
    occur get the score 2/3 from [iou] with three classes, not 1: the sum 2
    reached at the third class is divided by 3. *)
Theorem iou_identical_three_classes (l : list Z) :
  In 1%Z l -> In 2%Z l -> In 3%Z l -> iou l l 3 = Fin (2 / 3).
Proof.
  intros H1 H2 H3. unfold iou. cbn [seq map fold_left].
  change (Z.of_nat 1) with 1%Z. change (Z.of_nat 2) with 2%Z.
  change (Z.of_nat 3) with 3%Z.
  rewrite (iou_step_identical l 0 1 H1) by lia.
  rewrite (Rltb_false 1 (0 + 1)) by lra.
  rewrite (iou_step_identical l (0 + 1) 2 H2) by lia.
  rewrite (Rltb_true 1 (0 + 1 + 1)) by lra.
  rewrite (iou_step_identical l ((0 + 1 + 1) / 2) 3 H3) by lia.
  rewrite (Rltb_true 1 ((0 + 1 + 1) / 2 + 1)) by lra.
  apply Fin_eq. lra.
Qed.

Lemma iou_identical_three_classes_witness :
  iou [1; 2; 3; 0]%Z [1; 2; 3; 0]%Z 3 = Fin (2 / 3).
Proof.
  apply (iou_identical_three_classes [1; 2; 3; 0]%Z); simpl; tauto.
Defined.

Lemma zip_fmul_finite (a b : list R) :
  zip_with fmul (map Fin a) (map Fin b) = map Fin (zip_with Rmult a b).
Proof.
  revert b. induction a as [|x a IH]; intros [|y b]; try reflexivity.
  cbn [map zip_with fmul]. now rewrite IH.
Qed.

Lemma np_sum_finite (l : list R) : np_sum (map Fin l) = Fin (Rsum l).
Proof. unfold np_sum. rewrite fold_fadd_finite. apply Fin_eq. lra. Qed.

Lemma Rsum_cons (x : R) (l : list R) : Rsum (x :: l) = x + Rsum l.
Proof. reflexivity. Qed.

(** For two arrays of one length with entries in [0,1], twice the sum of
    the products is at most the sum of the sums. *)
Lemma product_sum_bound (a b : list R) :
  length a = length b ->
  (forall x, In x a -> 0 <= x <= 1) -> (forall y, In y b -> 0 <= y <= 1) ->
  0 <= Rsum (zip_with Rmult a b)
  /\ 2 * Rsum (zip_with Rmult a b) <= Rsum a + Rsum b
  /\ 0 <= Rsum a /\ 0 <= Rsum b.
Proof.
  revert b. induction a as [|x a IH]; intros [|y b] Hl Ha Hb; try discriminate.
  - cbn. lra.
  - cbn [zip_with]. rewrite !Rsum_cons.
    assert (Hx : 0 <= x <= 1) by (apply Ha; now left).
    assert (Hy : 0 <= y <= 1) by (apply Hb; now left).
    destruct (IH b) as (H1 & H2 & H3 & H4).
    + simpl in Hl. lia.
    + intros z Hz. apply Ha. now right.
    + intros z Hz. apply Hb. now right.
    + assert (0 <= x * y) by (apply Rmult_le_pos; lra).
      assert (x * y <= x) by nra. assert (x * y <= y) by nra. lra.
Qed.

Lemma binary_square_sum (a : list R) :
  (forall x, In x a -> x = 0 \/ x = 1) -> Rsum (zip_with Rmult a a) = Rsum a.
Proof.
  induction a as [|x a IH]; intro H; [reflexivity|].
  cbn [zip_with]. rewrite !Rsum_cons, IH by (intros z Hz; apply H; now right).
  destruct (H x (or_introl eq_refl)) as [->| ->]; lra.
Qed.

(** X3.  On two tensors of one size with entries in [0,1], [dice_coef] is a
    number in (0,1]: the smoothing term keeps the denominator at 1 or more,
    so nothing is divided by zero, also when both tensors are all zero.  On
    two identical binary masks it is exactly 1. *)
Theorem dice_coef_bounds (a b : list R) :
  length a = length b ->
  (forall x, In x a -> 0 <= x <= 1) -> (forall y, In y b -> 0 <= y <= 1) ->
  (exists d, dice_coef (map Fin a) (map Fin b) = Fin d /\ 0 < d <= 1)
  /\ ((forall x, In x a -> x = 0 \/ x = 1) ->
      dice_coef (map Fin a) (map Fin a) = Fin 1).
Proof.
  intros Hl Ha Hb.
  destruct (product_sum_bound a b Hl Ha Hb) as (H1 & H2 & H3 & H4).
  split.
  - unfold dice_coef. rewrite zip_fmul_finite, !np_sum_finite.
    cbn [fmul fadd]. unfold fdiv.
    rewrite (Reqb_false (Rsum a + Rsum b + 1) 0) by lra.
    eexists. split; [reflexivity|]. split.
    + apply Rdiv_lt_0_compat; lra.
    + apply (Rmult_le_reg_r (Rsum a + Rsum b + 1)); [lra|].
      unfold Rdiv. rewrite Rmult_assoc, Rinv_l by lra. lra.
  - intro Hbin. unfold dice_coef. rewrite zip_fmul_finite, !np_sum_finite.
    rewrite (binary_square_sum a Hbin).
    cbn [fmul fadd]. unfold fdiv.
    rewrite (Reqb_false (Rsum a + Rsum a + 1) 0) by lra.
    apply Fin_eq. field. lra.
Qed.

Lemma dice_coef_bounds_witness :
  (exists d, dice_coef (map Fin [0; 1; 1]) (map Fin [1; 1; 0]) = Fin d /\ 0 < d <= 1)
  /\ ((forall x, In x [0; 1; 1] -> x = 0 \/ x = 1) ->
      dice_coef (map Fin [0; 1; 1]) (map Fin [0; 1; 1]) = Fin 1).
Proof.
  apply (dice_coef_bounds [0; 1; 1] [1; 1; 0]).
  - reflexivity.
  - intros x Hx. simpl in Hx. destruct Hx as [<-|[<-|[<-|[]]]]; lra.
  - intros x Hx. simpl in Hx. destruct Hx as [<-|[<-|[<-|[]]]]; lra.
Defined.

Lemma feq_one (x : fl) : feq x (Fin 1) = true -> x = Fin 1.
Proof.
  destruct x as [r| | |]; cbn [feq]; try discriminate.
  unfold Reqb. destruct (Req_dec_T r 1); [now subst | discriminate].
Qed.

Lemma inter_le_union (yt yp : list fl) :
  (count_true (zip_with andb (map (fun x => feq x (Fin 1)) yt)
                             (map (fun x => feq x (Fin 1)) yp))
   <= count_true (map (fun x => negb (feq x (Fin 0))) (zip_with fadd yt yp)))%nat.
Proof.
  revert yp. induction yt as [|t yt IH]; intros [|p yp]; try (cbn; lia).
  cbn [map zip_with]. rewrite !count_true_cons. specialize (IH yp).
  destruct (feq t (Fin 1)) eqn:Et; [|cbn [andb];
    destruct (negb (feq (fadd t p) (Fin 0))); lia].
  destruct (feq p (Fin 1)) eqn:Ep; [|cbn [andb];
    destruct (negb (feq (fadd t p) (Fin 0))); lia].
  apply feq_one in Et, Ep. subst t p. cbn [andb fadd feq].
  rewrite (Reqb_false (1 + 1) 0) by lra. cbn [negb]. lia.
Qed.

(** X4.  [mean_iou] is always a number between 0 and 1, whatever the two
    tensors hold: the pixels counted in the intersection are among those
    counted in the union, and an empty union gives 1. *)
Theorem mean_iou_in_unit_interval (N : nat) (y_true y_pred : ndarray) :
  exists r, mean_iou N y_true y_pred = Fin r /\ 0 <= r <= 1.
Proof.
  unfold mean_iou.
  set (yt0 := data (channel N 0 y_true)).
  set (yp0 := map _ (data (channel N 0 y_pred))).
  pose proof (inter_le_union yt0 yp0) as Hle.
  set (inter := count_true (zip_with andb _ _)) in *.
  set (union := count_true (map _ (zip_with fadd yt0 yp0))) in *.
  destruct (Nat.eqb union 0) eqn:Eu.
  - exists 1. split; [reflexivity | lra].
  - apply Nat.eqb_neq in Eu.
    destruct (overlap_quotient inter union Hle) as [E|(c & E & Hc)].
    + exfalso. unfold fdiv in E.
      assert (0 < INR union) by (apply lt_0_INR; lia).
      rewrite (Reqb_false (INR union) 0) in E by lra. discriminate.
    + now exists c.
Qed.

(** ** The colour lookup *)

Example parse_color_example : parse_color "#FF9900" = Some [255; 153; 0]%Z.
Proof. reflexivity. Qed.

Example parse_palette : sequence (map parse_color class_label_colormap) = Some palette_rgb.
Proof. reflexivity. Qed.

Lemma fill_where_map2 {A B : Type} (f : A -> bool) (g : A -> B) (c : B) (a : list A) :
  fill_where (map f a) (map g a) c = map (fun x => if f x then c else g x) a.
Proof.
  induction a as [|x a IH]; [reflexivity|].
  cbn [map fill_where]. destruct (f x); now rewrite IH.
Qed.

Lemma fold_min_le (l : list Z) (a : Z) :
  (fold_left Z.min l a <= a)%Z /\ forall x, In x l -> (fold_left Z.min l a <= x)%Z.
Proof.
  revert a. induction l as [|y l IH]; intro a; cbn [fold_left].
  - split; [lia | intros ? []].
  - destruct (IH (Z.min a y)) as [H1 H2]. split; [lia|].
    intros x [<-|Hx]; [lia | now apply H2].
Qed.

Lemma fold_max_ge (l : list Z) (a : Z) :
  (a <= fold_left Z.max l a)%Z /\ forall x, In x l -> (x <= fold_left Z.max l a)%Z.
Proof.
  revert a. induction l as [|y l IH]; intro a; cbn [fold_left].
  - split; [lia | intros ? []].
  - destruct (IH (Z.max a y)) as [H1 H2]. split; [lia|].
    intros x [<-|Hx]; [lia | now apply H2].
Qed.

Lemma int_min_max_bounds (l : list Z) (lo hi : Z) :
  int_min l = Some lo -> int_max l = Some hi ->
  forall x, In x l -> (lo <= x <= hi)%Z.
Proof.
  destruct l as [|a l]; [discriminate|]. cbn [int_min int_max].
  intros Hlo Hhi. injection Hlo as <-. injection Hhi as <-.
  destruct (fold_min_le l a) as [H1 H2]. destruct (fold_max_ge l a) as [H3 H4].
  intros x [<-|Hx]; split; auto.
Qed.

Lemma py_range_In (a b x : Z) : In x (py_range a b) <-> (a <= x < b)%Z.
Proof.
  unfold py_range. rewrite in_map_iff. split.
  - intros (i & <- & Hi). apply in_seq in Hi. lia.
  - intro H. exists (Z.to_nat (x - a)). split; [lia|]. apply in_seq. lia.
Qed.

(** After the turns for the classes [cs], the pixels of those classes carry
    their colour and the others are still black. *)
Lemma color_fold (img : list Z) (cmap : list (list Z)) (offset : Z) (cs done : list Z) :
  cmap <> [] ->
  (forall col, In col cmap -> length col = 3%nat) ->
  fold_left (color_step img cmap offset) cs
    (Some (map (fun v => if existsb (Z.eqb v) done then class_color cmap offset v
                         else [0; 0; 0]%Z) img))
  = Some (map (fun v => if existsb (Z.eqb v) (done ++ cs) then class_color cmap offset v
                        else [0; 0; 0]%Z) img).
Proof.
  intros Hne H3. revert done. induction cs as [|c cs IH]; intro done.
  - now rewrite app_nil_r.
  - cbn [fold_left color_step]. destruct cmap as [|c0 cm] eqn:Ec; [congruence|].
    rewrite <- Ec in *.
    assert (Hb : broadcast_rgb (class_color cmap offset c) = Some (class_color cmap offset c)).
    { assert (Hl : length (class_color cmap offset c) = 3%nat).
      { apply H3. unfold class_color. apply nth_In.
        assert (0 < Z.of_nat (length cmap))%Z by (rewrite Ec; simpl; lia).
        pose proof (Z.mod_pos_bound (c + offset) _ H). lia. }
      destruct (class_color cmap offset c) as [|x [|y [|z [|]]]]; try discriminate.
      reflexivity. }
    unfold class_color in Hb at 1. rewrite Hb, fill_where_map2.
    replace (done ++ c :: cs) with ((done ++ [c]) ++ cs) by now rewrite <- app_assoc.
    rewrite <- IH. f_equal. f_equal. apply map_ext. intro v.
    rewrite existsb_app. cbn [existsb]. rewrite orb_false_r.
    destruct (Z.eqb_spec v c) as [->|Hvc].
    + now rewrite orb_true_r.
    + now rewrite orb_false_r.
Qed.

Lemma fill_where_nth {A : Type} (mask : list bool) (a : list A) (c d : A) (i : nat) :
  length mask = length a ->
  nth i (fill_where mask a c) d = if nth i mask false then c else nth i a d.
Proof.
  revert a i. induction mask as [|b mask IH]; intros [|x a] i Hl; try discriminate.
  - destruct i; reflexivity.
  - destruct i as [|i]; cbn [fill_where nth]; destruct b; try reflexivity;
      cbn [nth]; apply IH; simpl in Hl; lia.
Qed.

Lemma fill_where_length {A : Type} (mask : list bool) (a : list A) (c : A) :
  length (fill_where mask a c) = length a.
Proof.
  revert a. induction mask as [|b mask IH]; intros [|x a]; try reflexivity;
    try (destruct b; reflexivity).
  destruct b; cbn [fill_where]; cbn [length]; now rewrite IH.
Qed.

(** The image [label_to_colors] returns, for a parsed colormap of
    three-channel colours. *)
Lemma label_to_colors_pixels (img : list Z) (mask : list bool) (alpha : Z)
  (colormap : list string) (cmap : list (list Z)) (offset : Z) (do_alpha : bool) :
  sequence (map parse_color colormap) = Some cmap ->
  cmap <> [] ->
  (forall col, In col cmap -> length col = 3%nat) ->
  img <> [] ->
  length mask = length img ->
  exists out,
    label_to_colors img mask alpha colormap offset do_alpha = Some out
    /\ length out = length img
    /\ forall i, (i < length img)%nat ->
         nth i out []
         = (if nth i mask false then [0; 0; 0]%Z
            else class_color cmap offset (nth i img 0%Z))
           ++ (if do_alpha then [alpha] else []).
Proof.
  intros Hp Hne H3 Himg Hl. unfold label_to_colors. rewrite Hp.
  destruct (int_min img) as [minc|] eqn:Emin; [|destruct img; [congruence | discriminate]].
  destruct (int_max img) as [maxc|] eqn:Emax; [|destruct img; [congruence | discriminate]].
  rewrite (map_ext_in _ (fun v => if existsb (Z.eqb v) [] then class_color cmap offset v
                                  else [0; 0; 0]%Z)) by reflexivity.
  rewrite (color_fold img cmap offset _ [] Hne H3). cbn [app].
  rewrite (map_ext_in _ (class_color cmap offset)).
  2:{ intros v Hv. replace (existsb (Z.eqb v) (py_range minc (maxc + 1))) with true;
        [reflexivity|]. symmetry. apply existsb_exists. exists v.
      split; [|apply Z.eqb_refl]. apply py_range_In.
      pose proof (int_min_max_bounds img minc maxc Emin Emax v Hv). lia. }
  eexists. split; [reflexivity|].
  assert (Hlm : length mask = length (map (class_color cmap offset) img))
    by now rewrite length_map.
  split.
  - destruct do_alpha; rewrite ?length_map, fill_where_length, length_map; reflexivity.
  - intros i Hi.
    assert (Hn : nth i (fill_where mask (map (class_color cmap offset) img) [0; 0; 0]%Z) []
                 = if nth i mask false then [0; 0; 0]%Z
                   else class_color cmap offset (nth i img 0%Z)).
    { rewrite (fill_where_nth _ _ _ _ _ Hlm).
      now rewrite (nth_map_lt (class_color cmap offset) img i 0%Z []) by exact Hi. }
    destruct do_alpha.
    + rewrite (nth_map_lt (fun px => px ++ [alpha]) _ i [] [])
        by (rewrite fill_where_length, length_map; exact Hi).
      now rewrite Hn.
    + rewrite Hn. now rewrite app_nil_r.
Qed.

(** X5.  With a colormap of [#RRGGBB] strings, [label_to_colors] gives every
    pixel under the mask the colour black, whatever its label, and every
    other pixel the colormap entry number [(label + color_class_offset) mod
    len(colormap)]; with [do_alpha] the value [alpha] is appended as a fourth
    channel to every pixel, masked or not. *)
Theorem label_to_colors_lookup (img : list Z) (mask : list bool) (alpha : Z)
  (colormap : list string) (cmap : list (list Z)) (offset : Z) (do_alpha : bool) :
  sequence (map parse_color colormap) = Some cmap ->
  cmap <> [] ->
  (forall col, In col cmap -> length col = 3%nat) ->
  img <> [] ->
  length mask = length img ->
  exists out,
    label_to_colors img mask alpha colormap offset do_alpha = Some out
    /\ length out = length img
    /\ forall i, (i < length img)%nat ->
         nth i out []
         = (if nth i mask false then [0; 0; 0]%Z
            else nth (Z.to_nat ((nth i img 0%Z + offset) mod Z.of_nat (length cmap)))
                     cmap [])
           ++ (if do_alpha then [alpha] else []).
Proof. exact (label_to_colors_pixels img mask alpha colormap cmap offset do_alpha). Qed.

Lemma label_to_colors_lookup_witness :
  exists out,
    label_to_colors [0; 2; 1]%Z [false; false; true] 128
                    ["#3366CC"; "#DC3912"]%string 1 true = Some out
    /\ length out = 3%nat
    /\ forall i, (i < 3)%nat ->
         nth i out []
         = (if nth i [false; false; true] false then [0; 0; 0]%Z
            else nth (Z.to_nat ((nth i [0; 2; 1]%Z 0%Z + 1) mod 2))
                     [[51; 102; 204]; [220; 57; 18]]%Z [])
           ++ [128%Z].
Proof.
  apply (label_to_colors_lookup [0; 2; 1]%Z [false; false; true] 128
           ["#3366CC"; "#DC3912"]%string [[51; 102; 204]; [220; 57; 18]]%Z 1 true).
  - reflexivity.
  - discriminate.
  - intros col Hc. simpl in Hc. destruct Hc as [<-|[<-|[]]]; reflexivity.
  - discriminate.
  - reflexivity.
Defined.

Lemma sequence_map_firstn {A B : Type} (f : A -> option B) (l : list A) (r : list B)
  (n : nat) :
  sequence (map f l) = Some r -> sequence (map f (firstn n l)) = Some (firstn n r).
Proof.
  revert l r. induction n as [|n IH]; intros l r H; [reflexivity|].
  destruct l as [|x l].
  - cbn in H. injection H as <-. reflexivity.
  - cbn [map sequence] in H. destruct (f x) as [y|] eqn:Ef; [|discriminate].
    destruct (sequence (map f l)) as [r'|] eqn:Er; [|discriminate].
    injection H as <-. cbn [firstn map sequence]. now rewrite Ef, (IH l r' Er).
Qed.

(** X6.  The colour image of the multiclass path: a pixel where the first
    band of the source image is 0 is black; any other pixel gets the palette
    entry number [label mod min(NCLASSES, 10)].  The palette has ten colours,
    so with more than ten classes the classes [c] and [c + 10] are drawn in
    the same colour. *)
Theorem color_label_palette (NCLASSES : nat) (est_label : list Z) (mask : list bool) :
  (1 <= NCLASSES)%nat ->
  est_label <> [] ->
  length mask = length est_label ->
  exists out,
    color_label NCLASSES est_label mask = Some out
    /\ length out = length est_label
    /\ (forall i, (i < length est_label)%nat ->
          nth i out []
          = if nth i mask false then [0; 0; 0]%Z
            else nth (Z.to_nat (nth i est_label 0%Z mod Z.of_nat (Nat.min NCLASSES 10)))
                     palette_rgb [])
    /\ (forall i j, (i < length est_label)%nat -> (j < length est_label)%nat ->
          (10 <= NCLASSES)%nat ->
          nth i mask false = false -> nth j mask false = false ->
          nth j est_label 0%Z = (nth i est_label 0%Z + 10)%Z ->
          nth i out [] = nth j out []).
Proof.
  intros HN Hne Hl. unfold color_label.
  assert (Hp : sequence (map parse_color (firstn NCLASSES (firstn NCLASSES class_label_colormap)))
               = Some (firstn NCLASSES (firstn NCLASSES palette_rgb))).
  { apply sequence_map_firstn, sequence_map_firstn. reflexivity. }
  assert (Hlen : length (firstn NCLASSES (firstn NCLASSES palette_rgb)) = Nat.min NCLASSES 10).
  { rewrite !length_firstn. cbn [palette_rgb length]. lia. }
  assert (H3 : forall col, In col (firstn NCLASSES (firstn NCLASSES palette_rgb)) ->
                           length col = 3%nat).
  { intros col Hc. apply In_firstn, In_firstn in Hc. cbn [palette_rgb In] in Hc.
    repeat (destruct Hc as [<-|Hc]; [reflexivity|]). destruct Hc. }
  assert (Hcne : firstn NCLASSES (firstn NCLASSES palette_rgb) <> []).
  { intro E. rewrite E in Hlen. cbn [length] in Hlen. lia. }
  destruct (label_to_colors_pixels est_label mask 128 _ _ 0 false Hp Hcne H3 Hne Hl)
    as (out & Ho & Hol & Hpix).
  assert (Hcol : forall v,
    class_color (firstn NCLASSES (firstn NCLASSES palette_rgb)) 0 v
    = nth (Z.to_nat (v mod Z.of_nat (Nat.min NCLASSES 10))) palette_rgb []).
  { intro v. unfold class_color. rewrite Hlen, Z.add_0_r.
    assert (Hm : (0 < Z.of_nat (Nat.min NCLASSES 10))%Z) by lia.
    pose proof (Z.mod_pos_bound v _ Hm) as Hb.
    rewrite !nth_firstn.
    replace (Z.to_nat (v mod Z.of_nat (Nat.min NCLASSES 10)) <? NCLASSES)%nat with true
      by (symmetry; apply Nat.ltb_lt; lia).
    reflexivity. }
  exists out. split; [exact Ho|]. split; [exact Hol|]. split.
  - intros i Hi. rewrite (Hpix i Hi), app_nil_r, Hcol. reflexivity.
  - intros i j Hi Hj H10 Hmi Hmj Hij.
    rewrite (Hpix i Hi), (Hpix j Hj), Hmi, Hmj, !app_nil_r, !Hcol, Hij.
    replace (Nat.min NCLASSES 10) with 10%nat by lia.
    change (Z.of_nat 10) with 10%Z.
    replace ((nth i est_label 0 + 10) mod 10)%Z with (nth i est_label 0 mod 10)%Z; [reflexivity|].
    replace (nth i est_label 0 + 10)%Z with (nth i est_label 0 + 1 * 10)%Z by lia.
    symmetry. apply Z_mod_plus_full.
Qed.

Lemma color_label_palette_witness :
  exists out,
    color_label 3 [2; 2; 0]%Z [false; false; true] = Some out
    /\ nth 0 out [] = [255; 153; 0]%Z.
Proof.
  destruct (color_label_palette 3 [2; 2; 0]%Z [false; false; true])
    as (out & Ho & _ & Hpix & _).
  - lia.
  - discriminate.
  - reflexivity.
  - exists out. split; [exact Ho|]. rewrite (Hpix 0%nat); [reflexivity | simpl; lia].
Defined.

(** ** The output directories *)

Lemma append_eqb (s a b : string) :
  String.eqb (s ++ a) (s ++ b) = String.eqb a b.
Proof.
  induction s as [|c s IH]; [reflexivity|].
  cbn [String.append String.eqb]. now rewrite Ascii.eqb_refl.
Qed.

Lemma lookup_cons (p q : string) (b : bool) (d : list (string * bool)) :
  lookup p ((q, b) :: d) = if String.eqb q p then Some b else lookup p d.
Proof. unfold lookup. cbn [find fst snd]. now destruct (String.eqb q p). Qed.

(** X7.  The four output directories are made in one [try] block, so what
    is made depends on the first one that already exists.  If [masks] exists,
    nothing is made, also when the other three are missing; if [masks] is
    missing and [masked] exists, only [masks] is made; if none of the four
    exists, all four are made. *)
Theorem make_output_dirs_cases (sd : string) (d : list (string * bool)) :
  (lookup (sd ++ sep ++ "masks") d <> None -> make_output_dirs sd d = d)
  /\ (lookup (sd ++ sep ++ "masks") d = None ->
      lookup (sd ++ sep ++ "masked") d <> None ->
      make_output_dirs sd d = (sd ++ sep ++ "masks", false)%string :: d)
  /\ (lookup (sd ++ sep ++ "masks") d = None ->
      lookup (sd ++ sep ++ "masked") d = None ->
      lookup (sd ++ sep ++ "conf_var") d = None ->
      lookup (sd ++ sep ++ "probs") d = None ->
      make_output_dirs sd d
      = [(sd ++ sep ++ "probs", false); (sd ++ sep ++ "conf_var", false);
         (sd ++ sep ++ "masked", false); (sd ++ sep ++ "masks", false)]%string ++ d).
Proof.
  unfold make_output_dirs. cbn [sep String.append].
  split; [|split].
  - intro H. cbn [mkdirs]. destruct (lookup (sd ++ "/masks") d); [reflexivity | congruence].
  - intros H1 H2. cbn [mkdirs]. rewrite H1, lookup_cons, append_eqb.
    change (String.eqb "/masks" "/masked") with false. cbv iota.
    destruct (lookup (sd ++ "/masked") d); [reflexivity | congruence].
  - intros H1 H2 H3 H4. cbn [mkdirs].
    rewrite H1, !lookup_cons, !append_eqb.
    change (String.eqb "/masks" "/masked") with false.
    change (String.eqb "/masked" "/conf_var") with false.
    change (String.eqb "/masks" "/conf_var") with false.
    change (String.eqb "/conf_var" "/probs") with false.
    change (String.eqb "/masked" "/probs") with false.
    change (String.eqb "/masks" "/probs") with false.
    cbv iota. rewrite H2, H3, H4. reflexivity.
Qed.

Lemma make_output_dirs_cases_witness :
  make_output_dirs "data" [("data/masks", false)]%string = [("data/masks", false)]%string
  /\ make_output_dirs "data" [("data/masked", false)]%string
     = [("data/masks", false); ("data/masked", false)]%string.
Proof.
  split.
  - apply (proj1 (make_output_dirs_cases "data" [("data/masks", false)]%string)).
    vm_compute. discriminate.
  - apply (proj1 (proj2 (make_output_dirs_cases "data" [("data/masked", false)]%string))).
    + reflexivity.
    + vm_compute. discriminate.
Defined.

(** ** Skipping files that are already segmented *)

Lemma lookup_same (p : string) (b : bool) (d : list (string * bool)) :
  lookup p ((p, b) :: d) = Some b.
Proof. now rewrite lookup_cons, String.eqb_refl. Qed.

Lemma lookup_cons_mono (p q : string) (b : bool) (d : list (string * bool)) :
  lookup p d <> None -> lookup p ((q, b) :: d) <> None.
Proof. intro H. rewrite lookup_cons. destruct (String.eqb q p); [discriminate | exact H]. Qed.

(** A file whose mask exists: one line is printed and nothing else happens. *)
Lemma process_file_skips (nr : string -> bool) (cfg : config) (f : string) (w : world) :
  (contains "jpg" f || contains "png" f)%bool = true ->
  lookup (out_name cfg f "_predseg.png" "masks") (disk w) <> None ->
  process_file nr cfg f w
  = (Ok tt, mk_world (disk w)
                     (trace w ++ [Printed "exists ... skipping"
                                          (out_name cfg f "_predseg.png" "masks")])).
Proof.
  intros Hext Hseg. unfold process_file.
  destruct (NCLASSES cfg =? 1)%Z;
    unfold process_binary, process_multiclass, bind, segfile_of, exists_, emit, ret;
    rewrite Hext;
    destruct (lookup (out_name cfg f "_predseg.png" "masks") (disk w));
    congruence.
Qed.

(** After the body returns, the mask of the file exists, and every path that
    existed before still exists. *)
Lemma process_file_ok_disk (nr : string -> bool) (cfg : config) (f : string)
  (w w' : world) :
  process_file nr cfg f w = (Ok tt, w') ->
  (contains "jpg" f || contains "png" f)%bool = true
  /\ lookup (out_name cfg f "_predseg.png" "masks") (disk w') <> None
  /\ forall p, lookup p (disk w) <> None -> lookup p (disk w') <> None.
Proof.
  intro Hrun.
  assert (Hext : (contains "jpg" f || contains "png" f)%bool = true).
  { unfold process_file, process_binary, process_multiclass, bind, segfile_of, raise in Hrun.
    destruct (contains "jpg" f || contains "png" f)%bool; [reflexivity|].
    destruct (NCLASSES cfg =? 1)%Z; discriminate. }
  split; [exact Hext|].
  destruct (lookup (out_name cfg f "_predseg.png" "masks") (disk w)) as [b|] eqn:Hseg.
  - rewrite (process_file_skips nr cfg f w Hext) in Hrun by congruence.
    injection Hrun as <-. cbn [disk]. split; [congruence | auto].
  - unfold process_file in Hrun.
    destruct (NCLASSES cfg =? 1)%Z.
    + unfold process_binary in Hrun.
      apply bind_ok in Hrun. destruct Hrun as (s & w1 & E1 & Hrun).
      apply segfile_of_ok in E1. destruct E1 as (-> & -> & _).
      apply bind_ok in Hrun. destruct Hrun as (b & w2 & E2 & Hrun).
      rewrite (exists_false _ _ Hseg) in E2. injection E2 as <- <-.
      apply bind_ok in Hrun. destruct Hrun as ([] & w3 & E3 & Hrun).
      apply bind_ok in Hrun. destruct Hrun as ([] & w4 & E4 & Hrun).
      apply load_ok in E4. subst w4.
      apply bind_ok in Hrun. destruct Hrun as ([] & w5 & E5 & Hrun).
      apply numeric_stage_ok in E5. subst w5.
      unfold emit in E3. injection E3 as <-.
      cbv [bind savez_float16 imsave write emit ret disk trace] in Hrun.
      injection Hrun as <-. cbn [disk]. split.
      * do 3 apply lookup_cons_mono. rewrite lookup_same. discriminate.
      * intros p Hp. do 6 apply lookup_cons_mono. exact Hp.
    + unfold process_multiclass in Hrun.
      apply bind_ok in Hrun. destruct Hrun as (s & w1 & E1 & Hrun).
      apply segfile_of_ok in E1. destruct E1 as (-> & -> & _).
      apply bind_ok in Hrun. destruct Hrun as (b & w2 & E2 & Hrun).
      rewrite (exists_false _ _ Hseg) in E2. injection E2 as <- <-.
      apply bind_ok in Hrun. destruct Hrun as ([] & w3 & E3 & Hrun).
      apply bind_ok in Hrun. destruct Hrun as ([] & w4 & E4 & Hrun).
      apply load_ok in E4. subst w4.
      apply bind_ok in Hrun. destruct Hrun as ([] & w5 & E5 & Hrun).
      apply numeric_stage_ok in E5. subst w5.
      unfold emit in E3. injection E3 as <-.
      rewrite Hext in Hrun.
      cbv [bind savez_float16 imsave write emit ret disk trace] in Hrun.
      injection Hrun as <-. cbn [disk]. split.
      * do 2 apply lookup_cons_mono. rewrite lookup_same. discriminate.
      * intros p Hp. do 3 apply lookup_cons_mono. exact Hp.
Qed.

Lemma run_ok_disk (nr : string -> bool) (cfg : config) (files : list string) :
  forall w w',
    run nr cfg files w = (Ok tt, w') ->
    (forall p, lookup p (disk w) <> None -> lookup p (disk w') <> None)
    /\ forall f, In f files ->
         (contains "jpg" f || contains "png" f)%bool = true
         /\ lookup (out_name cfg f "_predseg.png" "masks") (disk w') <> None.
Proof.
  unfold run. induction files as [|g files IH]; intros w w' Hrun.
  - cbn [for_each ret] in Hrun. injection Hrun as <-. split; [auto | intros ? []].
  - cbn [for_each] in Hrun. apply bind_ok in Hrun.
    destruct Hrun as ([] & w1 & Eg & Hrest).
    destruct (process_file_ok_disk nr cfg g w w1 Eg) as (Hext & Hseg & Hmono).
    destruct (IH w1 w' Hrest) as (Hmono' & Hall).
    split; [auto|]. intros f [<-|Hf]; [split; auto | now apply Hall].
Qed.

Lemma run_all_skipped (nr : string -> bool) (cfg : config) (files : list string) :
  forall w,
    (forall f, In f files ->
       (contains "jpg" f || contains "png" f)%bool = true
       /\ lookup (out_name cfg f "_predseg.png" "masks") (disk w) <> None) ->
    run nr cfg files w
    = (Ok tt,
       mk_world (disk w)
                (trace w ++ map (fun f => Printed "exists ... skipping"
                                            (out_name cfg f "_predseg.png" "masks"))
                              files)).
Proof.
  unfold run. induction files as [|g files IH]; intros w Hall.
  - cbn [for_each ret map]. rewrite app_nil_r. now destruct w.
  - cbn [for_each map]. unfold bind.
    destruct (Hall g (or_introl eq_refl)) as [Hext Hseg].
    rewrite (process_file_skips nr cfg g w Hext Hseg).
    rewrite IH by (intros f Hf; apply Hall; now right).
    cbn [disk trace]. now rewrite <- app_assoc.
Qed.

(** X8.  Runs are idempotent.  After a run over a list of files has
    completed, a second run over the same files skips every one of them: it
    returns normally, leaves the disk as it is, and adds to the trace only
    the lines announcing the skipped masks, so no array or image is written
    again. *)
Theorem rerun_skips_everything (nr nr' : string -> bool) (cfg : config)
  (files : list string) (w w1 : world) :
  run nr cfg files w = (Ok tt, w1) ->
  run nr' cfg files w1
  = (Ok tt,
     mk_world (disk w1)
              (trace w1 ++ map (fun f => Printed "exists ... skipping"
                                           (out_name cfg f "_predseg.png" "masks"))
                             files)).
Proof.
  intro Hrun. apply run_all_skipped. apply (run_ok_disk nr cfg files w w1 Hrun).
Qed.

Lemma rerun_skips_everything_witness :
  let w1 := snd (run (fun _ => false) example_multiclass_config example_files example_world) in
  run (fun _ => true) example_multiclass_config example_files w1
  = (Ok tt,
     mk_world (disk w1)
              (trace w1 ++ map (fun f => Printed "exists ... skipping"
                                           (out_name example_multiclass_config f
                                                     "_predseg.png" "masks"))
                             example_files)).
Proof.
  apply (rerun_skips_everything (fun _ => false) (fun _ => true)
           example_multiclass_config example_files example_world).
  vm_compute. reflexivity.
Defined.

(** ** What rolling the flattened image does to the channels *)

(** X9.  [np.roll] is applied to the whole image without an axis, so it
    rotates the flattened array, channels included: in an [H x W x C] image
    the value found after a roll by [s] at a position of channel [c] was
    taken from a position of channel [(c - s) mod C].  A shift that is not a
    multiple of [C] therefore moves every value into another channel. *)
Theorem roll_moves_channels (image : ndarray) (H0 W0 C : nat) (s : Z) (i : nat) :
  shape image = [H0; W0; C] ->
  well_shaped image ->
  (i < length (data image))%nat ->
  exists j,
    (j < length (data image))%nat
    /\ nth i (data (np_roll image s)) NaN = nth j (data image) NaN
    /\ Z.of_nat (j mod C) = ((Z.of_nat (i mod C) - s) mod Z.of_nat C)%Z
    /\ ((s mod Z.of_nat C)%Z <> 0%Z -> (j mod C)%nat <> (i mod C)%nat).
Proof.
  intros Hsh Hws Hi.
  unfold well_shaped in Hws. rewrite Hsh in Hws. cbn [size_of fold_right] in Hws.
  assert (HC : (0 < C)%nat) by (destruct C; [lia | lia]).
  set (n := length (data image)) in *.
  assert (Hn : (0 < Z.of_nat n)%Z) by lia.
  assert (Hdiv : (Z.of_nat C | Z.of_nat n)%Z).
  { exists (Z.of_nat (H0 * W0)). rewrite Hws. lia. }
  pose proof (Z.mod_pos_bound (Z.of_nat i - s) (Z.of_nat n) Hn) as Hb.
  exists (Z.to_nat ((Z.of_nat i - s) mod Z.of_nat n)).
  assert (Hj : Z.of_nat (Z.to_nat ((Z.of_nat i - s) mod Z.of_nat n) mod C)
               = ((Z.of_nat (i mod C) - s) mod Z.of_nat C)%Z).
  { rewrite Nat2Z.inj_mod, Z2Nat.id by lia.
    rewrite (Z.mod_mod_divide _ _ _ Hdiv).
    rewrite Nat2Z.inj_mod. now rewrite Zminus_mod_idemp_l. }
  split; [lia|]. split; [|split].
  - unfold np_roll. cbn [data mk_ndarray]. now apply roll_cyclic.
  - exact Hj.
  - intros Hs E. rewrite E in Hj. apply Hs.
    rewrite Nat2Z.inj_mod in Hj.
    assert (HCz : (0 < Z.of_nat C)%Z) by lia.
    pose proof (Z.mod_pos_bound (Z.of_nat i) (Z.of_nat C) HCz) as Hic.
    set (c := (Z.of_nat i mod Z.of_nat C)%Z) in *.
    assert (Hs0 : ((c - (c - s)) mod Z.of_nat C = 0)%Z).
    { rewrite Zminus_mod, <- Hj, (Z.mod_small c) by lia.
      rewrite Z.sub_diag. apply Z.mod_0_l. lia. }
    replace (c - (c - s))%Z with s in Hs0 by lia. exact Hs0.
Qed.

Lemma roll_moves_channels_witness :
  exists j,
    (j < 6)%nat
    /\ nth 0 (data (np_roll (mk_ndarray [1; 2; 3]%nat
                              [Fin 1; Fin 2; Fin 3; Fin 4; Fin 5; Fin 6]) 100)) NaN
       = nth j [Fin 1; Fin 2; Fin 3; Fin 4; Fin 5; Fin 6] NaN
    /\ Z.of_nat (j mod 3) = ((Z.of_nat (0 mod 3) - 100) mod 3)%Z.
Proof.
  destruct (roll_moves_channels
              (mk_ndarray [1; 2; 3]%nat [Fin 1; Fin 2; Fin 3; Fin 4; Fin 5; Fin 6])
              1 2 3 100 0) as (j & Hj & Hn & Hc & _).
  - reflexivity.
  - reflexivity.
  - simpl. lia.
  - exists j. split; [exact Hj|]. split; [exact Hn | exact Hc].
Defined.

(** ** How low the confidence can be *)

Lemma confidence_finite (l : list R) (t : R) :
  confidence (map Fin l) (Fin t)
  = map Fin (map (fun p => if Rltb p t then 1 - p else p) l).
Proof.
  rewrite confidence_map, !map_map. apply map_ext. intro p. cbv zeta. cbn [flt].
  destruct (Rltb p t); cbn [fsub fneg fadd isfinite]; apply Fin_eq; lra.
Qed.

Lemma Rsum_bounds (l : list R) (lo hi : R) :
  (forall x, In x l -> lo <= x <= hi) ->
  INR (length l) * lo <= Rsum l <= INR (length l) * hi.
Proof.
  induction l as [|x l IH]; intro H.
  - cbn. lra.
  - rewrite Rsum_cons. cbn [length]. rewrite S_INR.
    assert (lo <= x <= hi) by (apply H; now left).
    assert (INR (length l) * lo <= Rsum l <= INR (length l) * hi)
      by (apply IH; intros y Hy; apply H; now right).
    lra.
Qed.

(** X10.  With a threshold [t] of (0,1) and probabilities in [0,1], no
    pixel of the confidence map is below [min(t, 1 - t)]: a pixel at or above
    the threshold scores its probability, at least [t], and a pixel below it
    scores one minus its probability, more than [1 - t].  The overall model
    confidence, the mean of the map, lies between the same bound and 1. *)
Theorem confidence_floor (sh : list nat) (l : list R) (t : R) :
  0 < t < 1 ->
  l <> [] ->
  size_of sh = length l ->
  (forall x, In x l -> 0 <= x <= 1) ->
  (forall c, In c (confidence (map Fin l) (Fin t)) ->
     exists r, c = Fin r /\ Rmin t (1 - t) <= r <= 1)
  /\ exists m,
       model_conf (mk_ndarray sh (confidence (map Fin l) (Fin t))) = Fin m
       /\ Rmin t (1 - t) <= m <= 1.
Proof.
  intros Ht Hne Hsz Hunit. rewrite confidence_finite.
  set (g := fun p : R => if Rltb p t then 1 - p else p).
  assert (Hg : forall x, In x (map g l) -> Rmin t (1 - t) <= x <= 1).
  { intros x Hx. apply in_map_iff in Hx. destruct Hx as (p & <- & Hp).
    pose proof (Hunit p Hp). unfold g, Rmin.
    destruct (Rlt_dec p t) as [Hlt|Hge].
    - rewrite (Rltb_true p t Hlt). destruct (Rle_dec t (1 - t)); lra.
    - rewrite (Rltb_false p t) by lra. destruct (Rle_dec t (1 - t)); lra. }
  split.
  - intros c Hc. apply in_map_iff in Hc. destruct Hc as (x & <- & Hx).
    exists x. split; [reflexivity | now apply Hg].
  - unfold model_conf. cbn [data shape mk_ndarray]. rewrite np_sum_finite, Hsz.
    assert (Hn : 0 < INR (length l)).
    { apply lt_0_INR. destruct l; [congruence | simpl; lia]. }
    unfold fdiv. rewrite (Reqb_false (INR (length l)) 0) by lra.
    eexists. split; [reflexivity|].
    pose proof (Rsum_bounds (map g l) _ _ Hg) as Hb. rewrite length_map in Hb.
    split.
    + apply (Rmult_le_reg_r (INR (length l))); [exact Hn|].
      unfold Rdiv. rewrite Rmult_assoc, Rinv_l by lra. lra.
    + apply (Rmult_le_reg_r (INR (length l))); [exact Hn|].
      unfold Rdiv. rewrite Rmult_assoc, Rinv_l by lra. lra.
Qed.

Lemma confidence_floor_witness :
  (forall c, In c (confidence (map Fin [0.25; 0.9]) (Fin 0.75)) ->
     exists r, c = Fin r /\ Rmin 0.75 (1 - 0.75) <= r <= 1)
  /\ exists m,
       model_conf (mk_ndarray [1; 2]%nat (confidence (map Fin [0.25; 0.9]) (Fin 0.75)))
       = Fin m
       /\ Rmin 0.75 (1 - 0.75) <= m <= 1.
Proof.
  apply (confidence_floor [1; 2]%nat [0.25; 0.9] 0.75).
  - lra.
  - discriminate.
  - reflexivity.
  - intros x Hx. simpl in Hx. destruct Hx as [<-|[<-|[]]]; lra.
Defined.

(** ** The combined map and the variance map *)

Section CombineData.

Context `{Collaborators}.

(** Both results of [combine], pixel by pixel. *)
Lemma combine_data (e0 : ndarray) (E : list ndarray) (W : list fl) (w h : nat) (s : R) :
  (forall e, In e (e0 :: E) -> shape (resize e w h) = [w; h]) ->
  length W = length (e0 :: E) ->
  np_sum W = Fin s -> s <> 0 ->
  let R0 := map (fun e => resize e w h) (e0 :: E) in
  let npix := length (data (resize e0 w h)) in
  combine (e0 :: E) W w h
  = Some (mk_ndarray [w; h]
            (map (fun p => fdiv (np_sum (zip_with fmul (pixel_vector R0 p) W)) (Fin s))
                 (seq 0 npix)),
          mk_ndarray [w; h] (map (fun p => np_std (pixel_vector R0 p)) (seq 0 npix))).
Proof.
  intros Hsh Hlen Hs Hne R0 npix. unfold combine. fold R0.
  assert (HR : R0 = resize e0 w h :: map (fun e => resize e w h) E) by reflexivity.
  rewrite HR at 1.
  rewrite (dstack_same_shape (map (fun e => resize e w h) E) (resize e0 w h) w h).
  2:{ intros e [<-|He]; [apply Hsh; now left|].
      apply in_map_iff in He. destruct He as (e' & <- & He'). apply Hsh. now right. }
  rewrite <- HR. fold npix.
  unfold np_average, np_std_last.
  change [w; h; length R0] with ([w; h] ++ [length R0]).
  rewrite last_axis_dstack by (rewrite HR; discriminate).
  rewrite map_map.
  rewrite (map_ext _ (fun p => Some (fdiv (np_sum (zip_with fmul (pixel_vector R0 p) W))
                                          (Fin s)))).
  2:{ intro p. apply weighted_mean_defined; try assumption.
      unfold pixel_vector. rewrite length_map. unfold R0. rewrite length_map.
      now rewrite Hlen. }
  rewrite sequence_map_some.
  cbn [shape mk_ndarray]. unfold drop_last_axis. rewrite removelast_last.
  now rewrite map_map.
Qed.

End CombineData.

Lemma all_finite_list (l : list fl) :
  (forall x, In x l -> exists r, x = Fin r) -> exists rs, l = map Fin rs.
Proof.
  induction l as [|x l IH]; intro Hf; [now exists []|].
  destruct (Hf x (or_introl eq_refl)) as [r ->].
  destruct IH as [rs ->]; [intros y Hy; apply Hf; now right|].
  now exists (r :: rs).
Qed.

Lemma pixel_vector_In (E : list ndarray) (p : nat) (x : fl) :
  In x (pixel_vector E p) -> exists e, In e E /\ x = nth p (data e) NaN.
Proof.
  unfold pixel_vector. intro Hx. apply in_map_iff in Hx.
  destruct Hx as (e & <- & He). now exists e.
Qed.

Section Variance.

Context `{Collaborators}.

(** X11.  The variance map of the binary path.  When every resized member
    holds numbers, the weighted average and the variance map are both
    produced, the variance map has [w * h] pixels, and each of them is a
    number that is not negative. *)
Theorem variance_map_nonnegative (e0 : ndarray) (E : list ndarray) (W : list fl)
  (w h : nat) (s : R) :
  (forall e, In e (e0 :: E) ->
     shape (resize e w h) = [w; h]
     /\ well_shaped (resize e w h)
     /\ forall x, In x (data (resize e w h)) -> exists r, x = Fin r) ->
  length W = length (e0 :: E) ->
  np_sum W = Fin s -> s <> 0 ->
  exists est var,
    combine (e0 :: E) W w h = Some (est, var)
    /\ length (data var) = (w * h)%nat
    /\ forall p, (p < w * h)%nat ->
         exists v, nth p (data var) NaN = Fin v /\ 0 <= v.
Proof.
  intros Hres Hlen Hs Hne.
  assert (Hsh : forall e, In e (e0 :: E) -> shape (resize e w h) = [w; h])
    by (intros e He; apply (Hres e He)).
  pose proof (combine_data e0 E W w h s Hsh Hlen Hs Hne) as Hc. cbv zeta in Hc.
  assert (Hnp : forall e, In e (e0 :: E) -> length (data (resize e w h)) = (w * h)%nat).
  { intros e He. destruct (Hres e He) as (Hs1 & Hws & _).
    unfold well_shaped in Hws. rewrite Hws, Hs1. cbn [size_of fold_right]. lia. }
  rewrite (Hnp e0 (or_introl eq_refl)) in Hc.
  eexists. eexists. split; [exact Hc|]. cbn [data mk_ndarray].
  split; [now rewrite length_map, length_seq|].
  intros p Hp.
  rewrite (nth_map_lt _ (seq 0 (w * h)) p 0%nat NaN) by now rewrite length_seq.
  rewrite seq_nth by exact Hp. cbn [Nat.add].
  set (R0 := map (fun e => resize e w h) (e0 :: E)).
  assert (Hfin : forall x, In x (pixel_vector R0 p) -> exists r, x = Fin r).
  { intros x Hx. apply pixel_vector_In in Hx. destruct Hx as (e & He & ->).
    apply in_map_iff in He. destruct He as (e' & <- & He').
    destruct (Hres e' He') as (_ & _ & Hf). apply Hf. apply nth_In.
    rewrite (Hnp e' He'). exact Hp. }
  destruct (all_finite_list _ Hfin) as [rs Hrs].
  assert (Hrne : rs <> []).
  { intro E0. rewrite E0 in Hrs. unfold pixel_vector, R0 in Hrs. discriminate. }
  rewrite Hrs. destruct (np_std_finite rs Hrne) as (sd & Esd & Hsd). now exists sd.
Qed.

End Variance.

Lemma variance_map_nonnegative_witness :
  exists est var,
    @combine stand_in [mk_ndarray [1; 2]%nat [Fin 0.25; Fin 0.75];
                       mk_ndarray [1; 2]%nat [Fin 0.25; Fin 0.5]]
             [Fin 1; Fin 1] 1 2 = Some (est, var)
    /\ length (data var) = 2%nat.
Proof.
  destruct (@variance_map_nonnegative stand_in
              (mk_ndarray [1; 2]%nat [Fin 0.25; Fin 0.75])
              [mk_ndarray [1; 2]%nat [Fin 0.25; Fin 0.5]]
              [Fin 1; Fin 1] 1 2 (0 + 1 + 1)) as (est & var & Hc & Hl & _).
  - intros e He. simpl in He. destruct He as [<-|[<-|[]]].
    + split; [reflexivity|]. split; [reflexivity|].
      intros x Hx. simpl in Hx. destruct Hx as [<-|[<-|[]]]; eexists; reflexivity.
    + split; [reflexivity|]. split; [reflexivity|].
      intros x Hx. simpl in Hx. destruct Hx as [<-|[<-|[]]]; eexists; reflexivity.
  - reflexivity.
  - reflexivity.
  - lra.
  - exists est, var. split; [exact Hc | exact Hl].
Defined.

(** The weighted sum of values of [lo, hi] under positive weights lies
    between [lo] and [hi] times the sum of the weights. *)
Lemma weighted_sum_bounds (vs ws : list R) (lo hi : R) :
  length vs = length ws ->
  (forall v, In v vs -> lo <= v <= hi) ->
  (forall x, In x ws -> 0 < x) ->
  lo * Rsum ws <= Rsum (zip_with Rmult vs ws) <= hi * Rsum ws.
Proof.
  revert ws. induction vs as [|v vs IH]; intros [|x ws] Hl Hv Hw; try discriminate.
  - cbn. lra.
  - cbn [zip_with]. rewrite !Rsum_cons.
    assert (lo <= v <= hi) by (apply Hv; now left).
    assert (0 < x) by (apply Hw; now left).
    assert (lo * Rsum ws <= Rsum (zip_with Rmult vs ws) <= hi * Rsum ws).
    { apply IH; [simpl in Hl; lia | intros; apply Hv; now right
                | intros; apply Hw; now right]. }
    nra.
Qed.

Lemma Rsum_pos (ws : list R) :
  ws <> [] -> (forall x, In x ws -> 0 < x) -> 0 < Rsum ws.
Proof.
  induction ws as [|x ws IH]; intros Hne Hw; [congruence|].
  rewrite Rsum_cons. assert (0 < x) by (apply Hw; now left).
  destruct ws as [|y ws'].
  - cbn. lra.
  - assert (0 < Rsum (y :: ws')) by (apply IH; [discriminate | intros; apply Hw; now right]).
    lra.
Qed.

(** The weights of the ensemble are positive numbers. *)
Lemma tta_weights_positive `{Collaborators} (T : Z) (image : ndarray) :
  (4 < T)%Z ->
  exists ws, snd (tta_ensemble T image) = map Fin ws
             /\ length ws = 21%nat /\ forall x, In x ws -> 0 < x.
Proof.
  intro HT. rewrite tta_ensemble_spec. cbn [snd].
  set (ks := shift_schedule T).
  set (f := fun k : Q => 2 * (1 / sqrt (Q2R k))).
  assert (Hks : forall k, In k ks -> 4 < Q2R k).
  { intros k Hk. destruct (In_nth ks k 0%Q Hk) as (i & Hi & <-).
    apply shift_schedule_bound; [exact HT|].
    unfold ks in Hi. now rewrite shift_schedule_length in Hi. }
  assert (Hm : map shift_weight ks = map Fin (map f ks)).
  { rewrite map_map. apply map_ext_in. intros k Hk.
    apply shift_weight_pos. pose proof (Hks k Hk). lra. }
  exists (1 :: map f ks ++ map f ks). rewrite Hm. split; [|split].
  - cbn [app map]. now rewrite map_app.
  - cbn [length]. rewrite length_app, !length_map. unfold ks.
    now rewrite shift_schedule_length.
  - intros x [<-|Hx]; [lra|].
    apply in_app_or in Hx.
    assert (Hin : In x (map f ks)) by tauto.
    apply in_map_iff in Hin. destruct Hin as (k & <- & Hk).
    unfold f. pose proof (weight_below_one _ (Hks k Hk)). lra.
Qed.

Section BinaryProbability.

Context `{Collaborators}.

(** X12.  The combined map of the binary path is a probability map again.
    For a target size above 4, when each of the 21 resized predictions is a
    [w] by [h] array of numbers of [0,1], the weighted average is defined
    (the weights do not sum to zero), has [w * h] pixels, and each of them
    is a number of [0,1]. *)
Theorem binary_probability_in_unit (T : Z) (image : ndarray) (w h : nat) :
  (4 < T)%Z ->
  (forall e, In e (fst (tta_ensemble T image)) ->
     shape (resize e w h) = [w; h]
     /\ well_shaped (resize e w h)
     /\ forall x, In x (data (resize e w h)) -> in_unit x) ->
  exists est var,
    binary_probability T image w h = Some (est, var)
    /\ shape est = [w; h]
    /\ length (data est) = (w * h)%nat
    /\ forall x, In x (data est) -> in_unit x.
Proof.
  intros HT Hres. unfold binary_probability.
  destruct (tta_weights_positive T image HT) as (ws & HW & Hwl & Hwpos).
  assert (HE : exists e0 E, fst (tta_ensemble T image) = e0 :: E
                            /\ length (e0 :: E) = 21%nat).
  { rewrite tta_ensemble_spec. cbn [fst app]. eexists. eexists.
    split; [reflexivity|]. cbn [length].
    now rewrite length_app, !length_map, shift_schedule_length. }
  destruct HE as (e0 & E & HE & HEl). rewrite HE in *. rewrite HW.
  assert (Hws0 : 0 < Rsum ws).
  { apply Rsum_pos; [|exact Hwpos]. destruct ws; [discriminate | discriminate]. }
  assert (Hsh : forall e, In e (e0 :: E) -> shape (resize e w h) = [w; h])
    by (intros e He; apply (Hres e He)).
  assert (Hnp : forall e, In e (e0 :: E) -> length (data (resize e w h)) = (w * h)%nat).
  { intros e He. destruct (Hres e He) as (Hs1 & Hws & _).
    unfold well_shaped in Hws. rewrite Hws, Hs1. cbn [size_of fold_right]. lia. }
  rewrite (combine_data e0 E (map Fin ws) w h (Rsum ws) Hsh).
  2:{ rewrite length_map. lia. }
  2:{ apply np_sum_finite. }
  2:{ lra. }
  rewrite (Hnp e0 (or_introl eq_refl)).
  eexists. eexists. split; [reflexivity|]. cbn [shape data mk_ndarray].
  split; [reflexivity|]. split; [now rewrite length_map, length_seq|].
  intros x Hx. apply in_map_iff in Hx. destruct Hx as (p & <- & Hp).
  apply in_seq in Hp.
  set (R0 := map (fun e => resize e w h) (e0 :: E)).
  assert (Hfin : forall y, In y (pixel_vector R0 p) -> in_unit y).
  { intros y Hy. apply pixel_vector_In in Hy. destruct Hy as (e & He & ->).
    apply in_map_iff in He. destruct He as (e' & <- & He').
    destruct (Hres e' He') as (_ & _ & Hf). apply Hf. apply nth_In.
    rewrite (Hnp e' He'). lia. }
  destruct (all_finite_list (pixel_vector R0 p)) as [vs Hvs].
  { intros y Hy. destruct (Hfin y Hy) as (r & -> & _). now exists r. }
  assert (Hvu : forall v, In v vs -> 0 <= v <= 1).
  { intros v Hv. destruct (Hfin (Fin v)) as (r & Er & Hr).
    - rewrite Hvs. now apply in_map.
    - injection Er as ->. exact Hr. }
  assert (Hvl : length vs = length ws).
  { apply (f_equal (@length fl)) in Hvs. unfold pixel_vector, R0 in Hvs.
    rewrite !length_map in Hvs. lia. }
  rewrite Hvs, zip_fmul_finite, np_sum_finite. unfold fdiv.
  rewrite (Reqb_false (Rsum ws) 0) by lra.
  pose proof (weighted_sum_bounds vs ws 0 1 Hvl Hvu Hwpos) as Hb.
  eexists. split; [reflexivity|]. split.
  - apply Rmult_le_pos; [lra|]. left. apply Rinv_0_lt_compat. exact Hws0.
  - apply (Rmult_le_reg_r (Rsum ws)); [exact Hws0|].
    unfold Rdiv. rewrite Rmult_assoc, Rinv_l by lra. lra.
Qed.

End BinaryProbability.

Lemma roll_In {A : Type} (l : list A) (s : Z) (x : A) : In x (roll l s) -> In x l.
Proof.
  unfold roll. destruct (length l); [auto|]. intro Hx.
  apply in_app_or in Hx. destruct Hx as [Hx|Hx];
    [now apply In_skipn in Hx | now apply In_firstn in Hx].
Qed.

Lemma binary_probability_in_unit_witness :
  exists est var,
    @binary_probability stand_in 768 (mk_ndarray [1; 2]%nat [Fin 0.25; Fin 0.75]) 1 2
    = Some (est, var)
    /\ shape est = [1; 2]%nat
    /\ length (data est) = (1 * 2)%nat
    /\ forall x, In x (data est) -> in_unit x.
Proof.
  apply (@binary_probability_in_unit stand_in 768).
  - lia.
  - intros e He. rewrite tta_ensemble_spec in He. cbn [fst] in He.
    assert (Hroll : exists s, e = np_roll (mk_ndarray [1; 2]%nat [Fin 0.25; Fin 0.75]) s).
    { cbn [app] in He. destruct He as [<-|He].
      - exists 0%Z. reflexivity.
      - apply in_app_or in He. destruct He as [He|He]; apply in_map_iff in He;
          destruct He as (k & <- & _); eexists; reflexivity. }
    destruct Hroll as [s ->].
    split; [reflexivity|]. split; [apply stand_in_resize_shape|].
    intros x Hx. change (@resize stand_in) with stand_in_resize in Hx.
    unfold stand_in_resize in Hx. cbn [data mk_ndarray np_roll] in Hx.
    apply In_firstn in Hx. apply in_app_or in Hx.
    destruct Hx as [Hx|Hx].
    + apply roll_In in Hx. simpl in Hx.
      destruct Hx as [<-|[<-|[]]]; eexists; (split; [reflexivity | lra]).
    + apply repeat_spec in Hx. subst x. exists 0. split; [reflexivity | lra].
Defined.

(** ** The geometry of the loader *)

Example loader_geometry_landscape :
  resized_dims 600 800 768 768 = (768, 1024)%Z
  /\ loader_geometry 600 800 768 768 = Some ((0, 128), (768, 768))%Z.
Proof. split; reflexivity. Qed.

Lemma py_int_quotient (a b : Z) :
  (0 <= a)%Z -> (0 < b)%Z -> py_int (inject_Z a / inject_Z b) = (a / b)%Z.
Proof.
  intros Ha Hb. unfold py_int. destruct b as [|p|p]; try lia.
  cbn [Qdiv Qmult Qinv inject_Z Qnum Qden].
  rewrite Z.mul_1_r, Pos.mul_1_l. now rewrite Z.quot_div_nonneg by lia.
Qed.

Lemma resize_crit_lt (w h tw th : Z) :
  (0 <= w * th)%Z -> (0 < h * tw)%Z ->
  ((resize_crit w h tw th < 1)%Q <-> (w * th < h * tw)%Z).
Proof.
  intros Ha Hb. unfold resize_crit. destruct (h * tw)%Z as [|p|p] eqn:E; try lia.
  unfold Qlt. cbn [Qdiv Qmult Qinv inject_Z Qnum Qden]. lia.
Qed.

(** X13.  For a source image and a target size with positive sides, the
    resize of the loader never produces an image smaller than the target: the
    centred crop that follows is always accepted, its offsets are not
    negative, at most one of the two axes is cropped, and nothing is cropped
    at all when source and target have the same aspect ratio.  The result is
    always [tw] by [th]. *)
Theorem loader_geometry_fits (w h tw th : Z) :
  (0 < w)%Z -> (0 < h)%Z -> (0 < tw)%Z -> (0 < th)%Z ->
  exists off0 off1,
    loader_geometry w h tw th = Some ((off0, off1), (tw, th))
    /\ (0 <= off0)%Z /\ (0 <= off1)%Z
    /\ (off0 = 0%Z \/ off1 = 0%Z)
    /\ (tw <= fst (resized_dims w h tw th))%Z
    /\ (th <= snd (resized_dims w h tw th))%Z
    /\ ((w * th = h * tw)%Z -> off0 = 0%Z /\ off1 = 0%Z).
Proof.
  intros Hw Hh Htw Hth.
  assert (Ha : (0 <= w * th)%Z) by nia. assert (Hb : (0 < h * tw)%Z) by nia.
  assert (Hdims :
    ((w * th < h * tw)%Z /\ resized_dims w h tw th = (tw, (h * tw / w)%Z))
    \/ ((h * tw <= w * th)%Z /\ resized_dims w h tw th = ((w * th / h)%Z, th))).
  { unfold resized_dims.
    destruct (Qlt_le_dec (resize_crit w h tw th) 1) as [Hlt|Hge].
    - left. apply (proj1 (resize_crit_lt w h tw th Ha Hb)) in Hlt. split; [exact Hlt|].
      rewrite !py_int_quotient by nia. f_equal.
      rewrite Z.mul_comm. apply Z.div_mul. lia.
    - right. split.
      + destruct (Z_lt_dec (w * th) (h * tw)) as [Hc|Hc]; [|lia].
        apply (proj2 (resize_crit_lt w h tw th Ha Hb)) in Hc.
        exfalso. apply (Qlt_not_le _ _ Hc Hge).
      + rewrite !py_int_quotient by nia. f_equal.
        rewrite Z.mul_comm. apply Z.div_mul. lia. }
  unfold loader_geometry, crop_box_ok.
  destruct Hdims as [[Hlt E]|[Hge E]]; rewrite E; cbn [fst snd].
  - assert (Hq : (th <= h * tw / w)%Z) by (apply Z.div_le_lower_bound; nia).
    rewrite Z.sub_diag. change (0 / 2)%Z with 0%Z.
    assert (Ho : (0 <= (h * tw / w - th) / 2)%Z) by (apply Z.div_pos; lia).
    assert (Hfit : ((h * tw / w - th) / 2 + th <= h * tw / w)%Z).
    { pose proof (Z.mul_div_le (h * tw / w - th) 2). lia. }
    exists 0%Z, ((h * tw / w - th) / 2)%Z.
    replace (0 <=? 0)%Z with true by reflexivity.
    rewrite (proj2 (Z.leb_le _ _) Ho), (proj2 (Z.ltb_lt _ _) Htw),
            (proj2 (Z.ltb_lt _ _) Hth), (proj2 (Z.leb_le _ _) Hfit).
    replace (0 + tw <=? tw)%Z with true by (symmetry; apply Z.leb_le; lia).
    cbn [andb]. split; [reflexivity|].
    split; [lia|]. split; [lia|]. split; [now left|].
    split; [lia|]. split; [lia|]. intro Heq. lia.
  - assert (Hq : (tw <= w * th / h)%Z) by (apply Z.div_le_lower_bound; nia).
    rewrite Z.sub_diag. change (0 / 2)%Z with 0%Z.
    assert (Ho : (0 <= (w * th / h - tw) / 2)%Z) by (apply Z.div_pos; lia).
    assert (Hfit : ((w * th / h - tw) / 2 + tw <= w * th / h)%Z).
    { pose proof (Z.mul_div_le (w * th / h - tw) 2). lia. }
    exists ((w * th / h - tw) / 2)%Z, 0%Z.
    replace (0 <=? 0)%Z with true by reflexivity.
    rewrite (proj2 (Z.leb_le _ _) Ho), (proj2 (Z.ltb_lt _ _) Htw),
            (proj2 (Z.ltb_lt _ _) Hth), (proj2 (Z.leb_le _ _) Hfit).
    replace (0 + th <=? th)%Z with true by (symmetry; apply Z.leb_le; lia).
    cbn [andb]. split; [reflexivity|].
    split; [lia|]. split; [lia|]. split; [now right|].
    split; [lia|]. split; [lia|].
    intro Heq. assert (Hx : (w * th / h = tw)%Z).
    { rewrite Heq, Z.mul_comm. apply Z.div_mul. lia. }
    rewrite Hx, Z.sub_diag. split; reflexivity.
Qed.

Lemma loader_geometry_fits_witness :
  exists off0 off1,
    loader_geometry 600 800 768 768 = Some ((off0, off1), (768, 768))%Z
    /\ (0 <= off0)%Z /\ (0 <= off1)%Z.
Proof.
  destruct (loader_geometry_fits 600 800 768 768) as (o0 & o1 & Hg & H0 & H1 & _);
    try lia.
  exists o0, o1. auto.
Defined.

(** ** The shapes inside the network *)

Example res_unet_768 : res_unet (768, 768, 3)%nat 8 1 = Some (768, 768, 1)%nat.
Proof. reflexivity. Qed.

Example res_unet_100 : res_unet (100, 768, 3)%nat 8 1 = None.
Proof. reflexivity. Qed.

(** Linear arithmetic with quotients and remainders by constants. *)
Ltac div_lia := zify; Z.to_euclidean_division_equations; lia.

Lemma ceil_div_1 (a : nat) : ceil_div a 1 = a.
Proof. unfold ceil_div. rewrite Nat.add_sub. apply Nat.div_1_r. Qed.

Lemma ceil_div_2 (a : nat) : ceil_div a 2 = ((a + 1) / 2)%nat.
Proof. unfold ceil_div. f_equal. lia. Qed.

Lemma merge_dim_same (a : nat) : merge_dim a a = Some a.
Proof. unfold merge_dim. now rewrite Nat.eqb_refl. Qed.

Lemma add_layer_same (a : shape3) : add_layer a a = Some a.
Proof. destruct a as [[h w] c]. unfold add_layer. now rewrite !merge_dim_same. Qed.

(** A residual block halves (rounding up) or keeps the sides and sets the
    channels; its two branches always fit. *)
Lemma res_block_shape (h w c filters : nat) :
  res_block (h, w, c) filters 2 = Some (((h + 1) / 2)%nat, ((w + 1) / 2)%nat, filters)
  /\ res_block (h, w, c) filters 1 = Some (h, w, filters).
Proof.
  unfold res_block, conv_block, batchnorm_act, conv2d.
  rewrite !ceil_div_1, !ceil_div_2. split; apply add_layer_same.
Qed.

Lemma bottleneck_block_shape (h w c filters : nat) :
  bottleneck_block (h, w, c) filters 1 = Some (h, w, filters).
Proof.
  unfold bottleneck_block, conv_block, batchnorm_act, conv2d.
  rewrite !ceil_div_1. apply add_layer_same.
Qed.

Lemma upsamp_concat_shape (h w c h' w' c' : nat) :
  upsamp_concat_block (h, w, c) (h', w', c')
  = if (Nat.eqb (2 * h) h' && Nat.eqb (2 * w) w')%bool
    then Some (h', w', (c + c')%nat) else None.
Proof.
  unfold upsamp_concat_block, concatenate.
  destruct (Nat.eqb (2 * h) h') eqn:Eh; [|reflexivity].
  destruct (Nat.eqb (2 * w) w') eqn:Ew; [|reflexivity].
  apply Nat.eqb_eq in Eh, Ew. cbn [andb]. now rewrite Eh, Ew.
Qed.

(** The two outcomes of building the network. *)
Lemma res_unet_cases (h w c f nclasses : nat) :
  (res_unet (h, w, c) f nclasses = Some (h, w, nclasses)
   /\ (h mod 16 = 0 /\ w mod 16 = 0)%nat)
  \/ (res_unet (h, w, c) f nclasses = None
      /\ ~ (h mod 16 = 0 /\ w mod 16 = 0)%nat).
Proof.
  enough (G : forall r, res_unet (h, w, c) f nclasses = r ->
            (r = Some (h, w, nclasses) /\ (h mod 16 = 0 /\ w mod 16 = 0)%nat)
            \/ (r = None /\ ~ (h mod 16 = 0 /\ w mod 16 = 0)%nat))
    by (apply G; reflexivity).
  intros r. unfold res_unet.
  rewrite bottleneck_block_shape. cbn [and_then].
  rewrite (proj1 (res_block_shape _ _ _ _)). cbn [and_then].
  rewrite (proj1 (res_block_shape _ _ _ _)). cbn [and_then].
  rewrite (proj1 (res_block_shape _ _ _ _)). cbn [and_then].
  rewrite (proj1 (res_block_shape _ _ _ _)). cbn [and_then].
  unfold conv_block at 1 2. unfold batchnorm_act, conv2d at 1 2. rewrite !ceil_div_1.
  set (h1 := ((h + 1) / 2)%nat). set (w1 := ((w + 1) / 2)%nat).
  set (h2 := ((h1 + 1) / 2)%nat). set (w2 := ((w1 + 1) / 2)%nat).
  set (h3 := ((h2 + 1) / 2)%nat). set (w3 := ((w2 + 1) / 2)%nat).
  set (h4 := ((h3 + 1) / 2)%nat). set (w4 := ((w3 + 1) / 2)%nat).
  rewrite upsamp_concat_shape.
  destruct (Nat.eqb (2 * h4) h3 && Nat.eqb (2 * w4) w3)%bool eqn:E4.
  2:{ cbn [and_then]. intros <-. right. split; [reflexivity|].
      intros [Hh Hw].
      apply andb_false_iff in E4. destruct E4 as [E|E]; apply Nat.eqb_neq in E;
        apply E; unfold h4, h3, h2, h1, w4, w3, w2, w1; div_lia. }
  cbn [and_then]. rewrite (proj2 (res_block_shape _ _ _ _)). cbn [and_then].
  rewrite upsamp_concat_shape.
  destruct (Nat.eqb (2 * h3) h2 && Nat.eqb (2 * w3) w2)%bool eqn:E3.
  2:{ cbn [and_then]. intros <-. right. split; [reflexivity|].
      intros [Hh Hw].
      apply andb_false_iff in E3. destruct E3 as [E|E]; apply Nat.eqb_neq in E;
        apply E; unfold h3, h2, h1, w3, w2, w1; div_lia. }
  cbn [and_then]. rewrite (proj2 (res_block_shape _ _ _ _)). cbn [and_then].
  rewrite upsamp_concat_shape.
  destruct (Nat.eqb (2 * h2) h1 && Nat.eqb (2 * w2) w1)%bool eqn:E2.
  2:{ cbn [and_then]. intros <-. right. split; [reflexivity|].
      intros [Hh Hw].
      apply andb_false_iff in E2. destruct E2 as [E|E]; apply Nat.eqb_neq in E;
        apply E; unfold h2, h1, w2, w1; div_lia. }
  cbn [and_then]. rewrite (proj2 (res_block_shape _ _ _ _)). cbn [and_then].
  rewrite upsamp_concat_shape.
  destruct (Nat.eqb (2 * h1) h && Nat.eqb (2 * w1) w)%bool eqn:E1.
  2:{ cbn [and_then]. intros <-. right. split; [reflexivity|].
      intros [Hh Hw].
      apply andb_false_iff in E1. destruct E1 as [E|E]; apply Nat.eqb_neq in E;
        apply E; unfold h1, w1; div_lia. }
  cbn [and_then]. rewrite (proj2 (res_block_shape _ _ _ _)). cbn [and_then].
  unfold conv2d. rewrite !ceil_div_1.
  apply andb_true_iff in E4, E3, E2, E1.
  destruct E4 as [A4 B4], E3 as [A3 B3], E2 as [A2 B2], E1 as [A1 B1].
  apply Nat.eqb_eq in A4, B4, A3, B3, A2, B2, A1, B1.
  intros <-. left. split; [reflexivity|].
  unfold h4, h3, h2, h1, w4, w3, w2, w1 in *. split; div_lia.
Qed.

(** X14.  For an input of positive height, width and depth, a positive
    number of filters and of classes, the network can be built exactly when
    the height and the width are multiples of 16: four residual blocks halve
    the sides rounding up, and each of the four concatenations with a skip
    connection needs the doubled side to equal the side of the skip.  When it
    can be built, the output has the height and width of the input and
    [nclasses] channels; for any other size the construction fails. *)
Theorem res_unet_multiple_of_16 (h w c f nclasses : nat) :
  (0 < h)%nat -> (0 < w)%nat -> (0 < c)%nat -> (0 < f)%nat -> (0 < nclasses)%nat ->
  (res_unet (h, w, c) f nclasses = Some (h, w, nclasses)
   <-> (h mod 16 = 0 /\ w mod 16 = 0)%nat)
  /\ (res_unet (h, w, c) f nclasses = None
      <-> ~ (h mod 16 = 0 /\ w mod 16 = 0)%nat).
Proof.
  intros _ _ _ _ _.
  destruct (res_unet_cases h w c f nclasses) as [[E H]|[E H]]; rewrite E.
  - split; split; intros; try tauto; try discriminate.
  - split; split; intros; try tauto; try discriminate.
Qed.

Lemma res_unet_multiple_of_16_witness :
  res_unet (768, 1024, 3)%nat 8 4 = Some (768, 1024, 4)%nat.
Proof.
  apply (proj1 (res_unet_multiple_of_16 768 1024 3 8 4
                  ltac:(lia) ltac:(lia) ltac:(lia) ltac:(lia) ltac:(lia))).
  split; reflexivity.
Defined.

(** ** The encoding of the label images *)

Lemma u8_round (v : Z) : (0 <= v <= 255)%Z -> u8 (u8 (1 + v) - 1) = v.
Proof.
  intros H. unfold u8. destruct (Z.eq_dec v 255) as [->|N]; [reflexivity|].
  rewrite (Z.mod_small (1 + v)) by lia.
  replace (1 + v - 1)%Z with v by lia. apply Z.mod_small. lia.
Qed.

Lemma u8_pred (v : Z) : (1 <= v <= 256)%Z -> u8 (v - 1) = (v - 1)%Z.
Proof. intros H. unfold u8. apply Z.mod_small. lia. Qed.

Lemma insert_unique_nonempty (v : Z) (s : list Z) : insert_unique v s <> [].
Proof.
  destruct s as [|x r]; cbn; [discriminate|].
  destruct (v <? x)%Z; [discriminate|]. destruct (v =? x)%Z; discriminate.
Qed.

Lemma insert_unique_singleton (v w : Z) (s : list Z) :
  insert_unique v s = [w] <-> v = w /\ (s = [] \/ s = [w]).
Proof.
  destruct s as [|x r]; cbn.
  - split; [intros [= ->]; auto | intros [-> _]; reflexivity].
  - destruct (v <? x)%Z eqn:E1.
    { split; [discriminate|]. intros [-> [H|H]]; [discriminate|].
      injection H as -> ->. rewrite Z.ltb_irrefl in E1. discriminate. }
    destruct (v =? x)%Z eqn:E2.
    { apply Z.eqb_eq in E2. subst x. split.
      - intros [= -> ->]. auto.
      - intros [-> [H|H]]; [discriminate|exact H]. }
    split.
    + intros [= -> Hr]. exfalso. exact (insert_unique_nonempty _ _ Hr).
    + intros [-> [H|H]]; [discriminate|]. injection H as -> ->.
      rewrite Z.eqb_refl in E2. discriminate.
Qed.

Lemma np_unique_nil (l : list Z) : np_unique l = [] -> l = [].
Proof.
  destruct l as [|a l]; [reflexivity|]. cbn. intros H.
  exfalso. exact (insert_unique_nonempty _ _ H).
Qed.

(** [len(np.unique(l)) == 1] holds for the non-empty images with a single
    value. *)
Lemma np_unique_singleton (l : list Z) (v : Z) :
  np_unique l = [v] <-> l <> [] /\ (forall x, In x l -> x = v).
Proof.
  induction l as [|a l IH].
  - cbn. split; [discriminate | intros [H _]; congruence].
  - change (np_unique (a :: l)) with (insert_unique a (np_unique l)).
    rewrite insert_unique_singleton. split.
    + intros [-> [H|H]].
      * apply np_unique_nil in H. subst l. split; [discriminate|].
        intros x [<-|[]]. reflexivity.
      * apply IH in H. destruct H as [_ H]. split; [discriminate|].
        intros x [<-|Hx]; auto.
    + intros [_ H]. split; [apply H; now left|].
      destruct l as [|b l']; [now left|]. right. apply IH.
      split; [discriminate|]. intros x Hx. apply H. now right.
Qed.

Lemma fold_min_spec (r : list Z) : forall v,
  (fold_left Z.min r v <= v)%Z
  /\ Forall (fun x => (fold_left Z.min r v <= x)%Z) r
  /\ (fold_left Z.min r v = v \/ In (fold_left Z.min r v) r).
Proof.
  induction r as [|a r IH]; intros v; cbn [fold_left].
  - split; [lia|]. split; [constructor | now left].
  - destruct (IH (Z.min v a)) as (H1 & H2 & H3). split; [lia|]. split.
    + constructor; [lia | exact H2].
    + destruct H3 as [H3|H3]; [|right; now right].
      destruct (Z.min_spec v a) as [[_ E]|[_ E]]; rewrite E in H3 |- *.
      * now left.
      * right. left. now symmetry.
Qed.

Lemma fold_max_spec (r : list Z) : forall v,
  (v <= fold_left Z.max r v)%Z
  /\ Forall (fun x => (x <= fold_left Z.max r v)%Z) r
  /\ (fold_left Z.max r v = v \/ In (fold_left Z.max r v) r).
Proof.
  induction r as [|a r IH]; intros v; cbn [fold_left].
  - split; [lia|]. split; [constructor | now left].
  - destruct (IH (Z.max v a)) as (H1 & H2 & H3). split; [lia|]. split.
    + constructor; [lia | exact H2].
    + destruct H3 as [H3|H3]; [|right; now right].
      destruct (Z.max_spec v a) as [[_ E]|[_ E]]; rewrite E in H3 |- *.
      * right. left. now symmetry.
      * now left.
Qed.

(** The minimum of a non-empty label image is one of its values and a
    lower bound of all of them. *)
Lemma min_label_spec (l : list Z) :
  l <> [] ->
  exists m, min_label l = Value m /\ In m l /\ (forall x, In x l -> (m <= x)%Z).
Proof.
  destruct l as [|v r]; [congruence|]. intros _.
  exists (fold_left Z.min r v). split; [reflexivity|].
  destruct (fold_min_spec r v) as (H1 & H2 & H3). split.
  - destruct H3 as [->|H3]; [now left | now right].
  - intros x [<-|Hx]; [exact H1|]. rewrite Forall_forall in H2. now apply H2.
Qed.

Lemma max_label_spec (l : list Z) :
  l <> [] ->
  exists m, max_label l = Value m /\ In m l /\ (forall x, In x l -> (x <= m)%Z).
Proof.
  destruct l as [|v r]; [congruence|]. intros _.
  exists (fold_left Z.max r v). split; [reflexivity|].
  destruct (fold_max_spec r v) as (H1 & H2 & H3). split.
  - destruct H3 as [->|H3]; [now left | now right].
  - intros x [<-|Hx]; [exact H1|]. rewrite Forall_forall in H2. now apply H2.
Qed.

Lemma arange_eq_length (n : nat) (x : Z) : length (arange_eq n x) = n.
Proof. unfold arange_eq. now rewrite length_map, length_seq. Qed.

Lemma arange_eq_nth (n : nat) (x : Z) (c : nat) :
  (c < n)%nat ->
  nth c (arange_eq n x) 0%Z = if (Z.of_nat c =? x)%Z then 1%Z else 0%Z.
Proof.
  intros H. unfold arange_eq.
  rewrite (nth_map_lt _ _ _ 0%nat) by now rewrite length_seq.
  now rewrite seq_nth.
Qed.

Lemma map_seq_zero (x : Z) (n : nat) : forall a,
  (forall c, (a <= c < a + n)%nat -> Z.of_nat c <> x) ->
  map (fun c => if (Z.of_nat c =? x)%Z then 1%Z else 0%Z) (seq a n) = repeat 0%Z n.
Proof.
  induction n as [|n IH]; intros a H; [reflexivity|].
  cbn [seq map repeat]. rewrite IH by (intros c Hc; apply H; lia).
  destruct (Z.eqb_spec (Z.of_nat a) x) as [E|E]; [|reflexivity].
  exfalso. apply (H a); [lia | exact E].
Qed.

Lemma set_channel_app (a : list Z) (x : Z) (b : list Z) :
  set_channel (length a) (a ++ x :: b) = a ++ 1%Z :: b.
Proof.
  unfold set_channel. induction a as [|y a IH]; [reflexivity|].
  cbn [length app firstn skipn]. cbn [skipn] in IH. now rewrite IH.
Qed.

(** Setting one channel of a row of zeros gives the comparison with
    [np.arange]. *)
Lemma set_channel_zeros (n c : nat) :
  (c < n)%nat -> set_channel c (repeat 0%Z n) = arange_eq n (Z.of_nat c).
Proof.
  intros H. unfold arange_eq.
  replace n with (c + S (n - S c))%nat by lia.
  rewrite seq_app, repeat_app. cbn [seq repeat]. rewrite map_app. cbn [map].
  rewrite Z.eqb_refl.
  rewrite map_seq_zero by (intros k Hk; lia).
  rewrite map_seq_zero by (intros k Hk; lia).
  rewrite <- (repeat_length 0%Z c) at 1. apply set_channel_app.
Qed.

Lemma first_max_from_bounded (row : list Z) : forall bi b i,
  Forall (fun y => (y <= b)%Z) row -> first_max_from bi b i row = bi.
Proof.
  induction row as [|y r IH]; intros bi b i H; [reflexivity|].
  inversion H as [|? ? Hy Hr]; subst. cbn [first_max_from].
  destruct (Z.ltb_spec b y); [lia|]. now apply IH.
Qed.

Lemma arange_eq_le_1 (x : Z) (n a : nat) :
  Forall (fun y => (y <= 1)%Z)
    (map (fun c => if (Z.of_nat c =? x)%Z then 1%Z else 0%Z) (seq a n)).
Proof.
  rewrite Forall_forall. intros y Hy. apply in_map_iff in Hy.
  destruct Hy as (c & <- & _). destruct (Z.of_nat c =? x)%Z; lia.
Qed.

Lemma first_max_from_one_hot (x : Z) (n : nat) : forall bi i c,
  (i <= c < i + n)%nat -> Z.of_nat c = x ->
  first_max_from bi 0 i
    (map (fun c => if (Z.of_nat c =? x)%Z then 1%Z else 0%Z) (seq i n)) = c.
Proof.
  induction n as [|n IH]; intros bi i c Hc Hx; [lia|].
  cbn [seq map first_max_from].
  destruct (Z.eqb_spec (Z.of_nat i) x) as [E|E].
  - cbn. assert (i = c) by lia. subst i.
    apply first_max_from_bounded. apply arange_eq_le_1.
  - cbn. apply IH; [|exact Hx]. assert (i <> c) by (intros ->; contradiction). lia.
Qed.

(** Decoding a row with [np.argmax]: the channel of the 1 when there is one,
    channel 0 for a row of zeros. *)
Lemma argmax_row_arange_eq (n : nat) (x : Z) :
  ((0 <= x < Z.of_nat n)%Z -> argmax_row (arange_eq n x) = Z.to_nat x)
  /\ ((x < 0 \/ Z.of_nat n <= x)%Z -> argmax_row (arange_eq n x) = 0%nat).
Proof.
  unfold arange_eq. destruct n as [|n]; [split; [lia | reflexivity]|].
  cbn [seq map argmax_row]. split.
  - intros H. destruct (Z.eqb_spec (Z.of_nat 0) x) as [E|E].
    + rewrite <- E. cbn [Z.of_nat Z.to_nat].
      apply first_max_from_bounded. apply arange_eq_le_1.
    + apply first_max_from_one_hot; [|lia]. cbn in E. lia.
  - intros H. destruct (Z.eqb_spec (Z.of_nat 0) x) as [E|E]; [cbn in E; lia|].
    apply first_max_from_bounded. rewrite Forall_forall. intros y Hy.
    apply in_map_iff in Hy. destruct Hy as (c & <- & Hc). apply in_seq in Hc.
    destruct (Z.eqb_spec (Z.of_nat c) x); lia.
Qed.

(** The two outcomes of the stack for at most three bands, for labels
    between 0 and [NCLASSES]: the image made only of the label [NCLASSES]
    raises, every other image gets the comparison with [np.arange], whichever
    of the two branches builds it. *)
Lemma encode_3band_cases (NCLASSES : Z) (p : list Z) :
  (0 < NCLASSES <= 255)%Z -> p <> [] ->
  (forall v, In v p -> (0 <= v <= NCLASSES)%Z) ->
  ((forall v, In v p -> v = NCLASSES) -> encode_3band NCLASSES p = Raises IndexError)
  /\ ((exists v, In v p /\ v <> NCLASSES) ->
      encode_3band NCLASSES p = Value (map (arange_eq (Z.to_nat NCLASSES)) p)).
Proof.
  intros HN Hp Hr. unfold encode_3band.
  assert (G : Value (map (fun v => arange_eq (Z.to_nat NCLASSES) (u8 (u8 (1 + v) - 1))) p)
              = Value (map (arange_eq (Z.to_nat NCLASSES)) p)).
  { f_equal. apply map_ext_in. intros v Hv. rewrite u8_round; [reflexivity|].
    specialize (Hr v Hv). lia. }
  destruct (np_unique p) as [|v [|w r]] eqn:E.
  - apply np_unique_nil in E. contradiction.
  - pose proof (proj1 (np_unique_singleton p v) E) as [_ Hall].
    assert (Hin : In v p).
    { destruct p as [|a p']; [contradiction|]. left. apply Hall. now left. }
    destruct (Z.ltb_spec v NCLASSES) as [Hlt|Hge].
    + split.
      * intros H. specialize (H v Hin). lia.
      * intros _. f_equal. apply map_ext_in. intros a Ha.
        rewrite (Hall a Ha). rewrite set_channel_zeros by (specialize (Hr v Hin); lia).
        rewrite Z2Nat.id by (specialize (Hr v Hin); lia). reflexivity.
    + split; [reflexivity|]. intros (a & Ha & Hne). exfalso.
      rewrite (Hall a Ha) in Hne. specialize (Hr v Hin). lia.
  - split; [|intros _; exact G].
    intros H. exfalso.
    assert (E' : np_unique p = [NCLASSES]) by (apply np_unique_singleton; split; assumption).
    rewrite E' in E. discriminate.
Qed.

Lemma u8_nonneg (z : Z) : (0 <= u8 z < 256)%Z.
Proof. unfold u8. apply Z.mod_pos_bound. lia. Qed.

Lemma assign_where_nonneg (q : Z -> bool) (c : Z) (l : list Z) :
  (0 <= c)%Z -> (forall v, In v l -> (0 <= v)%Z) ->
  forall v, In v (assign_where q c l) -> (0 <= v)%Z.
Proof.
  intros Hc Hl v Hv. unfold assign_where in Hv. apply in_map_iff in Hv.
  destruct Hv as (u & <- & Hu). destruct (q u); auto.
Qed.

Lemma clamp_range (n : Z) (l : list Z) :
  (0 <= n)%Z -> (forall v, In v l -> (0 <= v)%Z) ->
  forall v, In v (assign_where (fun v => (n <? v)%Z) n l) -> (0 <= v <= n)%Z.
Proof.
  intros Hn Hl v Hv. unfold assign_where in Hv. apply in_map_iff in Hv.
  destruct Hv as (u & <- & Hu). specialize (Hl u Hu).
  destruct (Z.ltb_spec n u); lia.
Qed.

Lemma remap_classes_nonneg (items : list (Z * Z)) : forall l,
  Forall (fun k => (0 <= snd k <= 255)%Z) items ->
  (forall v, In v l -> (0 <= v)%Z) ->
  forall v, In v (remap_classes items l) -> (0 <= v)%Z.
Proof.
  unfold remap_classes.
  induction items as [|k items IH]; intros l Hi Hl; [exact Hl|].
  inversion Hi as [|? ? Hk Hr]; subst. cbn [fold_left].
  apply IH; [exact Hr|]. apply assign_where_nonneg; [lia | exact Hl].
Qed.

Lemma remap_classes_length (items : list (Z * Z)) : forall l,
  length (remap_classes items l) = length l.
Proof.
  unfold remap_classes.
  induction items as [|k items IH]; intros l; [reflexivity|].
  cbn [fold_left]. rewrite IH. unfold assign_where. apply length_map.
Qed.

(** After the preparation every label lies between 0 and [NCLASSES]. *)
Lemma prepare_labels_range (REMAP_CLASSES : option (list (Z * Z))) (NCLASSES : Z)
  (l : list Z) :
  (0 < NCLASSES <= 255)%Z -> l <> [] ->
  Forall (fun v => (0 <= v <= 255)%Z) l ->
  match REMAP_CLASSES with
  | Some items => Forall (fun k => (0 <= snd k <= 255)%Z) items
  | None => True
  end ->
  exists p, prepare_labels REMAP_CLASSES NCLASSES l = Value p
    /\ length p = length l
    /\ (forall v, In v p -> (0 <= v <= NCLASSES)%Z).
Proof.
  intros HN Hl Hr Hm. rewrite Forall_forall in Hr.
  assert (Hl0 : forall v, In v l -> (0 <= v)%Z) by (intros v Hv; specialize (Hr v Hv); lia).
  unfold prepare_labels. destruct REMAP_CLASSES as [items|].
  - eexists. split; [reflexivity|]. split.
    + unfold assign_where. rewrite length_map. apply remap_classes_length.
    + apply clamp_range; [lia|]. now apply remap_classes_nonneg.
  - destruct (min_label_spec l Hl) as (m & Em & _ & _). rewrite Em.
    eexists. split; [reflexivity|]. split.
    + unfold assign_where. rewrite length_map.
      destruct (NCLASSES =? 1)%Z, (m =? 1)%Z; now rewrite ?length_map.
    + apply clamp_range; [lia|].
      assert (H1 : forall v, In v (if (m =? 1)%Z then map (fun v => u8 (v - 1)) l else l)
                             -> (0 <= v)%Z).
      { destruct (m =? 1)%Z; [|exact Hl0]. intros v Hv. apply in_map_iff in Hv.
        destruct Hv as (u & <- & _). apply u8_nonneg. }
      destruct (NCLASSES =? 1)%Z; [|exact H1].
      apply assign_where_nonneg; [lia | exact H1].
Qed.

(** X15.  In the branch for at most three bands the saved label of an image
    is decided by its prepared labels (between 0 and NCLASSES): an image whose
    every prepared label is NCLASSES raises an index error, which nothing
    catches; any other image is saved with one row of NCLASSES channels per
    pixel holding 1 at the channel of the label and 0 elsewhere, so that
    [np.argmax] gives back every label below NCLASSES, while a pixel labelled
    NCLASSES is saved as a row of zeros and reads back as class 0. *)
Theorem label_stack_3band_one_hot (REMAP_CLASSES : option (list (Z * Z)))
  (NCLASSES : Z) (l : list Z) :
  (0 < NCLASSES <= 255)%Z -> l <> [] ->
  Forall (fun v => (0 <= v <= 255)%Z) l ->
  match REMAP_CLASSES with
  | Some items => Forall (fun k => (0 <= snd k <= 255)%Z) items
  | None => True
  end ->
  exists p, prepare_labels REMAP_CLASSES NCLASSES l = Value p
    /\ length p = length l
    /\ (forall v, In v p -> (0 <= v <= NCLASSES)%Z)
    /\ ((forall v, In v p -> v = NCLASSES) ->
        label_stack_3band REMAP_CLASSES NCLASSES l = Raises IndexError)
    /\ ((exists v, In v p /\ v <> NCLASSES) ->
        exists rows,
          label_stack_3band REMAP_CLASSES NCLASSES l = Value rows
          /\ length rows = length l
          /\ forall i, (i < length l)%nat ->
               length (nth i rows []) = Z.to_nat NCLASSES
               /\ (forall c, (c < Z.to_nat NCLASSES)%nat ->
                     nth c (nth i rows []) 0%Z
                     = if (Z.of_nat c =? nth i p 0)%Z then 1%Z else 0%Z)
               /\ ((nth i p 0 < NCLASSES)%Z ->
                     argmax_row (nth i rows []) = Z.to_nat (nth i p 0%Z))
               /\ (nth i p 0%Z = NCLASSES ->
                     argmax_row (nth i rows []) = 0%nat)).
Proof.
  intros HN Hl Hr Hm.
  destruct (prepare_labels_range REMAP_CLASSES NCLASSES l HN Hl Hr Hm)
    as (p & Ep & Lp & Rp).
  exists p. split; [exact Ep|]. split; [exact Lp|]. split; [exact Rp|].
  assert (Hp : p <> []) by (intros ->; destruct l; [congruence | discriminate]).
  destruct (encode_3band_cases NCLASSES p HN Hp Rp) as [C1 C2].
  unfold label_stack_3band. rewrite Ep. split; [exact C1|].
  intros Hex. rewrite (C2 Hex). eexists. split; [reflexivity|].
  split; [now rewrite length_map|].
  intros i Hi. rewrite <- Lp in Hi.
  rewrite (nth_map_lt _ _ _ 0%Z) by exact Hi.
  assert (Hv : (0 <= nth i p 0 <= NCLASSES)%Z) by (apply Rp, nth_In, Hi).
  split; [apply arange_eq_length|]. split; [intros c Hc; now apply arange_eq_nth|].
  split; intros H.
  - apply (proj1 (argmax_row_arange_eq _ _)). lia.
  - apply (proj2 (argmax_row_arange_eq _ _)). lia.
Qed.

Lemma label_stack_3band_one_hot_witness :
  exists p, prepare_labels None 3 [1; 2; 7; 4]%Z = Value p
    /\ length p = 4%nat
    /\ exists rows, label_stack_3band None 3 [1; 2; 7; 4]%Z = Value rows
         /\ argmax_row (nth 1 rows []) = Z.to_nat (nth 1 p 0%Z)
         /\ argmax_row (nth 2 rows []) = 0%nat.
Proof.
  destruct (label_stack_3band_one_hot None 3 [1; 2; 7; 4]%Z)
    as (p & Ep & Lp & Rp & _ & H).
  - lia.
  - discriminate.
  - repeat constructor; lia.
  - exact I.
  - exists p. split; [exact Ep|]. split; [exact Lp|].
    assert (E : p = [0; 1; 3; 3]%Z) by (vm_compute in Ep; congruence).
    destruct H as (rows & Er & _ & Hrow).
    { exists 0%Z. subst p. split; [now left | lia]. }
    exists rows. split; [exact Er|]. split.
    + apply (Hrow 1%nat); [cbn; lia|]. subst p. cbn. lia.
    + apply (Hrow 2%nat); [cbn; lia|]. subst p. reflexivity.
Defined.

(** X16.  With a single class and no remapping, the mask saved for an image
    holds 1 exactly at the pixels whose label is the smallest label of the
    image, when that smallest label is 0 or 1, and 0 at every other pixel;
    an image whose labels are all 2 or more raises an index error. *)
Theorem binary_label_marks_minimum (l : list Z) (m : Z) :
  Forall (fun v => (0 <= v <= 255)%Z) l ->
  min_label l = Value m ->
  ((2 <= m)%Z -> label_stack_3band None 1 l = Raises IndexError)
  /\ ((m <= 1)%Z ->
      label_stack_3band None 1 l
      = Value (map (fun v => [if (v =? m)%Z then 1%Z else 0%Z]) l)).
Proof.
  intros Hr Em.
  assert (Hl : l <> []) by (intros ->; discriminate).
  destruct (min_label_spec l Hl) as (m' & Em' & Hin & Hlow).
  rewrite Em in Em'. injection Em' as <-.
  rewrite Forall_forall in Hr.
  unfold label_stack_3band, prepare_labels. rewrite Em. cbv zeta.
  change (1 =? 1)%Z with true. cbv iota.
  assert (HN : (0 < 1 <= 255)%Z) by lia.
  match goal with |- context [encode_3band 1 ?q] => set (p := q) end.
  split; intros Hm.
  - assert (Ep : p = map (fun _ => 1%Z) l).
    { unfold p, assign_where. destruct (Z.eqb_spec m 1) as [E|_]; [lia|].
      rewrite map_map. apply map_ext_in. intros v Hv.
      specialize (Hlow v Hv). destruct (Z.ltb_spec 0 v); [reflexivity | lia]. }
    rewrite Ep. apply encode_3band_cases; [exact HN | | | ].
    + destruct l; [congruence | discriminate].
    + intros v Hv. apply in_map_iff in Hv. destruct Hv as (u & <- & _). lia.
    + intros v Hv. apply in_map_iff in Hv. destruct Hv as (u & <- & _). reflexivity.
  - assert (Hm0 : (0 <= m)%Z) by (specialize (Hr m Hin); lia).
    assert (Ep : p = map (fun v => if (v =? m)%Z then 0%Z else 1%Z) l).
    { unfold p, assign_where. destruct (Z.eqb_spec m 1) as [E|E].
      - rewrite !map_map. apply map_ext_in. intros v Hv.
        pose proof (Hlow v Hv). pose proof (Hr v Hv).
        rewrite u8_pred by lia.
        destruct (Z.eqb_spec v m) as [->|Hne].
        + rewrite E. reflexivity.
        + destruct (Z.ltb_spec 0 (v - 1)); [reflexivity | lia].
      - assert (m = 0%Z) by lia. subst m.
        rewrite map_map. apply map_ext_in. intros v Hv.
        pose proof (Hr v Hv).
        destruct (Z.eqb_spec v 0) as [->|Hne]; [reflexivity|].
        destruct (Z.ltb_spec 0 v); [reflexivity | lia]. }
    rewrite Ep.
    destruct (encode_3band_cases 1
                (map (fun v => if (v =? m)%Z then 0%Z else 1%Z) l) HN) as [_ C2].
    + destruct l; [congruence | discriminate].
    + intros v Hv. apply in_map_iff in Hv. destruct Hv as (u & <- & _).
      destruct (u =? m)%Z; lia.
    + rewrite C2.
      * f_equal. rewrite map_map. apply map_ext. intros v.
        destruct (v =? m)%Z; reflexivity.
      * exists 0%Z. split; [|lia]. apply in_map_iff. exists m.
        now rewrite Z.eqb_refl.
Qed.

Lemma binary_label_marks_minimum_witness :
  label_stack_3band None 1 [0; 255; 255; 0]%Z = Value [[1]; [0]; [0]; [1]]%Z
  /\ label_stack_3band None 1 [255; 255]%Z = Raises IndexError.
Proof.
  split.
  - apply (binary_label_marks_minimum [0; 255; 255; 0]%Z 0%Z);
      [repeat constructor; lia | reflexivity | lia].
  - apply (binary_label_marks_minimum [255; 255]%Z 255%Z);
      [repeat constructor; lia | reflexivity | lia].
Defined.

(** X17.  In the four-band branch the saved label of an image has one row
    per pixel whose channel [c] holds 1 exactly when the prepared label of the
    pixel is [c + 1]: the label 0 is saved as a row of zeros and the label
    [v] sits on channel [v - 1], one channel below its place in the branch for
    at most three bands.  The number of channels follows the largest prepared
    label [M] of the image: it is NCLASSES when [M] is NCLASSES or
    NCLASSES - 1, and [M + 1], fewer than NCLASSES, otherwise. *)
Theorem label_stack_4band_shifted (REMAP_CLASSES : option (list (Z * Z)))
  (NCLASSES : Z) (l : list Z) :
  (0 < NCLASSES <= 255)%Z -> l <> [] ->
  Forall (fun v => (0 <= v <= 255)%Z) l ->
  match REMAP_CLASSES with
  | Some items => Forall (fun k => (0 <= snd k <= 255)%Z) items
  | None => True
  end ->
  exists p M rows,
    prepare_labels REMAP_CLASSES NCLASSES l = Value p
    /\ max_label p = Value M /\ (0 <= M <= NCLASSES)%Z
    /\ label_stack_4band REMAP_CLASSES NCLASSES l = Value rows
    /\ length rows = length l
    /\ forall i, (i < length l)%nat ->
         length (nth i rows [])
         = Z.to_nat (if (M =? NCLASSES)%Z then NCLASSES else M + 1)
         /\ (length (nth i rows []) = Z.to_nat NCLASSES <-> (NCLASSES - 1 <= M)%Z)
         /\ (forall c, (c < length (nth i rows []))%nat ->
               nth c (nth i rows []) 0%Z
               = if (Z.of_nat c + 1 =? nth i p 0)%Z then 1%Z else 0%Z).
Proof.
  intros HN Hl Hr Hm.
  destruct (prepare_labels_range REMAP_CLASSES NCLASSES l HN Hl Hr Hm)
    as (p & Ep & Lp & Rp).
  assert (Hp : p <> []) by (intros ->; destruct l; [congruence | discriminate]).
  destruct (max_label_spec p Hp) as (M & EM & HinM & Hup).
  pose proof (Rp M HinM) as HM.
  exists p, M. eexists. split; [exact Ep|]. split; [exact EM|].
  split; [exact HM|].
  unfold label_stack_4band, encode_4band. rewrite Ep, EM.
  split; [reflexivity|]. split.
  { destruct (negb (M =? NCLASSES)%Z); now rewrite ?length_map. }
  intros i Hi. rewrite <- Lp in Hi.
  assert (Hv : (0 <= nth i p 0 <= M)%Z).
  { pose proof (nth_In p 0%Z Hi) as Hin. pose proof (Rp _ Hin). pose proof (Hup _ Hin). lia. }
  assert (Hch : forall c, (c < Z.to_nat M)%nat ->
            nth c (arange_eq (Z.to_nat M) (u8 (nth i p 0%Z - 1))) 0%Z
            = if (Z.of_nat c + 1 =? nth i p 0)%Z then 1%Z else 0%Z).
  { intros c Hc. rewrite arange_eq_nth by exact Hc.
    destruct (Z.eq_dec (nth i p 0%Z) 0) as [E0|E0].
    - rewrite E0. change (u8 (0 - 1)) with 255%Z.
      destruct (Z.eqb_spec (Z.of_nat c) 255); [lia|].
      destruct (Z.eqb_spec (Z.of_nat c + 1) 0); [lia | reflexivity].
    - rewrite u8_pred by lia.
      destruct (Z.eqb_spec (Z.of_nat c) (nth i p 0%Z - 1)),
               (Z.eqb_spec (Z.of_nat c + 1) (nth i p 0%Z)); lia || reflexivity. }
  destruct (Z.eqb_spec M NCLASSES) as [E|E]; cbn [negb].
  - rewrite (nth_map_lt _ _ _ 0%Z) by exact Hi.
    rewrite arange_eq_length. subst M.
    split; [reflexivity|]. split; [split; [lia | reflexivity]|].
    exact Hch.
  - rewrite (nth_map_lt _ _ _ []) by now rewrite length_map.
    rewrite (nth_map_lt _ _ _ 0%Z) by exact Hi.
    rewrite length_app, arange_eq_length. cbn [length].
    split; [lia|]. split; [lia|].
    intros c Hc. destruct (Nat.lt_ge_cases c (Z.to_nat M)) as [Hlt|Hge].
    + rewrite app_nth1 by now rewrite arange_eq_length. now apply Hch.
    + rewrite app_nth2 by now rewrite arange_eq_length.
      rewrite arange_eq_length. replace (c - Z.to_nat M)%nat with 0%nat by lia.
      cbn [nth]. destruct (Z.eqb_spec (Z.of_nat c + 1) (nth i p 0%Z)); [lia | reflexivity].
Qed.

Lemma label_stack_4band_shifted_witness :
  exists p M rows,
    prepare_labels None 4 [0; 2; 0; 2]%Z = Value p
    /\ max_label p = Value M
    /\ label_stack_4band None 4 [0; 2; 0; 2]%Z = Value rows
    /\ length (nth 1 rows []) = Z.to_nat (if (M =? 4)%Z then 4 else M + 1)%Z.
Proof.
  destruct (label_stack_4band_shifted None 4 [0; 2; 0; 2]%Z)
    as (p & M & rows & Ep & EM & _ & Er & _ & H).
  - lia.
  - discriminate.
  - repeat constructor; lia.
  - exact I.
  - exists p, M, rows. split; [exact Ep|]. split; [exact EM|]. split; [exact Er|].
    apply (H 1%nat). cbn. lia.
Defined.

Lemma remap_classes_map (items : list (Z * Z)) : forall l,
  remap_classes items l
  = map (fun v => fold_left (fun v k => if (v =? fst k)%Z then snd k else v) items v) l.
Proof.
  unfold remap_classes.
  induction items as [|k items IH]; intros l; cbn [fold_left].
  - now rewrite map_id.
  - rewrite IH. unfold assign_where. now rewrite map_map.
Qed.

Lemma remap_value_untouched (items : list (Z * Z)) : forall v,
  forallb (fun k' => negb (v =? fst k')%Z) items = true ->
  fold_left (fun v k => if (v =? fst k)%Z then snd k else v) items v = v.
Proof.
  induction items as [|k items IH]; intros v H; [reflexivity|].
  cbn [forallb] in H. apply andb_true_iff in H. destruct H as [H1 H2].
  cbn [fold_left]. apply negb_true_iff in H1. rewrite H1. now apply IH.
Qed.

(** X18.  The remapping of classes is applied item by item on the image
    itself.  For an 8-bit label image and values to write between 0 and 255,
    when no item writes a value that a later item reads, the result is the
    simultaneous remapping: every pixel whose label is a key gets the value
    of that key, every other pixel keeps its label, and the image still holds
    values between 0 and 255. *)
Theorem remap_classes_simultaneous (items : list (Z * Z)) (l : list Z) :
  Forall (fun v => (0 <= v <= 255)%Z) l ->
  Forall (fun k => (0 <= snd k <= 255)%Z) items ->
  no_chain items = true ->
  remap_classes items l
  = map (fun v => match find (fun k => (v =? fst k)%Z) items with
                  | Some k => snd k
                  | None => v
                  end) l
  /\ Forall (fun v => (0 <= v <= 255)%Z) (remap_classes items l).
Proof.
  intros Hl Hi H.
  assert (E : remap_classes items l
              = map (fun v => match find (fun k => (v =? fst k)%Z) items with
                              | Some k => snd k
                              | None => v
                              end) l).
  { rewrite remap_classes_map. apply map_ext. intros v.
    clear Hl Hi. revert v. induction items as [|k items IH]; intros v; [reflexivity|].
    cbn [no_chain] in H. apply andb_true_iff in H. destruct H as [H1 H2].
    cbn [fold_left find]. destruct (v =? fst k)%Z.
    - now apply remap_value_untouched.
    - now apply IH. }
  split; [exact E|]. rewrite E. rewrite Forall_forall in *.
  intros x Hx. apply in_map_iff in Hx. destruct Hx as (v & <- & Hv).
  destruct (find (fun k => (v =? fst k)%Z) items) as [k|] eqn:F.
  - apply find_some in F. now apply Hi.
  - now apply Hl.
Qed.

Lemma remap_classes_simultaneous_witness :
  remap_classes [(1, 0); (2, 0); (3, 1)]%Z [0; 1; 2; 3; 4]%Z = [0; 0; 0; 1; 4]%Z.
Proof.
  rewrite (proj1 (remap_classes_simultaneous [(1, 0); (2, 0); (3, 1)]%Z
                    [0; 1; 2; 3; 4]%Z
                    ltac:(repeat constructor; cbn; lia)
                    ltac:(repeat constructor; cbn; lia)
                    ltac:(reflexivity))).
  reflexivity.
Defined.

(** X19.  A remapping meant to exchange two classes [a] and [b] of an
    8-bit label image, [a] to [b] and then [b] to [a], does not exchange
    them: the pixels of [a] become [b] and are then turned back together with
    the pixels of [b], so both classes end as [a] and no pixel is labelled
    [b]. *)
Theorem remap_classes_swap_merges (a b : Z) (l : list Z) :
  (0 <= a <= 255)%Z -> (0 <= b <= 255)%Z ->
  Forall (fun v => (0 <= v <= 255)%Z) l ->
  a <> b ->
  remap_classes [(a, b); (b, a)] l
  = map (fun v => if ((v =? a) || (v =? b))%Z%bool then a else v) l
  /\ ~ In b (remap_classes [(a, b); (b, a)] l)
  /\ Forall (fun v => (0 <= v <= 255)%Z) (remap_classes [(a, b); (b, a)] l).
Proof.
  intros Ha Hb Hl Hab.
  assert (E : remap_classes [(a, b); (b, a)] l
              = map (fun v => if ((v =? a) || (v =? b))%Z%bool then a else v) l).
  { rewrite remap_classes_map. apply map_ext. intros v. cbn [fold_left fst snd].
    destruct (Z.eqb_spec v a) as [->|Hne].
    - now rewrite Z.eqb_refl.
    - cbn [orb]. reflexivity. }
  split; [exact E|]. rewrite E. split.
  - intros Hin. apply in_map_iff in Hin. destruct Hin as (v & Hv & _).
    destruct (Z.eqb_spec v a), (Z.eqb_spec v b); cbn [orb] in Hv; congruence.
  - rewrite Forall_forall in *. intros x Hx. apply in_map_iff in Hx.
    destruct Hx as (v & <- & Hv). destruct ((v =? a) || (v =? b))%Z%bool; auto.
Qed.

Lemma remap_classes_swap_merges_witness :
  remap_classes [(1, 2); (2, 1)]%Z [0; 1; 2; 1]%Z = [0; 1; 1; 1]%Z.
Proof.
  rewrite (proj1 (remap_classes_swap_merges 1 2 [0; 1; 2; 1]%Z
                    ltac:(lia) ltac:(lia)
                    ltac:(repeat constructor; lia)
                    ltac:(lia))).
  reflexivity.
Defined.

(** ** The folders of the dataset script *)

Lemma string_length_append (a b : string) :
  String.length (a ++ b) = (String.length a + String.length b)%nat.
Proof. induction a as [|c a IH]; cbn; [reflexivity | now rewrite IH]. Qed.

Lemma append_differs_at (a s b t : string) (n m : nat) (c1 c2 : ascii) :
  get n s = Some c1 -> get m t = Some c2 -> c1 <> c2 ->
  (n + String.length a = m + String.length b)%nat ->
  (a ++ s)%string <> (b ++ t)%string.
Proof.
  intros H1 H2 Hc Hn E.
  rewrite (append_correct2 a s n) in H1. rewrite (append_correct2 b t m) in H2.
  rewrite E, Hn in H1. congruence.
Qed.

(** A folder named labels, masks or nir is never a folder named images. *)
Lemma subfolder_not_images (d i name : string) :
  name = "labels"%string \/ name = "masks"%string \/ name = "nir"%string ->
  (d ++ sep ++ name)%string <> (i ++ sep ++ "images")%string.
Proof.
  intros H E.
  assert (L := f_equal String.length E). rewrite !string_length_append in L.
  revert E. destruct H as [-> | [-> | ->] ]; cbn in L.
  - apply (append_differs_at d _ i _ 5 5 "l"%char "e"%char); try reflexivity;
      [discriminate | lia].
  - apply (append_differs_at d _ i _ 4 5 "k"%char "e"%char); try reflexivity;
      [discriminate | lia].
  - apply (append_differs_at d _ i _ 3 6 "r"%char "s"%char); try reflexivity;
      [discriminate | lia].
Qed.

Lemma images_not_self (i : string) : (i ++ sep ++ "images")%string <> i.
Proof.
  intros E. assert (L := f_equal String.length E).
  rewrite string_length_append in L. cbn in L. lia.
Qed.

Lemma png_not_jpg (name : string) :
  star_match ".png" name = true -> star_match ".jpg" name = false.
Proof.
  unfold star_match, ends_with. intros H. apply andb_true_iff in H.
  destruct H as [_ H]. apply String.eqb_eq in H. cbn [String.length] in *.
  rewrite H. apply andb_false_r.
Qed.

Lemma entry_eqb_refl (f : string * string) : entry_eqb f f = true.
Proof. unfold entry_eqb. now rewrite !String.eqb_refl. Qed.

Lemma entry_eqb_eq (f g : string * string) : entry_eqb f g = true -> f = g.
Proof.
  unfold entry_eqb. intros H. apply andb_true_iff in H. destruct H as [H1 H2].
  apply String.eqb_eq in H1, H2. destruct f, g. cbn in *. congruence.
Qed.

(** Moving the files of a pattern moves the entries the pattern matches. *)
Lemma move_glob_entries (d ext dst : string) (t : tree) :
  entries (move_files (glob d ext t) dst t)
  = map (fun f => if matches d ext f then (dst, snd f) else f) (entries t).
Proof.
  unfold move_files, glob. cbn [entries]. apply map_ext_in. intros f Hf.
  destruct (matches d ext f) eqn:E.
  - replace (existsb (entry_eqb f) (filter (matches d ext) (entries t))) with true;
      [reflexivity|].
    symmetry. apply existsb_exists. exists f. split; [|apply entry_eqb_refl].
    apply filter_In. now split.
  - replace (existsb (entry_eqb f) (filter (matches d ext) (entries t))) with false;
      [reflexivity|].
    symmetry. apply not_true_is_false. intros H. apply existsb_exists in H.
    destruct H as (g & Hg & Hfg). apply entry_eqb_eq in Hfg. subst g.
    apply filter_In in Hg. destruct Hg as [_ Hg]. congruence.
Qed.

Lemma try_mkdir_entries (path : string) (t : tree) :
  entries (snd (try_mkdir path t)) = entries t.
Proof. unfold try_mkdir. now destruct (path_exists path t). Qed.

Lemma try_mkdir_exists (path : string) (t : tree) :
  path_exists path (snd (try_mkdir path t)) = true.
Proof.
  unfold try_mkdir. destruct (path_exists path t) eqn:E; [exact E|].
  unfold path_exists. cbn. now rewrite String.eqb_refl.
Qed.

Lemma try_mkdir_existing (path : string) (t : tree) :
  path_exists path t = true -> try_mkdir path t = (true, t).
Proof. unfold try_mkdir. now intros ->. Qed.

(** With the flag set, a block moves nothing and leaves the flag set. *)
Lemma organise_folder_flag_set (d name : string) (t : tree) :
  fst (organise_folder d name true t) = true
  /\ entries (snd (organise_folder d name true t)) = entries t.
Proof.
  unfold organise_folder. cbn [orb fst snd]. split; [reflexivity|].
  apply try_mkdir_entries.
Qed.

(** X20.  The flag that records a failed [os.mkdir] is shared by the blocks
    of the images, the labels and the fourth band and is never set back:
    when the folder images already exists in the image directory, the run
    moves no file at all, neither images nor labels nor fourth-band files,
    even where the folder for them is newly made by the run. *)
Theorem existing_images_folder_blocks_moves (imdir lab_path nimdir : string)
  (USEMASK : bool) (N_DATA_BANDS : Z) (t : tree) :
  path_exists (imdir ++ sep ++ "images") t = true ->
  entries (snd (organise imdir lab_path nimdir USEMASK N_DATA_BANDS t)) = entries t.
Proof.
  intros H. unfold organise, organise_images.
  rewrite (try_mkdir_existing _ _ H). cbn [fst snd].
  cbv zeta.
  destruct (Datatypes.length (glob imdir ".png" t) =? 0)%nat; cbn [fst snd];
    destruct (N_DATA_BANDS =? 4)%Z;
    rewrite ?(proj1 (organise_folder_flag_set _ _ _)),
            ?(proj2 (organise_folder_flag_set _ _ _));
    reflexivity.
Qed.

Lemma existing_images_folder_blocks_moves_witness :
  entries (snd (organise "/d/im" "/d/lab" "" false 3 used_tree)) = entries used_tree.
Proof.
  apply (existing_images_folder_blocks_moves "/d/im" "/d/lab" "" false 3 used_tree).
  reflexivity.
Defined.

Lemma filter_none {A : Type} (q : A -> bool) (l : list A) :
  (forall x, In x l -> q x = false) -> filter q l = [].
Proof.
  induction l as [|a l IH]; intros H; [reflexivity|]. cbn.
  rewrite (H a) by now left. apply IH. intros x Hx. apply H. now right.
Qed.

Lemma matches_other_dir (d d' ext name : string) :
  d' <> d -> matches d ext (d', name) = false.
Proof.
  intros H. unfold matches. cbn [fst]. apply String.eqb_neq in H. now rewrite H.
Qed.

Lemma counted_nowhere_move (imdir d ext dst : string) (t : tree) :
  dst <> imdir -> dst <> (imdir ++ sep ++ "images")%string ->
  counted_nowhere imdir t ->
  counted_nowhere imdir (move_files (glob d ext t) dst t).
Proof.
  intros H1 H2 P f Hf. rewrite move_glob_entries in Hf. apply in_map_iff in Hf.
  destruct Hf as (g & <- & Hg). destruct (matches d ext g).
  - split; now apply matches_other_dir.
  - now apply P.
Qed.

Lemma counted_nowhere_mkdir (imdir path : string) (t : tree) :
  counted_nowhere imdir t -> counted_nowhere imdir (snd (try_mkdir path t)).
Proof. intros P f Hf. rewrite try_mkdir_entries in Hf. now apply P. Qed.

Lemma organise_folder_counted_nowhere (imdir d name : string) (b : bool) (t : tree) :
  name = "labels"%string \/ name = "masks"%string \/ name = "nir"%string ->
  (d ++ sep ++ name)%string <> imdir ->
  counted_nowhere imdir t ->
  counted_nowhere imdir (snd (organise_folder d name b t)).
Proof.
  intros Hn Hd P. unfold organise_folder. cbv zeta.
  destruct (b || fst (try_mkdir (d ++ sep ++ name) t))%bool; cbn [snd].
  - now apply counted_nowhere_mkdir.
  - apply counted_nowhere_move; [exact Hd | now apply subfolder_not_images |].
    apply counted_nowhere_move; [exact Hd | now apply subfolder_not_images |].
    now apply counted_nowhere_mkdir.
Qed.

Lemma try_mkdir_folders (q path : string) (t : tree) :
  In q (folders t) -> In q (folders (snd (try_mkdir path t))).
Proof.
  unfold try_mkdir. destruct (path_exists path t); [auto|]. cbn. now right.
Qed.

Lemma organise_folder_folders (q d name : string) (b : bool) (t : tree) :
  In q (folders t) -> In q (folders (snd (organise_folder d name b t))).
Proof.
  intros H. unfold organise_folder. cbv zeta.
  destruct (b || fst (try_mkdir (d ++ sep ++ name) t))%bool; cbn [snd];
    unfold move_files; cbn [folders]; now apply try_mkdir_folders.
Qed.

Lemma folder_exists (q : string) (t : tree) :
  In q (folders t) -> path_exists q t = true.
Proof.
  intros H. unfold path_exists. apply orb_true_iff. left.
  apply existsb_exists. exists q. split; [exact H | apply String.eqb_refl].
Qed.

(** X21.  The images are counted as the png files directly in the image
    directory or, when there are none and the folder images exists, as the
    jpg files of that folder.  So a first run over a directory of png images
    counts them and moves them into the new folder images, and a second run
    counts 0 images: the png files are no longer where the first count looks,
    and the second count looks for jpg files only. *)
Theorem second_run_counts_no_png (imdir lab_path nimdir : string)
  (USEMASK : bool) (N_DATA_BANDS : Z) (t : tree) :
  path_exists (imdir ++ sep ++ "images") t = false ->
  forallb (fun f => negb (String.eqb (fst f) (imdir ++ sep ++ "images")))
          (entries t) = true ->
  glob imdir ".png" t <> [] ->
  (lab_path ++ sep ++ (if USEMASK then "masks" else "labels"))%string <> imdir ->
  (nimdir ++ sep ++ "nir")%string <> imdir ->
  fst (organise imdir lab_path nimdir USEMASK N_DATA_BANDS t)
  = length (glob imdir ".png" t)
  /\ fst (organise imdir lab_path nimdir USEMASK N_DATA_BANDS
            (snd (organise imdir lab_path nimdir USEMASK N_DATA_BANDS t)))
     = 0%nat.
Proof.
  intros Hfresh Hempty Hpng Hlab Hnir.
  set (images := (imdir ++ sep ++ "images")%string) in *.
  assert (Hk : (length (glob imdir ".png" t) =? 0)%nat = false).
  { apply Nat.eqb_neq. destruct (glob imdir ".png" t); [congruence | discriminate]. }
  (* the first run *)
  assert (E1 : organise_images imdir t
               = ((length (glob imdir ".png" t), false),
                  move_files (glob imdir ".png" (mk_tree (images :: folders t) (entries t)))
                             images (mk_tree (images :: folders t) (entries t)))).
  { unfold organise_images. cbv zeta. fold images. rewrite Hk.
    unfold try_mkdir. rewrite Hfresh. reflexivity. }
  set (t1 := move_files _ images _) in E1.
  assert (P1 : counted_nowhere imdir t1).
  { intros f Hf. unfold t1 in Hf. rewrite move_glob_entries in Hf.
    cbn [entries] in Hf. apply in_map_iff in Hf. destruct Hf as (g & <- & Hg).
    destruct (matches imdir ".png" g) eqn:Em.
    - split.
      + apply matches_other_dir. apply images_not_self.
      + unfold matches in *. cbn [fst snd]. apply andb_true_iff in Em.
        destruct Em as [_ Em]. rewrite (png_not_jpg _ Em). apply andb_false_r.
    - split; [exact Em|]. rewrite forallb_forall in Hempty.
      specialize (Hempty g Hg). apply negb_true_iff in Hempty.
      unfold matches. fold images. now rewrite Hempty. }
  assert (F1 : In images (folders t1)) by (unfold t1, move_files; cbn; now left).
  assert (Hname : forall b : bool,
            (if b then "masks" else "labels")%string = "labels"%string
            \/ (if b then "masks" else "labels")%string = "masks"%string
            \/ (if b then "masks" else "labels")%string = "nir"%string).
  { intros []; auto. }
  set (r := organise imdir lab_path nimdir USEMASK N_DATA_BANDS t).
  assert (R : fst r = length (glob imdir ".png" t)
              /\ counted_nowhere imdir (snd r) /\ In images (folders (snd r))).
  { unfold r, organise. cbv zeta. rewrite E1. cbn [fst snd]. split; [reflexivity|].
    destruct (N_DATA_BANDS =? 4)%Z; split.
    - apply organise_folder_counted_nowhere; [auto | exact Hnir |].
      apply organise_folder_counted_nowhere; [apply Hname | exact Hlab | exact P1].
    - now apply organise_folder_folders, organise_folder_folders.
    - apply organise_folder_counted_nowhere; [apply Hname | exact Hlab | exact P1].
    - now apply organise_folder_folders. }
  destruct R as (R1 & P2 & F2). split; [exact R1|].
  (* the second run *)
  unfold organise. cbv zeta. cbn [fst]. unfold organise_images. cbv zeta.
  fold images. rewrite (try_mkdir_existing _ _ (folder_exists _ _ F2)).
  cbn [fst snd].
  assert (G1 : glob imdir ".png" (snd r) = []).
  { apply filter_none. intros f Hf. now apply P2. }
  assert (G2 : glob images ".jpg" (snd r) = []).
  { apply filter_none. intros f Hf. now apply P2. }
  rewrite G1, G2. reflexivity.
Qed.

Lemma second_run_counts_no_png_witness :
  fst (organise "/d/im" "/d/lab" "" false 3 fresh_tree) = 2%nat
  /\ fst (organise "/d/im" "/d/lab" "" false 3
            (snd (organise "/d/im" "/d/lab" "" false 3 fresh_tree))) = 0%nat.
Proof.
  apply (second_run_counts_no_png "/d/im" "/d/lab" "" false 3 fresh_tree);
    try reflexivity; discriminate.
Defined.
